(** * swagger_aggregator: a shallow embedding and its verified properties

    The development follows [swagger_aggregator/swagger_aggregator.py]:

    - [PyStr]   the [str] methods the module calls ([replace],
      [startswith], [split], [lower], [in]);
    - [Py]      exceptions, the error monad, JSON values and Python's
      insertion-ordered [dict];
    - [Retry]   the decorator [retry_http];
    - [Agg]     the methods of [SwaggerAggregator];
    - [Fixture] the configuration and the documents of the test suite;
    - [Gen]     [get_spec_from_uri] and [generate_swagger_json];
    - [Handler] the generated handler under [retry_http].

    Python dictionaries are association lists in insertion order with
    unique keys: the order in which [dict.items()] yields entries is
    observable in this program ([parse_value] replaces placeholder after
    placeholder, [merge_aggregates] lets a later upstream overwrite an
    earlier one).  Characters are 8-bit ([ascii]); times are exact
    rationals where Python computes in binary floating point (see
    [Retry.next_retry_sleep]).  What the libraries outside the module
    do ([requests], [uuid], [SwaggerParser], [json.loads] on text that
    is no serialisation any more, the file system) is a parameter of
    the definitions that call them. *)

From Stdlib Require Import List String Ascii Bool Arith ZArith QArith Lia Lqa.
From Corelib Require PrimFloat.

Set Warnings "-register-all".
Import ListNotations.
Open Scope string_scope.
Open Scope list_scope.

(* ===================================================================== *)
(** * Python strings                                                       *)
(* ===================================================================== *)

Module PyStr.

(** [s.startswith(p)] *)
Definition startswith (s p : string) : bool := prefix p s.

(** [sub in s] for two strings. *)
Fixpoint str_contains (sub s : string) : bool :=
  prefix sub s ||
  match s with
  | EmptyString => false
  | String _ s' => str_contains sub s'
  end.

(** The scan of [s.replace(old, new)] for a non-empty [old]: leftmost
    occurrences, not overlapping.  [skip] counts the characters of an
    occurrence that has been replaced and is still to be passed over. *)
Fixpoint replace_scan (old new s : string) (skip : nat) : string :=
  match s with
  | EmptyString => EmptyString
  | String c s' =>
      match skip with
      | S n => replace_scan old new s' n
      | O =>
          if prefix old s
          then (new ++ replace_scan old new s' (String.length old - 1))%string
          else String c (replace_scan old new s' 0)
      end
  end.

(** [s.replace("", new)]: [new] before every character and at the end. *)
Fixpoint replace_empty (new s : string) : string :=
  match s with
  | EmptyString => new
  | String c s' => (new ++ String c (replace_empty new s'))%string
  end.

(** [s.replace(old, new)] *)
Definition str_replace (s old new : string) : string :=
  match old with
  | EmptyString => replace_empty new s
  | String _ _ => replace_scan old new s 0
  end.

(** [s.split(sep)] for a one-character separator: never an empty list,
    adjacent separators give empty fields. *)
Fixpoint split (sep : ascii) (s : string) : list string :=
  match s with
  | EmptyString => [EmptyString]
  | String c s' =>
      if Ascii.eqb c sep then EmptyString :: split sep s'
      else match split sep s' with
           | h :: t => String c h :: t
           | [] => [String c EmptyString]
           end
  end.

Definition lower_char (c : ascii) : ascii :=
  let n := nat_of_ascii c in
  if (65 <=? n)%nat && (n <=? 90)%nat then ascii_of_nat (n + 32) else c.

(** [s.lower()] on ASCII letters. *)
Fixpoint lower (s : string) : string :=
  match s with
  | EmptyString => EmptyString
  | String c s' => String (lower_char c) (lower s')
  end.

(** The part of [s] after the first [c], if [c] occurs. *)
Fixpoint after_first (c : ascii) (s : string) : option string :=
  match s with
  | EmptyString => None
  | String d s' => if Ascii.eqb d c then Some s' else after_first c s'
  end.

(** The part of [s] before the last [c], if [c] occurs. *)
Fixpoint before_last (c : ascii) (s : string) : option string :=
  match s with
  | EmptyString => None
  | String d s' =>
      match before_last c s' with
      | Some p => Some (String d p)
      | None => if Ascii.eqb d c then Some EmptyString else None
      end
  end.

(** The first occurrence of [old] in [a ++ old ++ b] is the one shown:
    no occurrence starts inside [a]. *)
Fixpoint first_at (old a b : string) : bool :=
  match a with
  | EmptyString => true
  | String _ a' => negb (prefix old (a ++ old ++ b)) && first_at old a' b
  end.

End PyStr.

(* ===================================================================== *)
(** * Python values, exceptions and dictionaries                          *)
(* ===================================================================== *)

Module Py.

(** The exception classes the module raises, catches or lets through.
    [ConnectionError] is [requests.exceptions.ConnectionError],
    [JSONDecodeError] is [simplejson]'s (a subclass of [ValueError],
    caught before it wherever both are handled). *)
Inductive exn : Type :=
| ConnectionError (msg : string)
| JSONDecodeError
| ValueError
| KeyError (key : string)
| IndexError
| TypeError
| AttributeError
| RecursionError
| OtherError (msg : string).

Definition is_ConnectionError (e : exn) : bool :=
  match e with ConnectionError _ => true | _ => false end.

Inductive result (A : Type) : Type :=
| Ok (a : A)
| Raise (e : exn).
Arguments Ok {A} a.
Arguments Raise {A} e.

Definition bind {A B} (c : result A) (k : A -> result B) : result B :=
  match c with
  | Ok a => k a
  | Raise e => Raise e
  end.

(** JSON documents as [json.loads] and [Response.json()] build them:
    object keys are strings.  The payload of a number is never
    inspected by the program. *)
Inductive json : Type :=
| JNull
| JBool (b : bool)
| JNum (n : Z)
| JStr (s : string)
| JList (l : list json)
| JDict (d : list (string * json)).

(** ** [dict] with string keys *)
Section Dict.
Context {V : Type}.
Definition dict := list (string * V).

(** [k in d] *)
Fixpoint d_in (k : string) (d : dict) : bool :=
  match d with
  | [] => false
  | (k', _) :: d' => String.eqb k k' || d_in k d'
  end.

(** [d.get(k)], [None] when absent. *)
Fixpoint d_get (k : string) (d : dict) : option V :=
  match d with
  | [] => None
  | (k', v) :: d' => if String.eqb k k' then Some v else d_get k d'
  end.

(** [d[k]] *)
Definition d_getitem (k : string) (d : dict) : result V :=
  match d_get k d with
  | Some v => Ok v
  | None => Raise (KeyError k)
  end.

(** [d[k] = v]: an existing key keeps its position. *)
Fixpoint d_set (k : string) (v : V) (d : dict) : dict :=
  match d with
  | [] => [(k, v)]
  | (k', v') :: d' =>
      if String.eqb k k' then (k', v) :: d' else (k', v') :: d_set k v d'
  end.

(** [del d[k]] *)
Fixpoint d_del (k : string) (d : dict) : result dict :=
  match d with
  | [] => Raise (KeyError k)
  | (k', v') :: d' =>
      if String.eqb k k' then Ok d'
      else bind (d_del k d') (fun r => Ok ((k', v') :: r))
  end.

(** [d.update(other)] and [dict(pairs)]. *)
Definition d_update (d other : dict) : dict :=
  fold_left (fun acc kv => d_set (fst kv) (snd kv) acc) other d.

Definition d_of_items (items : list (string * V)) : dict :=
  d_update [] items.

Definition d_keys (d : dict) : list string := map fst d.
End Dict.
Arguments dict V : clear implicits.

End Py.

Export Py.

Declare Scope py_scope.
Delimit Scope py_scope with py.
Notation "x <- c ;; k" := (Py.bind c (fun x => k))
  (at level 61, c at next level, right associativity) : py_scope.
Open Scope py_scope.

(* ===================================================================== *)
(** * [retry_http]                                                         *)
(* ===================================================================== *)

(** The arithmetic of the program: Python's [float] is binary64, which
    the kernel's primitive floats are. *)
Module Binary64.
Import PrimFloat.

Fixpoint of_pos (p : positive) : float :=
  match p with
  | xH => 1%float
  | xO p' => (2 * of_pos p')%float
  | xI p' => (2 * of_pos p' + 1)%float
  end.

(** The conversion of an [int] in an operation with a [float] (exact
    for the integers of this program). *)
Definition of_Z (z : Z) : float :=
  match z with
  | Z0 => 0%float
  | Zpos p => of_pos p
  | Zneg p => (- of_pos p)%float
  end.

(** [x ** n] for the powers of 1.5 the program takes, which binary64
    holds exactly. *)
Fixpoint pow (x : float) (n : nat) : float :=
  match n with
  | O => 1%float
  | S n' => (x * pow x n')%float
  end.

Definition max_sleep_time : float := 10%float.

(** [multiplier ** request_nb * (retry_interval *
      (randint(0, 1000) / 1000. + 1 - randomization_factor))] *)
Definition next_retry_sleep (request_nb : nat) (r : Z) : float :=
  (pow 1.5 request_nb * (0.5 * (of_Z r / 1000 + 1 - 0.5)))%float.

(** [total_sleep_time] after [n] turns of [total_sleep_time +=
    next_retry_sleep]. *)
Fixpoint slept_before (draw : nat -> Z) (n : nat) : float :=
  match n with
  | O => 0%float
  | S n' => (slept_before draw n' + next_retry_sleep n' (draw n'))%float
  end.

(** [total_sleep_time < max_sleep_time] *)
Definition below_cap (draw : nat -> Z) (n : nat) : bool :=
  ltb (slept_before draw n) max_sleep_time.

End Binary64.

Module Retry.

Definition multiplier : Q := 15 # 10.
Definition retry_interval : Q := 5 # 10.
Definition randomization_factor : Q := 5 # 10.
Definition max_sleep_time : Q := 10 # 1.

(** [int(2 * randomization_factor * 1000)], the upper bound handed to
    [random.randint]. *)
Definition randint_hi : Z := 1000.

Fixpoint Qpow (q : Q) (n : nat) : Q :=
  match n with
  | O => 1
  | S n' => q * Qpow q n'
  end.

(** [multiplier ** request_nb * (retry_interval *
      (randint(0, 1000) / 1000. + 1 - randomization_factor))]

    The program computes this delay, and the sum [total_sleep_time] of
    the delays, in binary floating point ([Binary64] above).  The
    delays and sums of the model are the exact values, which the
    program's are within 1e-13 of. *)
Definition next_retry_sleep (request_nb : nat) (r : Z) : Q :=
  Qpow multiplier request_nb *
  (retry_interval * (inject_Z r / 1000 + 1 - randomization_factor)).

(** What the wrapper does to the outside world, in order. *)
Inductive event : Type :=
| Called
| Slept (t : Q).

Record state : Type := mkState {
  request_nb : nat;
  total_sleep_time : Q;
  last_exception : option exn;
  trace : list event
}.

Definition init : state := mkState 0 0 None [].

Definition Qltb (x y : Q) : bool := negb (Qle_bool y x).

Section Wrapper.
Context {A : Type}.
(** [call n]: what the wrapped function does at its invocation number
    [n] (from 0). [draw n]: the value of the [n]-th [random.randint]. *)
Variable call : nat -> result A.
Variable draw : nat -> Z.

(** The [while] loop of [_retry_http]; [None] when [fuel] iterations
    did not finish it. *)
(** The test [total_sleep_time < max_sleep_time] of the [while].  The
    exact sums lie on a grid of step 1/(2000 * 2^n)
    ([slept_before_off_the_cap] below), far wider than what rounding
    adds up to: an exact sum above or below 10 has the floating-point
    sum on the same side.  When the exact sum is 10, the floating-point
    sum decides, as it does in the program. *)
Definition below_cap (st : state) : bool :=
  if Qeq_bool (total_sleep_time st) max_sleep_time
  then Binary64.below_cap draw (request_nb st)
  else Qltb (total_sleep_time st) max_sleep_time.

Fixpoint retry_loop (fuel : nat) (st : state) : option (result A * state) :=
  match fuel with
  | O => None
  | S fuel' =>
      if below_cap st then
        let called := trace st ++ [Called] in
        match call (request_nb st) with
        | Ok a =>
            Some (Ok a, mkState (request_nb st) (total_sleep_time st)
                                (last_exception st) called)
        | Raise exc =>
            if is_ConnectionError exc then
              let next := next_retry_sleep (request_nb st)
                                           (draw (request_nb st)) in
              retry_loop fuel'
                (mkState (S (request_nb st))
                         (total_sleep_time st + next)
                         (Some exc)
                         (called ++ [Slept next]))
            else
              Some (Raise exc,
                    mkState (request_nb st) (total_sleep_time st)
                            (last_exception st) called)
        end
      else
        match last_exception st with
        | Some exc => Some (Raise exc, st)
        | None => Some (Raise TypeError, st)   (* [raise None] *)
        end
  end.

(** Every delay is at least a quarter of a second, so forty failures
    exhaust the ten seconds. *)
Definition enough_fuel : nat := 42.

Definition _retry_http : option (result A * state) :=
  retry_loop enough_fuel init.
End Wrapper.

(** The delays slept in a trace, and their sum. *)
Fixpoint sleeps (tr : list event) : list Q :=
  match tr with
  | [] => []
  | Called :: tr' => sleeps tr'
  | Slept t :: tr' => t :: sleeps tr'
  end.

Fixpoint calls (tr : list event) : nat :=
  match tr with
  | [] => 0
  | Called :: tr' => S (calls tr')
  | Slept _ :: tr' => calls tr'
  end.

Fixpoint Qsum (l : list Q) : Q :=
  match l with
  | [] => 0
  | x :: l' => x + Qsum l'
  end.

(** The delay after failure number [i], and the trace of [k] failed
    attempts, each followed by its sleep. *)
Definition delay (draw : nat -> Z) (i : nat) : Q :=
  next_retry_sleep i (draw i).

Fixpoint failed_attempts (draw : nat -> Z) (from k : nat) : list event :=
  match k with
  | O => []
  | S k' => Called :: Slept (delay draw from) :: failed_attempts draw (S from) k'
  end.

Definition draws_in_range (draw : nat -> Z) : Prop :=
  forall n, (0 <= draw n <= randint_hi)%Z.

(** The sum of the first [n] delays. *)
Definition slept_before (draw : nat -> Z) (n : nat) : Q :=
  Qsum (map (delay draw) (seq 0 n)).

(** The time that [fuel] further failed attempts are sure to use up. *)
Fixpoint budget (fuel : nat) : Q :=
  match fuel with
  | O => 0
  | S f => budget f + (1 # 4)
  end.

Section Runs.
Context {A : Type}.
Variable call : nat -> result A.
Variable draw : nat -> Z.

(** What holds of the loop state each time the [while] test is reached
    after [request_nb] failed attempts. *)
Record reached (st : state) : Prop := {
  r_failed : forall i, (i < request_nb st)%nat ->
             exists msg, call i = Raise (ConnectionError msg);
  r_trace : trace st = failed_attempts draw 0 (request_nb st);
  r_total : total_sleep_time st == slept_before draw (request_nb st);
  r_below : slept_before draw (pred (request_nb st)) <= max_sleep_time;
  r_last : match request_nb st with
           | O => last_exception st = None
           | S n => exists msg, last_exception st = Some (ConnectionError msg) /\
                                call n = Raise (ConnectionError msg)
           end
}.

(** How a run of the wrapper ends. *)
Inductive ending (st : state) : result A -> Prop :=
| returned a :
    call (request_nb st) = Ok a ->
    total_sleep_time st <= max_sleep_time ->
    trace st = failed_attempts draw 0 (request_nb st) ++ [Called] ->
    ending st (Ok a)
| propagated e :
    call (request_nb st) = Raise e ->
    is_ConnectionError e = false ->
    total_sleep_time st <= max_sleep_time ->
    trace st = failed_attempts draw 0 (request_nb st) ++ [Called] ->
    ending st (Raise e)
| gave_up n msg :
    request_nb st = S n ->
    call n = Raise (ConnectionError msg) ->
    max_sleep_time <= total_sleep_time st ->
    trace st = failed_attempts draw 0 (request_nb st) ->
    ending st (Raise (ConnectionError msg)).

Record finished (st : state) (res : result A) : Prop := {
  f_failed : forall i, (i < request_nb st)%nat ->
             exists msg, call i = Raise (ConnectionError msg);
  f_total : total_sleep_time st == slept_before draw (request_nb st);
  f_below : slept_before draw (pred (request_nb st)) <= max_sleep_time;
  f_ending : ending st res
}.

End Runs.

End Retry.

(* ===================================================================== *)
(** * [SwaggerAggregator]                                                  *)
(* ===================================================================== *)

Module Agg.
Import PyStr.

(** ** Dynamic operations on JSON values

    The program indexes, tests and updates whatever the upstream or the
    configuration handed it; these are Python's answers for each shape of
    value. *)

(** [k in j] for a string [k]. *)
Definition py_in (k : string) (j : json) : result bool :=
  match j with
  | JDict d => Ok (d_in k d)
  | JStr s => Ok (str_contains k s)
  | JList l =>
      Ok (existsb (fun x => match x with
                            | JStr s => String.eqb s k
                            | _ => false
                            end) l)
  | _ => Raise TypeError
  end.

(** [j[k]] for a string [k]. *)
Definition py_getitem (k : string) (j : json) : result json :=
  match j with
  | JDict d => d_getitem k d
  | _ => Raise TypeError
  end.

(** [j.items()] *)
Definition py_items (j : json) : result (dict json) :=
  match j with
  | JDict d => Ok d
  | _ => Raise AttributeError
  end.

(** [j[k] = v] *)
Definition py_setitem (k : string) (v : json) (j : json) : result json :=
  match j with
  | JDict d => Ok (JDict (d_set k v d))
  | _ => Raise TypeError
  end.

(** [del j[k]] *)
Definition py_delitem (k : string) (j : json) : result json :=
  match j with
  | JDict d => d' <- d_del k d ;; Ok (JDict d')
  | _ => Raise TypeError
  end.

Fixpoint mapM {A B : Type} (f : A -> result B) (l : list A) : result (list B) :=
  match l with
  | [] => Ok []
  | x :: l' => y <- f x ;; r <- mapM f l' ;; Ok (y :: r)
  end.

(** The key and the value [dict.update] reads from one element of a
    sequence: the element is iterated and has to give two items.  A
    sequence gives its elements, a string its characters, an object its
    keys; a number, a truth value and [null] are not iterable.  A key
    that is a sequence or an object is unhashable.  A key that is a
    number, a truth value or [null] would be a key that is not a string,
    which the objects of this development do not hold: the last answer
    stands for it. *)
Definition update_pair (x : json) : result (string * json) :=
  match x with
  | JList [k; v] =>
      match k with
      | JStr s => Ok (s, v)
      | JList _ | JDict _ => Raise TypeError
      | _ => Raise (OtherError "key that is not a string")
      end
  | JStr (String a (String b EmptyString)) =>
      Ok (String a EmptyString, JStr (String b EmptyString))
  | JDict [(k1, _); (k2, _)] => Ok (k1, JStr k2)
  | JList _ | JStr _ | JDict _ => Raise ValueError
  | _ => Raise TypeError
  end.

(** [j.update(other)]: [other] is an object, or it is iterated for pairs
    of a key and a value, which are set one after the other. *)
Definition py_update (j other : json) : result json :=
  match j with
  | JDict d =>
      match other with
      | JDict o => Ok (JDict (d_update d o))
      | JList l => pairs <- mapM update_pair l ;; Ok (JDict (d_update d pairs))
      | JStr EmptyString => Ok (JDict d)
      | JStr _ => Raise ValueError
      | _ => Raise TypeError
      end
  | _ => Raise AttributeError
  end.

(** [l.remove(x)]: the first element equal to [x] goes. *)
Fixpoint list_remove (k : string) (l : list json) : result (list json) :=
  match l with
  | [] => Raise ValueError
  | x :: l' =>
      match x with
      | JStr s => if String.eqb s k then Ok l'
                  else r <- list_remove k l' ;; Ok (x :: r)
      | _ => r <- list_remove k l' ;; Ok (x :: r)
      end
  end.

(** [j.remove(k)] *)
Definition py_remove (k : string) (j : json) : result json :=
  match j with
  | JList l => l' <- list_remove k l ;; Ok (JList l')
  | _ => Raise AttributeError
  end.

(** ** The configuration file

    [yaml_file] after [yaml.load], with the shape section 6 of the
    specification gives it; an absent key is [None]. *)
Record config : Type := mkConfig {
  cfg_args : option string;
  cfg_info : option json;
  cfg_basePath : option json;
  cfg_apis : option (dict string);
  cfg_exclude_paths : option (list string);
  cfg_exclude_fields : option (dict (list string))
}.

(** ** [get_args] *)

Fixpoint bind_args (names : list string) (swagger_args : list string)
         (args_dict : dict string) : result (dict string) :=
  match names with
  | [] => Ok args_dict
  | arg_name :: names' =>
      match swagger_args with
      | [] => Raise IndexError
      | a :: rest => bind_args names' rest (d_set arg_name a args_dict)
      end
  end.

Definition get_args (cfg : config) (swagger_args : list string)
  : result (dict string) :=
  match cfg_args cfg with
  | None => Ok []
  | Some a =>
      let args_name := map (fun i => str_replace i " " "") (split "," a) in
      bind_args args_name swagger_args []
  end.

(** ** [parse_value] *)

(** The loop [for key in self.args_dict.keys(): value = value.replace(...)]. *)
Definition replace_args (args_dict : dict string) (value : string) : string :=
  fold_left (fun value kv => str_replace value (fst kv) (snd kv)) args_dict value.

Definition parse_value (args_dict : dict string) (value : json) : json :=
  match value with
  | JStr s => JStr (replace_args args_dict s)
  | _ => value
  end.

(** ** [get_swagger_from_url] and [get_aggregate_swagger] *)

(** What the process does to the outside world while it fetches. *)
Inductive io : Type :=
| Get (url : string)
| Sleep (t : Q).

Record api_entry : Type := mkApi {
  api_spec : json;
  api_url : string
}.

Record registry : Type := mkRegistry {
  swagger_apis : dict api_entry;
  errors : list string;
  log : list io
}.

(** The network: the outcome of [requests.get(url).json()] when
    [n] requests have been made before. *)
Definition network := nat -> string -> result json.

(** The URL [get_swagger_from_url] asks for; [api_url] is a string, so
    [parse_value] takes its string branch. *)
Definition swagger_json_url (args_dict : dict string) (api_url : string) : string :=
  (replace_args args_dict api_url ++ "/swagger.json")%string.

Definition get_swagger_from_url (args_dict : dict string) (net : network)
           (api_url : string) (st : registry) : result json * registry :=
  let url := swagger_json_url args_dict api_url in
  (net (List.length (log st)) url,
   mkRegistry (swagger_apis st) (errors st) (log st ++ [Get url])).

(** [self.errors.remove(api_url)]: [None] stands for [ValueError]. *)
Fixpoint errors_remove (api_url : string) (errs : list string) : option (list string) :=
  match errs with
  | [] => None
  | e :: errs' =>
      if String.eqb e api_url then Some errs'
      else option_map (cons e) (errors_remove api_url errs')
  end.

(** The body of the [for] loop of [get_aggregate_swagger] for one entry
    of [apis].  The result is [Raise] only for an exception that none of
    the [except] clauses catches. *)
Definition fetch_api (args_dict : dict string) (net : network)
           (entry : string * string) (st : registry) : result unit * registry :=
  let (api_name, api_url) := entry in
  if d_in api_name (swagger_apis st) then (Ok tt, st)
  else
    let (r, st1) := get_swagger_from_url args_dict net api_url st in
    match r with
    | Ok spec =>
        let apis' := d_set api_name
                           (mkApi spec (replace_args args_dict api_url))
                           (swagger_apis st1) in
        match errors_remove api_url (errors st1) with
        | Some errs' => (Ok tt, mkRegistry apis' errs' (log st1))
        | None => (Ok tt, mkRegistry apis' (errors st1) (log st1))
        end
    | Raise (ConnectionError _) | Raise JSONDecodeError =>
        if existsb (String.eqb api_url) (errors st1)
        then (Ok tt, st1)
        else (Ok tt, mkRegistry (swagger_apis st1)
                                (errors st1 ++ [api_url]) (log st1))
    | Raise ValueError => (Ok tt, st1)
    | Raise e => (Raise e, st1)
    end.

Fixpoint fetch_apis (args_dict : dict string) (net : network)
         (apis : list (string * string)) (st : registry) : result unit * registry :=
  match apis with
  | [] => (Ok tt, st)
  | entry :: apis' =>
      match fetch_api args_dict net entry st with
      | (Ok _, st') => fetch_apis args_dict net apis' st'
      | (Raise e, st') => (Raise e, st')
      end
  end.

Definition get_aggregate_swagger (cfg : config) (args_dict : dict string)
           (net : network) (st : registry)
  : result (dict api_entry) * registry :=
  match cfg_apis cfg with
  | None => (Ok (swagger_apis st), st)
  | Some apis =>
      match fetch_apis args_dict net apis st with
      | (Ok _, st') => (Ok (swagger_apis st'), st')
      | (Raise e, st') => (Raise e, st')
      end
  end.

(** The entries of [apis] that have no cached specification in [st]. *)
Definition uncached (st : registry) (apis : list (string * string))
  : list (string * string) :=
  filter (fun entry => negb (d_in (fst entry) (swagger_apis st))) apis.

(** ** [exclude_paths] *)

(** [l[1]] *)
Definition second (l : list string) : result string :=
  match l with
  | _ :: x :: _ => Ok x
  | _ => Raise IndexError
  end.

(** The dictionary comprehension
    [{p.split(' ')[1]: [p.split(' ')[0].lower()] for p in ...}]. *)
Fixpoint path_exclude_of (rules : list string) (acc : dict (list string))
  : result (dict (list string)) :=
  match rules with
  | [] => Ok acc
  | p :: rules' =>
      path <- second (split " " p) ;;
      path_exclude_of rules'
        (d_set path [lower (hd EmptyString (split " " p))] acc)
  end.

Definition path_exclude (cfg : config) : result (dict (list string)) :=
  path_exclude_of (match cfg_exclude_paths cfg with
                   | Some rules => rules
                   | None => []
                   end) [].

(** The inner loop: [del swagger_filtered['paths'][path][action]] for
    every [action] of the original path item that is listed. *)
Fixpoint del_actions (methods : list string) (items : list (string * json))
         (filtered : json) : result json :=
  match items with
  | [] => Ok filtered
  | (action, _) :: items' =>
      if existsb (String.eqb action) methods
      then f' <- py_delitem action filtered ;; del_actions methods items' f'
      else del_actions methods items' filtered
  end.

(** The outer loop over [swagger['paths'].items()]; [filtered] is
    [swagger_filtered['paths']]. *)
Fixpoint exclude_loop (pe : dict (list string)) (paths : list (string * json))
         (filtered : json) : result json :=
  match paths with
  | [] => Ok filtered
  | (path, path_spec) :: paths' =>
      match d_get path pe with
      | Some methods =>
          items <- py_items path_spec ;;
          item <- py_getitem path filtered ;;
          item' <- del_actions methods items item ;;
          filtered' <- py_setitem path item' filtered ;;
          exclude_loop pe paths' filtered'
      | None => exclude_loop pe paths' filtered
      end
  end.

Definition exclude_paths (cfg : config) (swagger : json) : result json :=
  pe <- path_exclude cfg ;;
  paths <- py_getitem "paths" swagger ;;
  items <- py_items paths ;;
  filtered <- exclude_loop pe items paths ;;
  py_setitem "paths" filtered swagger.

(** ** [merge_aggregates] *)

Definition definitions_ref : string := "#/definitions/".

(** The rewrite of the references,
    [json.loads(json.dumps(spec).replace('#/definitions/',
    '#/definitions/' + api))], works on the serialised text.  There a
    string or a key of [spec] stands between quotes, with a backslash in
    front of what [json.dumps] escapes; the pattern has no quote and no
    backslash, so its occurrences in the text are its occurrences in the
    strings and keys of [spec].

    When [api] is [plain] (no quote, no backslash, no control
    character), the text after the replacement is the serialisation of
    [rename_refs api spec]: the replacement made in every string and
    key, keys that become equal merged as [json.loads] merges repeated
    keys, and [json.loads] gives this document back.  The same holds
    when the pattern occurs nowhere, the text being left as it is. *)
Definition renamed (api s : string) : string :=
  str_replace s definitions_ref (definitions_ref ++ api).

Fixpoint rename_refs (api : string) (j : json) : json :=
  match j with
  | JStr s => JStr (renamed api s)
  | JList l => JList (map (rename_refs api) l)
  | JDict d =>
      JDict (d_of_items
               (map (fun kv => match kv with
                               | (k, v) => (renamed api k, rename_refs api v)
                               end) d))
  | _ => j
  end.

(** A character that stands for itself between the quotes of a JSON
    string: not a control character, not the quote (34), not the
    backslash (92). *)
Definition plain_char (c : ascii) : bool :=
  let n := nat_of_ascii c in
  (32 <=? n)%nat && negb (n =? 34)%nat && negb (n =? 92)%nat.

Fixpoint plain (s : string) : bool :=
  match s with
  | EmptyString => true
  | String c s' => plain_char c && plain s'
  end.

(** [#/definitions/] occurs in a string or in a key of the document. *)
Fixpoint mentions_definitions (j : json) : bool :=
  match j with
  | JStr s => str_contains definitions_ref s
  | JList l => existsb mentions_definitions l
  | JDict d =>
      existsb (fun kv => match kv with
                         | (k, v) => str_contains definitions_ref k ||
                                     mentions_definitions v
                         end) d
  | _ => false
  end.

(** An upstream whose rewrite is [rename_refs]. *)
Definition rewritable (entry : string * api_entry) : bool :=
  plain (fst entry) || negb (mentions_definitions (api_spec (snd entry))).

(** The name a definition is stored under. *)
Definition stored_name (api definition_name : string) : string :=
  if startswith definition_name api then definition_name
  else (api ++ definition_name)%string.

(** [for definition_name, definition_spec in ...items(): swagger['definitions'][...] = ...] *)
Fixpoint store_definitions (api : string) (defs : list (string * json))
         (swagger : json) : result json :=
  match defs with
  | [] => Ok swagger
  | (definition_name, definition_spec) :: defs' =>
      target <- py_getitem "definitions" swagger ;;
      target' <- py_setitem (stored_name api definition_name) definition_spec target ;;
      swagger' <- py_setitem "definitions" target' swagger ;;
      store_definitions api defs' swagger'
  end.

Section Merge.
(** [reparse api spec]: what [json.loads] makes of the text when the
    pattern occurs in [spec] and [api], pasted behind each occurrence,
    holds a quote, a backslash or a control character: an error where
    the text is no JSON any more, or else the document with whatever
    escape or structure the characters of [api] spell in it.  The JSON
    syntax is not part of this development; the answer of the library
    is a parameter of the merge. *)
Variable reparse : string -> json -> result json.

Definition rewrite_refs (api : string) (spec : json) : result json :=
  if plain api || negb (mentions_definitions spec)
  then Ok (rename_refs api spec)
  else reparse api spec.

(** The body of the loop over [swagger_apis.items()]. *)
Definition merge_api (entry : string * api_entry) (swagger : json) : result json :=
  let (api, e) := entry in
  spec <- rewrite_refs api (api_spec e) ;;
  has_defs <- py_in "definitions" spec ;;
  swagger1 <-
    (if has_defs : bool
     then defs <- py_getitem "definitions" spec ;;
          items <- py_items defs ;;
          store_definitions api items swagger
     else Ok swagger) ;;
  has_paths <- py_in "paths" spec ;;
  if has_paths : bool
  then target <- py_getitem "paths" swagger1 ;;
       _ <- py_items target ;;
       paths <- py_getitem "paths" spec ;;
       target' <- py_update target paths ;;
       py_setitem "paths" target' swagger1
  else Ok swagger1.

Fixpoint merge_apis (apis : list (string * api_entry)) (swagger : json)
  : result json :=
  match apis with
  | [] => Ok swagger
  | entry :: apis' =>
      swagger' <- merge_api entry swagger ;;
      merge_apis apis' swagger'
  end.

(** [merge_aggregates]: fetch what is missing, then merge. *)
Definition merge_aggregates (cfg : config) (args_dict : dict string)
           (net : network) (st : registry) (swagger : json)
  : result json * registry :=
  match get_aggregate_swagger cfg args_dict net st with
  | (Ok apis, st') => (merge_apis apis swagger, st')
  | (Raise e, st') => (Raise e, st')
  end.

End Merge.

(** What an upstream hands to the merge: the entries of
    ['definitions'] and of ['paths'] in its specification after the
    rewrite of the references, in the order of iteration. *)
Definition member (k : string) (spec : json) : list (string * json) :=
  match spec with
  | JDict d =>
      match d_get k d with
      | Some (JDict items) => items
      | _ => []
      end
  | _ => []
  end.

Definition spec_definitions (api : string) (e : api_entry) : list (string * json) :=
  member "definitions" (rename_refs api (api_spec e)).

Definition spec_paths (api : string) (e : api_entry) : list (string * json) :=
  member "paths" (rename_refs api (api_spec e)).

(** The assignments [swagger['definitions'][...] = ...] of a whole merge,
    in the order the loops make them. *)
Definition contributions (apis : list (string * api_entry)) : list (string * json) :=
  flat_map (fun entry =>
              map (fun def => (stored_name (fst entry) (fst def), snd def))
                  (spec_definitions (fst entry) (snd entry))) apis.

Definition is_object (j : json) : bool :=
  match j with JDict _ => true | _ => false end.

(** A specification is an object whose ['definitions'] and ['paths'],
    when present, are objects. *)
Definition well_formed (spec : json) : bool :=
  match spec with
  | JDict d =>
      match d_get "definitions" d with Some j => is_object j | None => true end &&
      match d_get "paths" d with Some j => is_object j | None => true end
  | _ => false
  end.

Definition well_formed_api (entry : string * api_entry) : bool :=
  well_formed (rename_refs (fst entry) (api_spec (snd entry))).

(** ** The field exclusion of [generate_swagger_json] *)

(** The two [if]s for one [key] of a rule. *)
Definition exclude_field (key : string) (definition_spec : json) : result json :=
  required <- py_getitem "required" definition_spec ;;
  in_required <- py_in key required ;;
  spec1 <-
    (if in_required : bool
     then required' <- py_remove key required ;;
          py_setitem "required" required' definition_spec
     else Ok definition_spec) ;;
  properties <- py_getitem "properties" spec1 ;;
  in_properties <- py_in key properties ;;
  if in_properties : bool
  then properties' <- py_delitem key properties ;;
       py_setitem "properties" properties' spec1
  else Ok spec1.

Fixpoint exclude_fields_of (keys : list string) (definition_spec : json)
  : result json :=
  match keys with
  | [] => Ok definition_spec
  | key :: keys' =>
      spec' <- exclude_field key definition_spec ;;
      exclude_fields_of keys' spec'
  end.

(** What the loop below does with one definition. *)
Definition treated (exclude_fields : dict (list string))
           (definition : string * json) : result json :=
  match d_get (fst definition) exclude_fields with
  | Some keys => exclude_fields_of keys (snd definition)
  | None => Ok (snd definition)
  end.

(** The loop over [base_swagger['definitions'].items()]. *)
Fixpoint remove_exclude_fields (exclude_fields : dict (list string))
         (definitions : list (string * json)) : result (list (string * json)) :=
  match definitions with
  | [] => Ok []
  | (definition_name, definition_spec) :: rest =>
      spec' <- treated exclude_fields (definition_name, definition_spec) ;;
      rest' <- remove_exclude_fields exclude_fields rest ;;
      Ok ((definition_name, spec') :: rest')
  end.

(** [self.yaml_file.get('exclude_fields', {})] *)
Definition exclude_fields_of_config (cfg : config) : dict (list string) :=
  match cfg_exclude_fields cfg with
  | Some ef => ef
  | None => []
  end.

Definition exclude_fields_step (cfg : config) (base_swagger : json) : result json :=
  definitions <- py_getitem "definitions" base_swagger ;;
  items <- py_items definitions ;;
  items' <- remove_exclude_fields (exclude_fields_of_config cfg) items ;;
  py_setitem "definitions" (JDict items') base_swagger.

(** What the exclusion leaves of a [required] list and of a
    [properties] object: the first [key] is gone, if there was one. *)
Fixpoint remove_first (key : string) (l : list json) : list json :=
  match l with
  | [] => []
  | x :: l' =>
      match x with
      | JStr s => if String.eqb s key then l' else x :: remove_first key l'
      | _ => x :: remove_first key l'
      end
  end.

Fixpoint d_discard {V : Type} (key : string) (d : dict V) : dict V :=
  match d with
  | [] => []
  | (k, v) :: d' => if String.eqb key k then d' else (k, v) :: d_discard key d'
  end.

(** A definition the exclusion can work on: an object with a list under
    ['required'] and an object under ['properties']. *)
Definition excludable (definition_spec : json) : bool :=
  match definition_spec with
  | JDict d =>
      match d_get "required" d, d_get "properties" d with
      | Some (JList _), Some (JDict _) => true
      | _, _ => false
      end
  | _ => false
  end.

(** ** [filter_definition] *)

(** [for key in keys_to_remove: del doc[key]] *)
Fixpoint del_keys (keys : list string) (doc : dict json) : result (dict json) :=
  match keys with
  | [] => Ok doc
  | key :: keys' => doc' <- d_del key doc ;; del_keys keys' doc'
  end.

(** Recursion that may run out of [fuel]: [None]. *)
Fixpoint mapM_fuel {A B : Type} (f : A -> option (result B)) (l : list A)
  : option (result (list B)) :=
  match l with
  | [] => Some (Ok [])
  | x :: l' =>
      match f x with
      | None => None
      | Some (Raise e) => Some (Raise e)
      | Some (Ok y) =>
          match mapM_fuel f l' with
          | None => None
          | Some (Raise e) => Some (Raise e)
          | Some (Ok r) => Some (Ok (y :: r))
          end
      end
  end.

Fixpoint depth (j : json) : nat :=
  match j with
  | JList l => S (fold_right (fun x acc => Nat.max (depth x) acc) 0%nat l)
  | JDict d =>
      S (fold_right (fun kv acc => match kv with
                                   | (_, v) => Nat.max (depth v) acc
                                   end) 0%nat d)
  | _ => 0%nat
  end.


Section Filter.
Variable cfg : config.
(** [self.swagger_parser.get_dict_definition]: the name of a definition
    the object validates against, or [None]. *)
Variable get_dict_definition : json -> option string.

(** [self.yaml_file.get('exclude_fields', {}).get(doc_definition, [])] *)
Definition keys_to_remove (doc : json) : list string :=
  match cfg_exclude_fields cfg, get_dict_definition doc with
  | Some ef, Some doc_definition =>
      match d_get doc_definition ef with
      | Some keys => keys
      | None => []
      end
  | _, _ => []
  end.

Fixpoint filter_definition_fuel (fuel : nat) (doc : json) : option (result json) :=
  match fuel with
  | O => None
  | S fuel' =>
      match doc with
      | JDict d =>
          match del_keys (keys_to_remove doc) d with
          | Raise e => Some (Raise e)
          | Ok d1 =>
              match mapM_fuel (fun kv => match kv with
                                         | (k, v) =>
                                             match filter_definition_fuel fuel' v with
                                             | None => None
                                             | Some (Raise e) => Some (Raise e)
                                             | Some (Ok v') => Some (Ok (k, v'))
                                             end
                                         end) d1 with
              | None => None
              | Some (Raise e) => Some (Raise e)
              | Some (Ok d2) => Some (Ok (JDict d2))
              end
          end
      | JList l =>
          match mapM_fuel (filter_definition_fuel fuel') l with
          | None => None
          | Some (Raise e) => Some (Raise e)
          | Some (Ok l') => Some (Ok (JList l'))
          end
      | _ => Some (Ok doc)
      end
  end.

(** The runs the interpreter does not cut short: as many nested calls
    as the document is deep. *)
Definition filter_definition (doc : json) : option (result json) :=
  filter_definition_fuel (S (depth doc)) doc.


End Filter.

(** ** The generated handler [func] *)

Definition newline : ascii := "010"%char.

(** The one match [re.findall('{(.+)}', line)] can find in a line: [.+]
    is greedy and takes everything from the first opening brace to the
    last closing brace. *)
Definition brace_group (line : string) : option string :=
  match after_first "{" line with
  | Some r =>
      match before_last "}" r with
      | Some (String c g) => Some (String c g)
      | _ => None
      end
  | None => None
  end.

(** [re.findall(p, url)]: [.] stops at a newline, so each line is
    searched on its own. *)
Definition findall_braces (url : string) : list string :=
  flat_map (fun line => match brace_group line with
                        | Some g => [g]
                        | None => []
                        end) (split newline url).

(** The two nested loops; [kwargs] holds [str(v)] for every value. *)
Definition substitute_params (kwargs : dict string) (url : string) : string :=
  fold_left
    (fun url path_param =>
       fold_left (fun url kv =>
                    if String.eqb (fst kv) path_param
                    then str_replace url ("{" ++ fst kv ++ "}") (snd kv)
                    else url) kwargs url)
    (findall_braces url) url.

Definition build_url (uri path query_string : string) (kwargs : dict string)
  : string :=
  substitute_params kwargs (uri ++ path ++ "?" ++ query_string)%string.

(** The inbound headers are [flask.request.headers], read from the WSGI
    environment: one entry per header name. [hs] below are these
    entries, which are also the items of [dict(flask.request.headers)].

    [flask.request.headers.get(name, '')]: the header of that name,
    names compared without case. *)
Fixpoint headers_get (name : string) (hs : dict string) : string :=
  match hs with
  | [] => EmptyString
  | (k, v) :: hs' =>
      if String.eqb (lower k) (lower name) then v else headers_get name hs'
  end.

(** [{k: v for k, v in dict(flask.request.headers).items() if v}]: the
    entries with a value that is not empty. *)
Definition copied_headers (hs : dict string) : dict string :=
  filter (fun kv => negb (String.eqb (snd kv) EmptyString)) hs.

Definition is_multipart (hs : dict string) : bool :=
  startswith (headers_get "Content-Type" hs) "multipart/form-data".

(** The headers handed to [requests]. *)
Definition outbound_headers (hs : dict string) : result (dict string) :=
  let headers := copied_headers hs in
  if negb (is_multipart hs) then Ok headers
  else if d_in "Content-Length" headers
       then v <- d_getitem "Content-Length" headers ;;
            d_del "Content-Length" (d_set "X-Content-Length" v headers)
       else Ok headers.

(** The value of the inbound header [k], when it is not empty. *)
Definition forwarded (k : string) (hs : dict string) : option string :=
  match d_get k hs with
  | Some v => if String.eqb v EmptyString then None else Some v
  | None => None
  end.

Record outgoing : Type := mkOutgoing {
  o_method : string;
  o_url : string;
  o_headers : dict string;
  o_streamed : bool
}.

(** The request [func] sends: [requests_meth(url, data=..., headers=...)]. *)
Definition prepare_request (uri path action query_string : string)
           (hs : dict string) (kwargs : dict string)
  : result outgoing :=
  headers <- outbound_headers hs ;;
  Ok (mkOutgoing action (build_url uri path query_string kwargs) headers
                 (is_multipart hs)).

End Agg.

(* ===================================================================== *)
(** * The configuration of the test suite                                  *)
(* ===================================================================== *)

Module Fixture.
Import Agg.

(** [yaml_file] of [tests/test_swagger_aggregator.py]. *)
Definition yaml_file : config :=
  mkConfig
    (Some "identifications_url, ingestion_url")
    (Some (JDict [("version", JStr "0.1"); ("title", JStr "API Gateway")]))
    (Some (JStr "/v1"))
    (Some [("identifications", "http://identifications_url/v1");
           ("ingestion", "http://ingestion_url/v1")])
    (Some ["POST /identifications/{id}/history/";
           "GET /identifications/";
           "DELETE /ingestions/{id}/resources";
           "PUT /ingestions/{id}";
           "GET /ingestions";
           "PUT /identifications/{id}/source/audio_url"])
    (Some [("identificationsTest", ["id"]);
           ("identificationsSubTest", ["id"])]).

(** [SwaggerAggregator('config.yaml', 'trax', 'air').args_dict] *)
Definition args_dict : dict string :=
  [("identifications_url", "trax"); ("ingestion_url", "air")].


(** [base_swagger] as [generate_swagger_json] sets it up. *)
Definition base_swagger (cfg : config) : json :=
  JDict [("swagger", JStr "2.0");
         ("info", match cfg_info cfg with Some j => j | None => JNull end);
         ("basePath", match cfg_basePath cfg with Some j => j | None => JNull end);
         ("definitions", JDict []);
         ("paths", JDict [])].

(** The document of [test_exclude_paths]. *)
Definition swagger_with_history : json :=
  JDict [("paths",
          JDict [("/identifications/{id}/history/",
                  JDict [("get", JDict []); ("post", JDict [])]);
                 ("path", JDict [("get", JDict []); ("post", JDict [])])])].

(** A configuration that excludes both operations of one path. *)
Definition both_methods_excluded : config :=
  mkConfig None None None None
           (Some ["GET /identifications/{id}/history/";
                  "POST /identifications/{id}/history/"])
           None.

(** The schema resolution of [test_filter_definition]: the outer object
    is an [identificationsTest], the nested one an
    [identificationsSubTest]. *)
Definition resolve_test (doc : json) : option string :=
  match doc with
  | JDict d => if d_in "sub" d then Some "identificationsTest"
               else Some "identificationsSubTest"
  | _ => None
  end.

Definition doc_test : json :=
  JList [JDict [("id", JStr "123");
                ("test", JStr "456");
                ("sub", JDict [("id", JStr "789"); ("test", JStr "147")])]].

(** A rule without fields. *)
Definition empty_rule : config :=
  mkConfig None None None None None (Some [("identificationsTest", [])]).

End Fixture.

(* ===================================================================== *)
(** * [get_spec_from_uri] and [generate_swagger_json]                      *)
(* ===================================================================== *)

Module Gen.
Import PyStr Agg.

(** ** [get_spec_from_uri] *)

(** The inner loop over the paths of one upstream: [Some] is the
    [return]. *)
Fixpoint find_path (url action : string) (paths : list (string * json))
         (upstream_url : string) : result (option (json * string)) :=
  match paths with
  | [] => Ok None
  | (path_name, path_spec) :: paths' =>
      if String.eqb path_name url
      then operation <- py_getitem action path_spec ;;
           Ok (Some (operation, upstream_url))
      else find_path url action paths' upstream_url
  end.

(** The loop over [self.swagger_apis.items()]; [Ok None] is the function
    falling off its end. *)
Fixpoint get_spec_from_uri (swagger_apis : dict api_entry) (url action : string)
  : result (option (json * string)) :=
  match swagger_apis with
  | [] => Ok None
  | (_, e) :: apis' =>
      paths <- py_getitem "paths" (api_spec e) ;;
      items <- py_items paths ;;
      found <- find_path url action items (api_url e) ;;
      match found with
      | Some hit => Ok (Some hit)
      | None => get_spec_from_uri apis' url action
      end
  end.

(** ** The operation identifiers *)

(** The four dictionaries [spec], [uri], [path_list] and [action_list]
    that every generated handler shares and reads under its own name.
    The module attribute of that name is set in the same turn of the
    loop. *)
Record tables : Type := mkTables {
  t_spec : dict json;
  t_uri : dict string;
  t_path : dict string;
  t_action : dict string
}.

Definition no_tables : tables := mkTables [] [] [] [].

(** ['swagger_aggregator.{0}'.format(func_name)] *)
Definition operation_id (func_name : string) : string :=
  ("swagger_aggregator." ++ func_name)%string.

Section Identifiers.
Variable swagger_apis : dict api_entry.
(** [uuid n] is what the call number [n] of [uuid()] returns. *)
Variable uuid : nat -> string.

(** The loop over the operations of one path; [n] counts the calls of
    [uuid()] so far, [path_spec] is the path item being updated. *)
Fixpoint bind_actions (path : string) (actions : list (string * json))
         (n : nat) (tb : tables) (path_spec : json)
  : result (nat * tables * json) :=
  match actions with
  | [] => Ok (n, tb, path_spec)
  | (action, action_spec) :: actions' =>
      let func_name := uuid n in
      let path_list := d_set func_name path (t_path tb) in
      let action_list := d_set func_name action (t_action tb) in
      found <- get_spec_from_uri swagger_apis path action ;;
      match found with
      | None => Raise TypeError        (* unpacking [None] *)
      | Some (operation, upstream_url) =>
          action_spec' <- py_setitem "operationId"
                                     (JStr (operation_id func_name)) action_spec ;;
          path_spec' <- py_setitem action action_spec' path_spec ;;
          bind_actions path actions' (S n)
                       (mkTables (d_set func_name operation (t_spec tb))
                                 (d_set func_name upstream_url (t_uri tb))
                                 path_list action_list)
                       path_spec'
      end
  end.

(** The loop over [base_swagger['paths'].items()]. *)
Fixpoint bind_paths (items : list (string * json)) (n : nat) (tb : tables)
         (paths : json) : result (nat * tables * json) :=
  match items with
  | [] => Ok (n, tb, paths)
  | (path, path_spec) :: items' =>
      actions <- py_items path_spec ;;
      bound <- bind_actions path actions n tb path_spec ;;
      match bound with
      | (n', tb', path_spec') =>
          paths' <- py_setitem path path_spec' paths ;;
          bind_paths items' n' tb' paths'
      end
  end.

Definition assign_operation_ids (base_swagger : json) : result (tables * json) :=
  paths <- py_getitem "paths" base_swagger ;;
  items <- py_items paths ;;
  bound <- bind_paths items 0 no_tables paths ;;
  match bound with
  | (_, tb, paths') =>
      doc <- py_setitem "paths" paths' base_swagger ;;
      Ok (tb, doc)
  end.

End Identifiers.

(** ** [generate_swagger_json] *)

(** What the method leaves behind when it completes: the tables of the
    handlers, the document [SwaggerParser] was built from and the
    document written to [swagger.yaml]. *)
Record generated : Type := mkGenerated {
  g_tables : tables;
  g_parser : json;
  g_yaml : json
}.

Section Generate.
(** The answer of [json.loads] that the merge takes as a parameter. *)
Variable reparse : string -> json -> result json.
(** [SwaggerParser(swagger_dict=...)]: the constructor checks the
    document and raises when it is not a specification it accepts. *)
Variable swagger_parser : json -> result unit.
(** [open(.../swagger.yaml, 'w')] and [f.write(yaml.dump(...))]: raises
    when the file cannot be written. *)
Variable write_yaml : json -> result unit.

Definition generate_swagger_json (cfg : config) (args_dict : dict string)
           (net : network) (uuid : nat -> string) (st : registry)
  : result generated * registry :=
  match merge_aggregates reparse cfg args_dict net st (Fixture.base_swagger cfg) with
  | (Raise e, st') => (Raise e, st')
  | (Ok merged, st') =>
      (excluded <- exclude_paths cfg merged ;;
       bound <- assign_operation_ids (swagger_apis st') uuid excluded ;;
       match bound with
       | (tb, doc) =>
           _ <- swagger_parser doc ;;
           final <- exclude_fields_step cfg doc ;;
           _ <- write_yaml final ;;
           Ok (mkGenerated tb doc final)
       end,
       st')
  end.

End Generate.

(** ** What the properties below speak about *)

(** The path items an upstream hands to the merge, for all upstreams in
    order. *)
Definition path_contributions (apis : list (string * api_entry))
  : list (string * json) :=
  flat_map (fun entry => spec_paths (fst entry) (snd entry)) apis.

(** The operations of a path item that [methods] does not list. *)
Definition without_methods (methods : list string) (path_spec : dict json)
  : dict json :=
  filter (fun op => negb (existsb (String.eqb (fst op)) methods)) path_spec.

(** What [exclude_paths] leaves of one entry of ['paths']. *)
Definition excluded_item (pe : dict (list string)) (entry : string * json)
  : string * json :=
  match d_get (fst entry) pe, snd entry with
  | Some methods, JDict path_spec =>
      (fst entry, JDict (without_methods methods path_spec))
  | _, _ => entry
  end.

(** A ['paths'] object whose items are objects with pairwise different
    operation names. *)
Definition path_item_ok (entry : string * json) : Prop :=
  exists path_spec, snd entry = JDict path_spec /\ NoDup (d_keys path_spec).

(** A string without the character [c]. *)
Fixpoint lacks (c : ascii) (s : string) : bool :=
  match s with
  | EmptyString => true
  | String d s' => negb (Ascii.eqb d c) && lacks c s'
  end.

(** The rule ["METHOD /path"]. *)
Definition rule (method path : string) : string :=
  (method ++ " " ++ path)%string.

(** The placeholder names of a configuration: [args] cut at the commas,
    blanks removed. *)
Definition args_names (a : string) : list string :=
  map (fun i => str_replace i " " "") (split "," a).

(** The ['paths'] object of an upstream's own specification, as
    [get_spec_from_uri] reads it. *)
Definition raw_paths (e : api_entry) : option (dict json) :=
  match api_spec e with
  | JDict d =>
      match d_get "paths" d with
      | Some (JDict paths) => Some paths
      | _ => None
      end
  | _ => None
  end.

(** The upstream has a ['paths'] object and [url] is not one of its
    paths. *)
Definition lacks_path (url : string) (e : api_entry) : Prop :=
  exists paths, raw_paths e = Some paths /\ d_in url paths = false.

(** The operation with its identifier written in. *)
Definition set_operation_id (func_name : string) (action_spec : json) : json :=
  match action_spec with
  | JDict sp => JDict (d_set "operationId" (JStr (operation_id func_name)) sp)
  | _ => action_spec
  end.

(** The operations of a path item, stamped with the names [uuid n],
    [uuid (n + 1)], ... in the order of iteration. *)
Fixpoint stamp (uuid : nat -> string) (n : nat) (actions : list (string * json))
  : list (string * json) :=
  match actions with
  | [] => []
  | (action, action_spec) :: actions' =>
      (action, set_operation_id (uuid n) action_spec) :: stamp uuid (S n) actions'
  end.

(** The pairs of path and method of a ['paths'] object, in the order
    the two loops visit them. *)
Definition item_operations (entry : string * json) : list (string * string) :=
  match snd entry with
  | JDict actions => map (fun a => (fst entry, fst a)) actions
  | _ => []
  end.

Definition operations (paths : list (string * json)) : list (string * string) :=
  flat_map item_operations paths.

Fixpoint stamp_paths (uuid : nat -> string) (n : nat) (paths : list (string * json))
  : list (string * json) :=
  match paths with
  | [] => []
  | (path, item) :: paths' =>
      (path, match item with
             | JDict actions => JDict (stamp uuid n actions)
             | _ => item
             end)
      :: stamp_paths uuid (n + List.length (item_operations (path, item))) paths'
  end.

(** The tables after the operations [ops] were bound, one after the
    other, to the names [uuid n], [uuid (n + 1)], ... *)
Fixpoint record (swagger_apis : dict api_entry) (uuid : nat -> string) (n : nat)
         (ops : list (string * string)) (tb : tables) : tables :=
  match ops with
  | [] => tb
  | (path, action) :: ops' =>
      match get_spec_from_uri swagger_apis path action with
      | Ok (Some (operation, upstream_url)) =>
          record swagger_apis uuid (S n) ops'
                 (mkTables (d_set (uuid n) operation (t_spec tb))
                           (d_set (uuid n) upstream_url (t_uri tb))
                           (d_set (uuid n) path (t_path tb))
                           (d_set (uuid n) action (t_action tb)))
      | _ => tb
      end
  end.

(** Some upstream answers for the operation. *)
Definition answered (swagger_apis : dict api_entry) (op : string * string) : Prop :=
  exists operation upstream_url,
    get_spec_from_uri swagger_apis (fst op) (snd op) =
    Ok (Some (operation, upstream_url)).

(** A ['paths'] object the identifiers can be assigned to: paths that
    differ, items that are objects with operation names that differ, and
    every operation an object that some upstream answers for. *)
Definition bindable (swagger_apis : dict api_entry) (paths : dict json) : Prop :=
  NoDup (d_keys paths) /\
  forall path item,
    In (path, item) paths ->
    exists actions,
      item = JDict actions /\ NoDup (d_keys actions) /\
      forall action action_spec,
        In (action, action_spec) actions ->
        is_object action_spec = true /\
        exists operation upstream_url,
          get_spec_from_uri swagger_apis path action =
          Ok (Some (operation, upstream_url)).

(** An operation the loop cannot bind: it is not an object, or no
    upstream exposes its path. *)
Definition unbindable (swagger_apis : dict api_entry) (path action : string)
           (action_spec : json) : Prop :=
  is_object action_spec = false \/
  get_spec_from_uri swagger_apis path action = Ok None.

(** A network that refuses every connection. *)
Definition unreachable (net : network) : Prop :=
  forall n url, exists msg, net n url = Raise (ConnectionError msg).

(** A network that answers every request with a document, a refused
    connection or a body that is not JSON. *)
Definition tame (net : network) : Prop :=
  forall n url,
    match net n url with
    | Ok _ | Raise (ConnectionError _) | Raise JSONDecodeError => True
    | Raise _ => False
    end.

(** A cache with both upstreams of the test configuration: the first
    has an operation that the rules exclude and one that they leave, and
    a definition with a field that is to be excluded. *)
Definition cached_test : registry :=
  mkRegistry
    [("identifications",
      mkApi (JDict [("paths",
                     JDict [("/identifications/",
                             JDict [("get", JDict []); ("post", JDict [])])]);
                    ("definitions",
                     JDict [("Test",
                             JDict [("required", JList [JStr "id"; JStr "test"]);
                                    ("properties",
                                     JDict [("id", JDict [("type", JStr "string")]);
                                            ("test",
                                             JDict [("$ref",
                                                     JStr "#/definitions/Other")])])])])])
            "http://trax/v1");
     ("ingestion", mkApi (JDict []) "http://air/v1")]
    [] [].

(** What [generate_swagger_json] makes of [cached_test] when [uuid()]
    returns ["f0"]. *)
Definition published_test : generated :=
  let head :=
    [("swagger", JStr "2.0");
     ("info", JDict [("version", JStr "0.1"); ("title", JStr "API Gateway")]);
     ("basePath", JStr "/v1")] in
  let paths :=
    ("paths",
     JDict [("/identifications/",
             JDict [("post",
                     JDict [("operationId", JStr "swagger_aggregator.f0")])])]) in
  let other := ("test", JDict [("$ref", JStr "#/definitions/identificationsOther")]) in
  mkGenerated
    (mkTables [("f0", JDict [])] [("f0", "http://trax/v1")]
              [("f0", "/identifications/")] [("f0", "post")])
    (JDict (head ++
            [("definitions",
              JDict [("identificationsTest",
                      JDict [("required", JList [JStr "id"; JStr "test"]);
                             ("properties",
                              JDict [("id", JDict [("type", JStr "string")]);
                                     other])])]);
             paths]))
    (JDict (head ++
            [("definitions",
              JDict [("identificationsTest",
                      JDict [("required", JList [JStr "test"]);
                             ("properties", JDict [other])])]);
             paths])).

(** [c in s] for a character [c]. *)
Fixpoint occurs (c : ascii) (s : string) : bool :=
  match s with
  | EmptyString => false
  | String d s' => Ascii.eqb d c || occurs c s'
  end.

End Gen.

(* ===================================================================== *)
(** * The handler at work                                                  *)
(* ===================================================================== *)

Module Handler.
Import PyStr Agg Gen Retry.

(** What [requests] hands back, as [func] reads it: [req.json()],
    [req.text] and [req.status_code]. *)
Record response : Type := mkResponse {
  resp_json : result json;
  resp_text : string;
  resp_status : nat
}.

(** The first component of the pair [func] returns. *)
Inductive body : Type :=
| Document (doc : json)
| Text (text : string).

(** [flask.request] as [func] reads it. *)
Record inbound : Type := mkInbound {
  query_string : string;
  in_headers : dict string
}.

Section Func.
Variable cfg : config.
Variable get_dict_definition : json -> option string.
(** The four tables the closure holds, and [func.__name__]. *)
Variable tb : tables.
Variable func_name : string.
Variable request : inbound.
Variable kwargs : dict string.
(** [http n out]: what [requests_meth(url, data=..., headers=...)] does
    when it is called for the [n]-th time (from 0), [requests_meth]
    being [getattr(requests, action[func.__name__])]. *)
Variable http : nat -> outgoing -> result response.

(** The request [func] builds from the tables and the inbound request. *)
Definition sent : result outgoing :=
  uri <- d_getitem func_name (t_uri tb) ;;
  path <- d_getitem func_name (t_path tb) ;;
  action <- d_getitem func_name (t_action tb) ;;
  prepare_request uri path action (query_string request) (in_headers request)
                  kwargs.

(** [try: return (self.filter_definition(req.json()), req.status_code)
     except JSONDecodeError: return (req.text, req.status_code)].
    The answers are read within the interpreter's recursion limit,
    where [filter_definition] has the frames it needs and comes to an
    end: the last case is not reached. *)
Definition read_response (resp : response) : result (body * nat) :=
  let as_text := Ok (Text (resp_text resp), resp_status resp) in
  match resp_json resp with
  | Ok doc =>
      match filter_definition cfg get_dict_definition doc with
      | Some (Ok doc') => Ok (Document doc', resp_status resp)
      | Some (Raise JSONDecodeError) => as_text
      | Some (Raise e) => Raise e
      | None => Raise (OtherError "maximum recursion depth exceeded")
      end
  | Raise JSONDecodeError => as_text
  | Raise e => Raise e
  end.

(** One invocation of [func], the [n]-th of a run of the wrapper. *)
Definition func (n : nat) : result (body * nat) :=
  out <- sent ;;
  resp <- http n out ;;
  read_response resp.

(** [func] as [generate_operation_id_function] returns it, wrapped by
    [retry_http]. *)
Definition handler (draw : nat -> Z) : option (result (body * nat) * state) :=
  _retry_http func draw.

End Func.

(** An upstream that refuses the first [n] connections and answers
    [resp] from then on. *)
Definition flaky (n : nat) (resp : response) : nat -> outgoing -> result response :=
  fun i _ => if (i <? n)%nat then Raise (ConnectionError "Connection refused")
             else Ok resp.

(** [random.randint] drawing 0 every time: the shortest delays. *)
Definition no_jitter : nat -> Z := fun _ => 0%Z.

End Handler.

(* ===================================================================== *)
(** * Properties of [retry_http]                                           *)
(* ===================================================================== *)

Module RetryFacts.
Import Retry.

Lemma Qltb_lt (x y : Q) : Qltb x y = true <-> x < y.
Proof.
  unfold Qltb. rewrite negb_true_iff. split; intro H.
  - apply Qnot_le_lt. intro Hle. apply Qle_bool_iff in Hle. congruence.
  - destruct (Qle_bool y x) eqn:E; [|reflexivity].
    apply Qle_bool_iff in E. exfalso. apply (Qlt_not_le _ _ H E).
Qed.

Lemma Qltb_ge (x y : Q) : Qltb x y = false <-> y <= x.
Proof.
  unfold Qltb. rewrite negb_false_iff. apply Qle_bool_iff.
Qed.

Lemma Qpow_multiplier_ge_1 (n : nat) : 1 <= Qpow multiplier n.
Proof.
  induction n as [|n IH]; simpl.
  - lra.
  - assert (Hm : 1 <= multiplier) by (unfold multiplier, Qle; simpl; lia).
    setoid_replace 1 with (1 * 1) by ring.
    apply Qmult_le_compat_nonneg; split; lra.
Qed.

(** Every delay lasts at least a quarter of a second. *)
Lemma delay_ge_quarter (draw : nat -> Z) (i : nat) :
  draws_in_range draw -> 1 # 4 <= delay draw i.
Proof.
  intro Hd. unfold delay, next_retry_sleep.
  assert (Hr : 0 <= inject_Z (draw i)).
  { replace 0 with (inject_Z 0) by reflexivity.
    rewrite <- Zle_Qle. apply Hd. }
  assert (Hj : 1 # 4 <= retry_interval *
                         (inject_Z (draw i) / 1000 + 1 - randomization_factor)).
  { unfold retry_interval, randomization_factor.
    assert (0 <= inject_Z (draw i) / 1000).
    { apply Qle_shift_div_l; lra. }
    setoid_replace (5 # 10) with (1 # 2) by reflexivity. lra. }
  pose proof (Qpow_multiplier_ge_1 i) as Hp.
  setoid_replace (1 # 4) with (1 * (1 # 4)) by ring.
  apply Qmult_le_compat_nonneg; split; lra.
Qed.

Lemma Qsum_app (l1 l2 : list Q) : Qsum (l1 ++ l2) == Qsum l1 + Qsum l2.
Proof.
  induction l1 as [|x l1 IH]; simpl.
  - ring.
  - rewrite IH. ring.
Qed.


Lemma slept_before_S (draw : nat -> Z) (n : nat) :
  slept_before draw (S n) == slept_before draw n + delay draw n.
Proof.
  unfold slept_before. rewrite seq_S, map_app, Qsum_app. simpl. ring.
Qed.

Lemma slept_before_mono (draw : nat -> Z) (n m : nat) :
  draws_in_range draw -> (n <= m)%nat ->
  slept_before draw n <= slept_before draw m.
Proof.
  intros Hd Hle. induction Hle as [|m Hle IH].
  - lra.
  - rewrite slept_before_S. pose proof (delay_ge_quarter draw m Hd). lra.
Qed.

(** The exact delays lie on a grid: [3^i * (r + 500) / (2000 * 2^i)]. *)
Lemma Qpow_multiplier_grid (n : nat) :
  Qpow multiplier n * inject_Z (2 ^ Z.of_nat n) == inject_Z (3 ^ Z.of_nat n).
Proof.
  induction n as [|n IH].
  - reflexivity.
  - rewrite Nat2Z.inj_succ, !Z.pow_succ_r by lia. rewrite !inject_Z_mult.
    cbn [Qpow]. rewrite <- IH. unfold multiplier.
    change (inject_Z 2) with 2. change (inject_Z 3) with 3. field.
Qed.

Lemma delay_grid (draw : nat -> Z) (i : nat) :
  delay draw i * inject_Z (2000 * 2 ^ Z.of_nat i) ==
  inject_Z (3 ^ Z.of_nat i * (draw i + 500)).
Proof.
  unfold delay, next_retry_sleep, retry_interval, randomization_factor.
  rewrite !inject_Z_mult, inject_Z_plus, <- Qpow_multiplier_grid.
  change (inject_Z 2000) with 2000. change (inject_Z 500) with 500. field.
Qed.

(** A sum of [n] delays is a multiple of [1 / (2000 * 2^n)]. *)
Lemma slept_before_grid (draw : nat -> Z) (n : nat) :
  exists z : Z,
    slept_before draw n * inject_Z (2000 * 2 ^ Z.of_nat n) == inject_Z z.
Proof.
  induction n as [|n [z IH]].
  - exists 0%Z. reflexivity.
  - exists (2 * z + 2 * (3 ^ Z.of_nat n * (draw n + 500)))%Z.
    rewrite slept_before_S, Nat2Z.inj_succ, Z.pow_succ_r by lia.
    rewrite inject_Z_plus, !(inject_Z_mult 2), <- IH, <- delay_grid.
    rewrite !inject_Z_mult. change (inject_Z 2) with 2. ring.
Qed.

(** So a sum that is not exactly at the cap is at least one step of the
    grid away from it, which is far more than the rounding of the
    program's floating-point additions can bridge. *)
Lemma slept_before_off_the_cap (draw : nat -> Z) (n : nat) :
  let step := 1 / inject_Z (2000 * 2 ^ Z.of_nat n) in
  (slept_before draw n < max_sleep_time ->
   slept_before draw n <= max_sleep_time - step) /\
  (max_sleep_time < slept_before draw n ->
   max_sleep_time + step <= slept_before draw n).
Proof.
  cbv zeta. destruct (slept_before_grid draw n) as [z Hz].
  set (g := (2000 * 2 ^ Z.of_nat n)%Z) in *.
  assert (Hg : (0 < g)%Z) by (unfold g; lia).
  assert (Hgq : 0 < inject_Z g).
  { change 0 with (inject_Z 0). now rewrite <- Zlt_Qlt. }
  unfold max_sleep_time. split; intro H.
  - assert (Hz' : (z < 10 * g)%Z).
    { rewrite Zlt_Qlt, <- Hz, inject_Z_mult. change (inject_Z 10) with 10.
      apply Qmult_lt_r; assumption. }
    assert (Hle : inject_Z (z + 1) <= inject_Z (10 * g)).
    { rewrite <- Zle_Qle. lia. }
    rewrite inject_Z_plus, inject_Z_mult, <- Hz in Hle.
    change (inject_Z 1) with 1 in Hle. change (inject_Z 10) with 10 in Hle.
    apply (Qmult_le_r _ _ (inject_Z g) Hgq).
    setoid_replace ((10 - 1 / inject_Z g) * inject_Z g)
      with (10 * inject_Z g - 1) by (field; lra).
    lra.
  - assert (Hz' : (10 * g < z)%Z).
    { rewrite Zlt_Qlt, <- Hz, inject_Z_mult. change (inject_Z 10) with 10.
      apply Qmult_lt_r; assumption. }
    assert (Hle : inject_Z (10 * g + 1) <= inject_Z z).
    { rewrite <- Zle_Qle. lia. }
    rewrite inject_Z_plus, inject_Z_mult, <- Hz in Hle.
    change (inject_Z 1) with 1 in Hle. change (inject_Z 10) with 10 in Hle.
    apply (Qmult_le_r _ _ (inject_Z g) Hgq).
    setoid_replace ((10 + 1 / inject_Z g) * inject_Z g)
      with (10 * inject_Z g + 1) by (field; lra).
    lra.
Qed.

Lemma failed_attempts_snoc (draw : nat -> Z) (k from : nat) :
  failed_attempts draw from (S k) =
  failed_attempts draw from k ++ [Called; Slept (delay draw (from + k))].
Proof.
  revert from. induction k as [|k IH]; intro from.
  - simpl. now rewrite Nat.add_0_r.
  - change (failed_attempts draw from (S (S k)))
      with (Called :: Slept (delay draw from) :: failed_attempts draw (S from) (S k)).
    rewrite IH. simpl. now rewrite Nat.add_succ_r.
Qed.

Lemma sleeps_app (t1 t2 : list event) : sleeps (t1 ++ t2) = sleeps t1 ++ sleeps t2.
Proof.
  induction t1 as [|[|t] t1 IH]; simpl; congruence.
Qed.

Lemma calls_app (t1 t2 : list event) : calls (t1 ++ t2) = (calls t1 + calls t2)%nat.
Proof.
  induction t1 as [|[|t] t1 IH]; simpl; congruence.
Qed.

Lemma sleeps_failed_attempts (draw : nat -> Z) (k from : nat) :
  sleeps (failed_attempts draw from k) = map (delay draw) (seq from k).
Proof.
  revert from. induction k as [|k IH]; intro from; simpl; [reflexivity|].
  now rewrite IH.
Qed.

Lemma calls_failed_attempts (draw : nat -> Z) (k from : nat) :
  calls (failed_attempts draw from k) = k.
Proof.
  revert from. induction k as [|k IH]; intro from; simpl; [reflexivity|].
  now rewrite IH.
Qed.

Section Run.
Context {A : Type}.
Variable call : nat -> result A.
Variable draw : nat -> Z.
Hypothesis draw_ok : draws_in_range draw.



(** The test passes below the cap, fails above it, and is left to the
    floating-point sum at the cap. *)
Lemma below_cap_lt (st : state) :
  total_sleep_time st < max_sleep_time -> below_cap draw st = true.
Proof.
  intro H. unfold below_cap.
  destruct (Qeq_bool (total_sleep_time st) max_sleep_time) eqn:E.
  - apply Qeq_bool_iff in E. lra.
  - now apply Qltb_lt.
Qed.

Lemma below_cap_le (st : state) :
  below_cap draw st = true -> total_sleep_time st <= max_sleep_time.
Proof.
  unfold below_cap.
  destruct (Qeq_bool (total_sleep_time st) max_sleep_time) eqn:E; intro H.
  - apply Qeq_bool_iff in E. lra.
  - apply Qltb_lt in H. lra.
Qed.

Lemma below_cap_ge (st : state) :
  below_cap draw st = false -> max_sleep_time <= total_sleep_time st.
Proof.
  unfold below_cap.
  destruct (Qeq_bool (total_sleep_time st) max_sleep_time) eqn:E; intro H.
  - apply Qeq_bool_iff in E. lra.
  - now apply Qltb_ge.
Qed.

Lemma retry_loop_finishes (fuel : nat) :
  forall st,
    reached call draw st ->
    max_sleep_time - total_sleep_time st < budget fuel ->
    exists res st', retry_loop call draw (S fuel) st = Some (res, st') /\
                    finished call draw st' res.
Proof.
  induction fuel as [|fuel IH]; intros st R Hb.
  - (* the cap is passed *)
    simpl in Hb. assert (Hge : max_sleep_time <= total_sleep_time st) by lra.
    assert (Hg : below_cap draw st = false).
    { destruct (below_cap draw st) eqn:Hg; [|reflexivity].
      apply below_cap_le in Hg. lra. }
    cbn [retry_loop]. rewrite Hg.
    destruct R as [Rf Rt Rs Rb Rl].
    destruct (request_nb st) as [|n] eqn:En.
    + exfalso. unfold slept_before in Rs. simpl in Rs.
      unfold max_sleep_time in Hge. lra.
    + destruct Rl as [msg [Hl Hc]]. rewrite Hl.
      exists (Raise (ConnectionError msg)), st. split; [reflexivity|].
      constructor; rewrite ?En; auto.
      eapply gave_up; eauto. now rewrite En.
  - destruct (below_cap draw st) eqn:Hg.
    + pose proof (below_cap_le st Hg) as Hle.
      destruct R as [Rf Rt Rs Rb Rl].
      destruct (call (request_nb st)) as [a|e] eqn:Hc.
      * exists (Ok a), (mkState (request_nb st) (total_sleep_time st)
                               (last_exception st) (trace st ++ [Called])).
        split.
        { cbn [retry_loop]. rewrite Hg, Hc. reflexivity. }
        constructor; simpl; auto.
        eapply returned; simpl; eauto. now rewrite Rt.
      * destruct (is_ConnectionError e) eqn:He.
        { (* a transient failure: sleep and go round again *)
          destruct e; try discriminate.
          pose proof (delay_ge_quarter draw (request_nb st) draw_ok) as Hq.
          set (st1 := mkState (S (request_nb st))
                        (total_sleep_time st +
                         next_retry_sleep (request_nb st) (draw (request_nb st)))
                        (Some (ConnectionError msg))
                        ((trace st ++ [Called]) ++
                         [Slept (next_retry_sleep (request_nb st)
                                                  (draw (request_nb st)))])).
          destruct (IH st1) as [res [st' [Hrun Hfin]]].
          - constructor; cbn [trace request_nb total_sleep_time last_exception st1 pred].
            + intros i Hi. apply Nat.lt_succ_r in Hi.
              destruct (Nat.eq_dec i (request_nb st)) as [->|Hne].
              * eauto.
              * apply Rf. lia.
            + cbn [trace request_nb]. rewrite failed_attempts_snoc, Rt, <- app_assoc. reflexivity.
            + rewrite slept_before_S, Rs. reflexivity.
            + rewrite <- Rs. exact Hle.
            + eauto.
          - simpl. fold (delay draw (request_nb st)).
            simpl in Hb. lra.
          - exists res, st'. split; [|exact Hfin].
            cbn [retry_loop]. rewrite Hg, Hc.
            cbn [is_ConnectionError]. exact Hrun. }
        { exists (Raise e), (mkState (request_nb st) (total_sleep_time st)
                                    (last_exception st) (trace st ++ [Called])).
          split.
          { cbn [retry_loop]. rewrite Hg, Hc, He. reflexivity. }
          constructor; simpl; auto.
          eapply propagated; simpl; eauto. now rewrite Rt. }
    + (* the cap is reached *)
      pose proof (below_cap_ge st Hg) as Hge.
      destruct R as [Rf Rt Rs Rb Rl].
      destruct (request_nb st) as [|n] eqn:En.
      * exfalso. unfold slept_before in Rs. simpl in Rs.
        unfold max_sleep_time in Hge. lra.
      * destruct Rl as [msg [Hl Hc]].
        exists (Raise (ConnectionError msg)), st. split.
        { cbn [retry_loop]. rewrite Hg, Hl. reflexivity. }
        constructor; rewrite ?En; auto.
        eapply gave_up; eauto. now rewrite En.
Qed.

Lemma reached_init : reached call draw init.
Proof.
  constructor; simpl.
  - intros i Hi. lia.
  - reflexivity.
  - reflexivity.
  - unfold slept_before, max_sleep_time. simpl. lra.
  - reflexivity.
Qed.

(** The wrapper always finishes, in one of the three ways of [ending]. *)
Lemma retry_http_finishes :
  exists res st, _retry_http call draw = Some (res, st) /\ finished call draw st res.
Proof.
  unfold _retry_http, enough_fuel.
  apply retry_loop_finishes.
  - exact reached_init.
  - unfold max_sleep_time. simpl. lra.
Qed.

End Run.

(** A call that fails with [ConnectionError] [n] times and then ends
    otherwise, before ten seconds are slept: the wrapper ends as that
    call does, after [n + 1] calls. *)
Lemma retry_http_after_refusals {A} (call : nat -> result A) (draw : nat -> Z)
      (n : nat) :
  draws_in_range draw ->
  (forall i, (i < n)%nat -> exists msg, call i = Raise (ConnectionError msg)) ->
  match call n with
  | Ok _ => True
  | Raise e => is_ConnectionError e = false
  end ->
  slept_before draw n < max_sleep_time ->
  exists st,
    _retry_http call draw = Some (call n, st) /\
    trace st = failed_attempts draw 0 n ++ [Called].
Proof.
  intros Hd Href Hn Hs.
  destruct (retry_http_finishes call draw Hd) as [res [st [Hrun [Hf Ht Hb He]]]].
  assert (Hle : (request_nb st <= n)%nat).
  { destruct (le_lt_dec (request_nb st) n) as [|Hlt]; [assumption|].
    destruct (Hf n Hlt) as [msg Hm]. rewrite Hm in Hn. discriminate. }
  assert (Hnb : request_nb st = n /\ res = call n).
  { destruct He as [a Hc Hlt Htr|e Hc He Hlt Htr|m msg Hm Hc Hge Htr].
    - destruct (Nat.eq_dec (request_nb st) n) as [E|NE].
      + split; [exact E|]. now rewrite <- E, Hc.
      + destruct (Href (request_nb st)) as [msg Hm]; [lia|congruence].
    - destruct (Nat.eq_dec (request_nb st) n) as [E|NE].
      + split; [exact E|]. now rewrite <- E, Hc.
      + destruct (Href (request_nb st)) as [msg Hm]; [lia|].
        rewrite Hm in Hc. inversion Hc; subst e. discriminate.
    - exfalso.
      pose proof (slept_before_mono draw (request_nb st) n Hd Hle) as Hmono.
      lra. }
  destruct Hnb as [Hnb ->]. exists st. split; [exact Hrun|].
  destruct He as [a Hc Hlt Htr|e Hc He Hlt Htr|m msg Hm Hc Hge Htr].
  - now rewrite Htr, Hnb.
  - now rewrite Htr, Hnb.
  - exfalso.
    pose proof (slept_before_mono draw (request_nb st) n Hd Hle) as Hmono.
    lra.
Qed.



Lemma ending_sleeps {A} (call : nat -> result A) draw st res :
  ending call draw st res ->
  sleeps (trace st) = map (delay draw) (seq 0 (request_nb st)).
Proof.
  intros [a _ _ Ht|e _ _ _ Ht|n msg _ _ _ Ht]; rewrite Ht;
    rewrite ?sleeps_app, sleeps_failed_attempts; simpl;
    rewrite ?app_nil_r; reflexivity.
Qed.

Lemma ending_calls {A} (call : nat -> result A) draw st res :
  ending call draw st res ->
  forall i, (S i < calls (trace st))%nat -> (i < request_nb st)%nat.
Proof.
  intros [a _ _ Ht|e _ _ _ Ht|n msg _ _ _ Ht] i; rewrite Ht;
    rewrite ?calls_app, calls_failed_attempts; simpl; lia.
Qed.

End RetryFacts.

(* ===================================================================== *)
(** * The retry wrapper: results                                           *)
(* ===================================================================== *)

Import Retry RetryFacts.




(** Rounding at the cap.  With the draws 942, 880, 561, 237, 414 and
    420 the six delays sum up to 10 exactly, while the sum the program
    has added up in floating point is 9.9999999999999982: the test
    passes and the action is called a seventh time. *)
Lemma retry_http_rounding_at_the_cap :
  let draw := fun n => nth n [942; 880; 561; 237; 414; 420]%Z 0%Z in
  slept_before draw 6 == max_sleep_time /\
  Binary64.below_cap draw 6 = true /\
  exists st,
    _retry_http (A := Z) (fun n => if (n <? 6)%nat
                                   then Raise (ConnectionError "refused")
                                   else Ok 200%Z) draw
    = Some (Ok 200%Z, st) /\
    calls (trace st) = 7%nat.
Proof.
  cbv zeta. split; [reflexivity|]. split; [reflexivity|].
  eexists. split; [vm_compute; reflexivity|reflexivity].
Qed.

(** C2.  The wrapper retries after connection errors only: in every run,
    each call that was followed by another one had raised a
    [ConnectionError]; and when, after [k] connection errors whose delays
    stay under the cap, the action raises any other exception, that
    exception leaves the wrapper at once: the trace ends with that call,
    no sleep and no further call follows it. *)
Theorem retry_http_other_errors_propagate :
  forall (A : Type) (call : nat -> result A) (draw : nat -> Z),
    draws_in_range draw ->
    exists res st,
      _retry_http call draw = Some (res, st) /\
      (forall i, (S i < calls (trace st))%nat ->
                 exists msg, call i = Raise (ConnectionError msg)) /\
      (forall k e,
          (forall i, (i < k)%nat -> exists msg, call i = Raise (ConnectionError msg)) ->
          call k = Raise e ->
          is_ConnectionError e = false ->
          slept_before draw k < max_sleep_time ->
          res = Raise e /\
          trace st = failed_attempts draw 0 k ++ [Called] /\
          calls (trace st) = S k /\
          sleeps (trace st) = map (delay draw) (seq 0 k)).
Proof.
  intros A call draw Hd.
  destruct (retry_http_finishes call draw Hd) as [res [st [Hrun [Hf Ht Hb He]]]].
  exists res, st. split; [exact Hrun|]. split.
  - intros i Hi. apply Hf. eapply ending_calls; eauto.
  - intros k e Hk Hc Hne Hlt.
    assert (Hn : request_nb st = k).
    { destruct (Nat.lt_trichotomy (request_nb st) k) as [Hlt'|[Heq|Hgt]].
      - exfalso. destruct (Hk _ Hlt') as [msg Hm].
        destruct He as [a Hc' _ _|e' Hc' Hne' _ _|n msg' Hn' Hc' Hge _].
        + congruence.
        + rewrite Hm in Hc'. inversion Hc'. subst e'. discriminate.
        + pose proof (slept_before_mono draw (request_nb st) k Hd
                        (Nat.lt_le_incl _ _ Hlt')).
          rewrite Ht in Hge. lra.
      - exact Heq.
      - exfalso. destruct (Hf _ Hgt) as [msg Hm].
        rewrite Hm in Hc. inversion Hc. subst e. discriminate. }
    destruct He as [a Hc' _ Htr|e' Hc' Hne' _ Htr|n msg' Hn' Hc' Hge Htr].
    + rewrite Hn in Hc'. congruence.
    + rewrite Hn in Hc', Htr. rewrite Hc in Hc'. inversion Hc'. subst e'.
      rewrite Htr, calls_app, sleeps_app, calls_failed_attempts,
        sleeps_failed_attempts. simpl. rewrite app_nil_r.
      repeat split. lia.
    + exfalso. rewrite Ht, Hn in Hge. lra.
Qed.

Lemma retry_http_other_errors_propagate_witness :
  exists res st,
    _retry_http (A := unit)
                (fun n => match n with
                          | O => Raise (ConnectionError "refused")
                          | S _ => Raise (KeyError "id")
                          end)
                (fun _ => 0%Z) = Some (res, st) /\
    res = Raise (KeyError "id") /\
    trace st = [Called; Slept (delay (fun _ => 0%Z) 0); Called].
Proof.
  destruct (retry_http_other_errors_propagate unit
              (fun n => match n with
                        | O => Raise (ConnectionError "refused")
                        | S _ => Raise (KeyError "id")
                        end)
              (fun _ => 0%Z))
    as [res [st [Hrun [_ Hk]]]].
  - intro n. unfold randint_hi. lia.
  - exists res, st. split; [exact Hrun|].
    destruct (Hk 1%nat (KeyError "id")) as [Hres [Htr _]].
    + intros i Hi. exists "refused". destruct i; [reflexivity|lia].
    + reflexivity.
    + reflexivity.
    + reflexivity.
    + split; [exact Hres|exact Htr].
Defined.


(* ===================================================================== *)
(** * Strings                                                              *)
(* ===================================================================== *)

Module PyStrFacts.
Import PyStr.

Lemma append_nil_r (s : string) : (s ++ "")%string = s.
Proof.
  induction s as [|c s IH]; simpl; congruence.
Qed.

Lemma append_assoc (a b c : string) :
  ((a ++ b) ++ c)%string = (a ++ (b ++ c))%string.
Proof.
  induction a as [|x a IH]; simpl; congruence.
Qed.

Lemma length_append (a b : string) :
  String.length (a ++ b) = (String.length a + String.length b)%nat.
Proof.
  induction a as [|x a IH]; simpl; congruence.
Qed.

Lemma prefix_append (k b : string) : prefix k (k ++ b) = true.
Proof.
  induction k as [|c k IH]; simpl.
  - now destruct b.
  - destruct (ascii_dec c c); [exact IH|congruence].
Qed.

Lemma prefix_nil (s : string) : prefix "" s = true.
Proof.
  now destruct s.
Qed.

(** A prefix is a decomposition. *)
Lemma prefix_inv (k s : string) :
  prefix k s = true -> exists b, s = (k ++ b)%string.
Proof.
  revert s. induction k as [|c k IH]; intros s H.
  - exists s. reflexivity.
  - destruct s as [|d s]; simpl in H; [discriminate|].
    destruct (ascii_dec c d) as [->|]; [|discriminate].
    destruct (IH _ H) as [b ->]. exists b. reflexivity.
Qed.

(** Passing over the rest of a replaced occurrence. *)
Lemma replace_scan_skip (old new x b : string) :
  replace_scan old new (x ++ b) (String.length x) = replace_scan old new b 0.
Proof.
  induction x as [|c x IH]; simpl.
  - reflexivity.
  - exact IH.
Qed.

(** An occurrence at the head is replaced, and the scan goes on behind it. *)
Lemma replace_scan_head (c : ascii) (k new b : string) :
  replace_scan (String c k) new (String c k ++ b) 0 =
  (new ++ replace_scan (String c k) new b 0)%string.
Proof.
  change (String c k ++ b)%string with (String c (k ++ b)).
  cbn [replace_scan].
  change (String c (k ++ b)) with (String c k ++ b)%string.
  rewrite prefix_append.
  replace (String.length (String c k) - 1)%nat with (String.length k)
    by (simpl; lia).
  now rewrite replace_scan_skip.
Qed.

(** A character at which no occurrence starts is kept. *)
Lemma replace_scan_keep (old new : string) (c : ascii) (s : string) :
  prefix old (String c s) = false ->
  replace_scan old new (String c s) 0 = String c (replace_scan old new s 0).
Proof.
  intro H. cbn [replace_scan]. now rewrite H.
Qed.

Lemma str_contains_prefix (k s : string) :
  str_contains k s = false -> prefix k s = false.
Proof.
  destruct s; simpl; intro H; apply orb_false_iff in H; tauto.
Qed.

Lemma replace_scan_absent (old new s : string) :
  str_contains old s = false -> replace_scan old new s 0 = s.
Proof.
  induction s as [|c s IH]; intro H.
  - reflexivity.
  - pose proof (str_contains_prefix _ _ H) as Hp.
    rewrite replace_scan_keep by exact Hp.
    simpl in H. apply orb_false_iff in H. f_equal. apply IH. tauto.
Qed.

Lemma replace_scan_first (c : ascii) (k new a b : string) :
  first_at (String c k) a b = true ->
  replace_scan (String c k) new (a ++ String c k ++ b) 0 =
  (a ++ new ++ replace_scan (String c k) new b 0)%string.
Proof.
  induction a as [|x a IH]; intro H.
  - simpl append at 1. apply replace_scan_head.
  - cbn [first_at] in H. apply andb_true_iff in H. destruct H as [Hp Ha].
    apply negb_true_iff in Hp.
    change (String x a ++ String c k ++ b)%string
      with (String x (a ++ String c k ++ b)) in *.
    rewrite replace_scan_keep by exact Hp.
    simpl. f_equal. now apply IH.
Qed.

Lemma str_replace_first (old new a b : string) :
  old <> "" ->
  first_at old a b = true ->
  str_replace (a ++ old ++ b) old new = (a ++ new ++ str_replace b old new)%string.
Proof.
  intros Hne H. destruct old as [|c k]; [congruence|].
  unfold str_replace. now apply replace_scan_first.
Qed.

Lemma str_replace_absent (old new s : string) :
  str_contains old s = false -> str_replace s old new = s.
Proof.
  intro H. destruct old as [|c k].
  - destruct s; discriminate.
  - unfold str_replace. now apply replace_scan_absent.
Qed.



(** A string that contains [k] shows a first occurrence of it. *)
Lemma str_contains_first (k s : string) :
  str_contains k s = true ->
  exists a b, s = (a ++ k ++ b)%string /\ first_at k a b = true.
Proof.
  induction s as [|c s IH]; intro H.
  - cbn [str_contains] in H. rewrite orb_false_r in H.
    destruct (prefix_inv _ _ H) as [b Hb].
    exists "", b. now split.
  - destruct (prefix k (String c s)) eqn:Hp.
    + destruct (prefix_inv _ _ Hp) as [b Hb].
      exists "", b. now split.
    + cbn [str_contains] in H. rewrite Hp in H. simpl in H.
      destruct (IH H) as [a [b [Hs Hf]]].
      exists (String c a), b. split.
      * simpl. now rewrite Hs.
      * cbn [first_at]. rewrite Hf, andb_true_r.
        change (String c a ++ k ++ b)%string with (String c (a ++ k ++ b)).
        now rewrite <- Hs, Hp.
Qed.


End PyStrFacts.

(* ===================================================================== *)
(** * Dictionaries                                                         *)
(* ===================================================================== *)

Module DictFacts.

Section Facts.
Context {V : Type}.
Implicit Types (d o : dict V) (k : string) (v : V).

Lemma d_in_get k d :
  d_in k d = match d_get k d with Some _ => true | None => false end.
Proof.
  induction d as [|[k' v'] d IH]; simpl; [reflexivity|].
  destruct (String.eqb k k'); simpl; auto.
Qed.

Lemma d_in_keys k d : d_in k d = true <-> In k (d_keys d).
Proof.
  induction d as [|[k' v'] d IH]; simpl.
  - split; [discriminate|tauto].
  - rewrite orb_true_iff, IH, String.eqb_eq. intuition congruence.
Qed.

Lemma d_get_In k v d : d_get k d = Some v -> In (k, v) d.
Proof.
  induction d as [|[k' v'] d IH]; simpl; [discriminate|].
  destruct (String.eqb_spec k k') as [->|Hne]; intro H.
  - left. congruence.
  - right. auto.
Qed.

Lemma In_d_get k v d : NoDup (d_keys d) -> In (k, v) d -> d_get k d = Some v.
Proof.
  induction d as [|[k' v'] d IH]; simpl; intros Hnd Hin; [tauto|].
  inversion Hnd as [|? ? Hni Hnd']; subst.
  destruct Hin as [Heq|Hin].
  - inversion Heq; subst. now rewrite String.eqb_refl.
  - destruct (String.eqb_spec k k') as [->|Hne]; [|auto].
    exfalso. apply Hni. change (In k' (map fst d)).
    apply in_map_iff. exists (k', v). auto.
Qed.

Lemma d_get_set_eq k v d : d_get k (d_set k v d) = Some v.
Proof.
  induction d as [|[k' v'] d IH]; simpl.
  - now rewrite String.eqb_refl.
  - destruct (String.eqb_spec k k') as [->|Hne]; simpl.
    + now rewrite String.eqb_refl.
    + apply String.eqb_neq in Hne. now rewrite Hne.
Qed.

Lemma d_get_set_ne k k' v d : k <> k' -> d_get k (d_set k' v d) = d_get k d.
Proof.
  intro Hne. induction d as [|[k2 v2] d IH]; simpl.
  - apply String.eqb_neq in Hne. now rewrite Hne.
  - destruct (String.eqb_spec k' k2) as [->|Hne2]; simpl.
    + apply String.eqb_neq in Hne. now rewrite Hne.
    + destruct (String.eqb k k2); auto.
Qed.

Lemma d_get_set k k' v d :
  d_get k (d_set k' v d) = if String.eqb k k' then Some v else d_get k d.
Proof.
  destruct (String.eqb_spec k k') as [->|Hne].
  - apply d_get_set_eq.
  - now apply d_get_set_ne.
Qed.

Lemma d_in_set k k' v d : d_in k (d_set k' v d) = String.eqb k k' || d_in k d.
Proof.
  rewrite !d_in_get, d_get_set. now destruct (String.eqb k k').
Qed.

Lemma d_keys_set k v d :
  d_keys (d_set k v d) = if d_in k d then d_keys d else d_keys d ++ [k].
Proof.
  induction d as [|[k' v'] d IH]; simpl; [reflexivity|].
  destruct (String.eqb k k'); simpl; [reflexivity|].
  rewrite IH. now destruct (d_in k d).
Qed.

Lemma NoDup_set k v d : NoDup (d_keys d) -> NoDup (d_keys (d_set k v d)).
Proof.
  intro H. rewrite d_keys_set. destruct (d_in k d) eqn:E; [exact H|].
  apply NoDup_app; [exact H|repeat constructor; simpl; tauto|].
  intros x Hx [<-|[]]. apply d_in_keys in Hx. congruence.
Qed.

Lemma NoDup_update d o : NoDup (d_keys d) -> NoDup (d_keys (d_update d o)).
Proof.
  unfold d_update. revert d. induction o as [|[k v] o IH]; intros d H; simpl.
  - exact H.
  - apply IH. now apply NoDup_set.
Qed.

Lemma NoDup_of_items (l : list (string * V)) : NoDup (d_keys (d_of_items l)).
Proof.
  apply NoDup_update. constructor.
Qed.

Lemma d_get_snoc k k' v' d :
  d_get k (d ++ [(k', v')]) =
  match d_get k d with
  | Some v => Some v
  | None => if String.eqb k k' then Some v' else None
  end.
Proof.
  induction d as [|[k2 v2] d IH]; simpl; [reflexivity|].
  destruct (String.eqb k k2); auto.
Qed.

(** After [d.update(o)] a key holds what the last pair of [o] for it
    says, and otherwise what [d] had. *)
Lemma d_get_update k d o :
  d_get k (d_update d o) =
  match d_get k (rev o) with
  | Some v => Some v
  | None => d_get k d
  end.
Proof.
  unfold d_update. revert d. induction o as [|[k' v'] o IH]; intro d; simpl.
  - reflexivity.
  - rewrite IH.
    rewrite d_get_snoc. destruct (d_get k (rev o)); [reflexivity|].
    rewrite d_get_set. now destruct (String.eqb k k').
Qed.


(** A dictionary is what [dict(d.items())] builds from it. *)
Lemma d_update_app d l :
  NoDup (d_keys d ++ map fst l) -> d_update d l = d ++ l.
Proof.
  unfold d_update. revert d. induction l as [|[k v] l IH]; intros d H; simpl.
  - now rewrite app_nil_r.
  - assert (Hni : d_in k d = false).
    { destruct (d_in k d) eqn:E; [|reflexivity].
      apply d_in_keys in E. exfalso.
      apply NoDup_remove_2 in H. apply H. apply in_or_app. now left. }
    assert (Hset : d_set k v d = d ++ [(k, v)]).
    { clear -Hni. induction d as [|[k' v'] d IH]; simpl in *; [reflexivity|].
      apply orb_false_iff in Hni. destruct Hni as [-> Hni]. now rewrite IH. }
    rewrite Hset, IH, <- app_assoc; [reflexivity|].
    unfold d_keys in *. rewrite map_app, <- app_assoc. exact H.
Qed.

Lemma d_of_items_id d : NoDup (d_keys d) -> d_of_items d = d.
Proof.
  intro H. unfold d_of_items. now rewrite d_update_app.
Qed.

Lemma d_get_filter (P : string * V -> bool) k d :
  NoDup (d_keys d) ->
  d_get k (filter P d) =
  match d_get k d with
  | Some v => if P (k, v) then Some v else None
  | None => None
  end.
Proof.
  induction d as [|[k' v'] d IH]; simpl; intro H; [reflexivity|].
  inversion H as [|? ? Hni Hnd]; subst.
  destruct (String.eqb_spec k k') as [->|Hne].
  - destruct (P (k', v')) eqn:HP; simpl.
    + now rewrite String.eqb_refl.
    + rewrite (IH Hnd).
      destruct (d_get k' d) eqn:E; [|reflexivity].
      exfalso. apply Hni. apply d_in_keys. now rewrite d_in_get, E.
  - destruct (P (k', v')); simpl; [|auto].
    apply String.eqb_neq in Hne. rewrite Hne. auto.
Qed.

Lemma NoDup_filter (P : string * V -> bool) d :
  NoDup (d_keys d) -> NoDup (d_keys (filter P d)).
Proof.
  induction d as [|[k' v'] d IH]; simpl; intro H; [constructor|].
  inversion H as [|? ? Hni Hnd]; subst.
  destruct (P (k', v')); simpl; [|auto].
  constructor; [|auto].
  intro Hin. apply Hni. unfold d_keys in *.
  apply in_map_iff in Hin. destruct Hin as [x [Hx Hin]].
  apply filter_In in Hin. apply in_map_iff. exists x. tauto.
Qed.

(** [del d[k]] succeeds exactly when [k] is a key. *)
Lemma d_del_in k d : d_in k d = true -> exists d', d_del k d = Ok d'.
Proof.
  induction d as [|[k' v'] d IH]; simpl; [discriminate|].
  destruct (String.eqb k k'); simpl; intro H.
  - eauto.
  - destruct (IH H) as [d' ->]. simpl. eauto.
Qed.

Lemma d_del_absent k d : d_in k d = false -> d_del k d = Raise (KeyError k).
Proof.
  induction d as [|[k' v'] d IH]; simpl; [reflexivity|].
  destruct (String.eqb k k'); simpl; [discriminate|].
  intro H. now rewrite IH.
Qed.

Lemma d_get_del_ne k k' d d' :
  d_del k' d = Ok d' -> k <> k' -> d_get k d' = d_get k d.
Proof.
  revert d'. induction d as [|[k2 v2] d IH]; simpl; intros d' H Hne.
  - discriminate.
  - destruct (String.eqb_spec k' k2) as [->|Hne2].
    + inversion H; subst. apply String.eqb_neq in Hne. now rewrite Hne.
    + destruct (d_del k' d) as [r|e]; simpl in H; [|discriminate].
      inversion H; subst. simpl. destruct (String.eqb k k2); auto.
Qed.

Lemma d_get_del_eq k d d' :
  NoDup (d_keys d) -> d_del k d = Ok d' -> d_get k d' = None.
Proof.
  revert d'. induction d as [|[k2 v2] d IH]; simpl; intros d' Hnd H.
  - discriminate.
  - inversion Hnd as [|? ? Hni Hnd']; subst.
    destruct (String.eqb_spec k k2) as [->|Hne].
    + inversion H; subst.
      destruct (d_get k2 d') eqn:E; [|reflexivity].
      exfalso. apply Hni. apply d_in_keys. now rewrite d_in_get, E.
    + destruct (d_del k d) as [r|e]; simpl in H; [|discriminate].
      inversion H; subst. simpl.
      apply String.eqb_neq in Hne. rewrite Hne. auto.
Qed.

Lemma d_keys_del k d d' :
  d_del k d = Ok d' -> forall x, In x (d_keys d') -> In x (d_keys d).
Proof.
  revert d'. induction d as [|[k2 v2] d IH]; simpl; intros d' H x Hx.
  - discriminate.
  - destruct (String.eqb k k2).
    + inversion H; subst. now right.
    + destruct (d_del k d) as [r|e]; simpl in H; [|discriminate].
      inversion H; subst. simpl in Hx. destruct Hx; [now left|right; eauto].
Qed.

Lemma NoDup_del k d d' :
  NoDup (d_keys d) -> d_del k d = Ok d' -> NoDup (d_keys d').
Proof.
  revert d'. induction d as [|[k2 v2] d IH]; simpl; intros d' Hnd H.
  - discriminate.
  - inversion Hnd as [|? ? Hni Hnd']; subst.
    destruct (String.eqb k k2).
    + inversion H; subst. exact Hnd'.
    + destruct (d_del k d) as [r|e] eqn:E; simpl in H; [|discriminate].
      inversion H; subst. simpl. constructor; [|auto].
      intro Hin. apply Hni. eapply d_keys_del; eauto.
Qed.


End Facts.

End DictFacts.

(* ===================================================================== *)
(** * [parse_value]                                                        *)
(* ===================================================================== *)

Import PyStr PyStrFacts Agg.

Lemma get_args_fixture :
  get_args Fixture.yaml_file ["trax"; "air"] = Ok Fixture.args_dict.
Proof. reflexivity. Qed.



(* ===================================================================== *)
(** * [get_aggregate_swagger]                                              *)
(* ===================================================================== *)

Module FetchFacts.
Import DictFacts.

Section Pass.
Variable args_dict : dict string.
Variable net : network.

(** One turn of the loop asks the network at most once, and can only add
    its own name to the cache. *)
Lemma fetch_api_effect (entry : string * string) (st st' : registry) r :
  fetch_api args_dict net entry st = (r, st') ->
  log st' = log st ++ map (fun e => Get (swagger_json_url args_dict (snd e)))
                          (uncached st [entry]) /\
  forall k, k <> fst entry ->
            d_in k (swagger_apis st') = d_in k (swagger_apis st).
Proof.
  destruct entry as [api_name api_url]. unfold fetch_api, uncached. simpl.
  destruct (d_in api_name (swagger_apis st)) eqn:Hin; simpl.
  - intro H. inversion H; subst. now rewrite app_nil_r.
  - destruct (net (List.length (log st)) (swagger_json_url args_dict api_url))
      as [spec|e].
    + destruct (errors_remove api_url (errors st)); intro H; inversion H; subst;
        simpl; (split; [reflexivity|]); intros k Hk; rewrite d_in_set;
        apply String.eqb_neq in Hk; now rewrite Hk.
    + destruct e; try (intro H; inversion H; subst; simpl; now split);
        destruct (existsb (String.eqb api_url) (errors st));
        intro H; inversion H; subst; simpl; now split.
Qed.

Lemma uncached_same (st st' : registry) (apis : list (string * string)) :
  (forall k, In k (map fst apis) ->
             d_in k (swagger_apis st') = d_in k (swagger_apis st)) ->
  uncached st' apis = uncached st apis.
Proof.
  intro H. unfold uncached. apply filter_ext_in.
  intros [k u] Hin. simpl. rewrite H; [reflexivity|].
  apply in_map_iff. now exists (k, u).
Qed.

Lemma fetch_apis_log (apis : list (string * string)) :
  forall st st' r,
    NoDup (map fst apis) ->
    fetch_apis args_dict net apis st = (Ok r, st') ->
    log st' = log st ++ map (fun e => Get (swagger_json_url args_dict (snd e)))
                            (uncached st apis).
Proof.
  induction apis as [|entry apis IH]; intros st st' r Hnd H.
  - simpl in H. inversion H; subst. simpl. now rewrite app_nil_r.
  - cbn [fetch_apis] in H.
    destruct (fetch_api args_dict net entry st) as [[u|e] st1] eqn:Hone;
      [|discriminate].
    destruct (fetch_api_effect _ _ _ _ Hone) as [Hlog Hcache].
    inversion Hnd as [|? ? Hni Hnd']; subst.
    rewrite (IH _ _ _ Hnd' H), Hlog, <- app_assoc, <- map_app. f_equal. f_equal.
    rewrite (uncached_same st st1 apis).
    + unfold uncached. simpl.
      now destruct (negb (d_in (fst entry) (swagger_apis st))).
    + intros k Hk. apply Hcache. intros ->. contradiction.
Qed.

End Pass.

End FetchFacts.

Import DictFacts FetchFacts.

(** C3 (as the code has it).  The fetch of an upstream's specification
    does not go through the retry wrapper.  When the GET of an upstream
    without cached specification fails at connection level, the loop of
    [get_aggregate_swagger] has asked once, slept never, keeps the cache
    as it was, notes the upstream's configured URL in [errors] unless it
    is there already, and goes on with the next upstream without raising.
    A pass that completes has made exactly one GET for each configured
    upstream that had no cached specification, whatever the answers
    were. *)
Theorem fetch_failure_is_recorded_not_retried :
  (forall args_dict net st api_name api_url msg,
      d_in api_name (swagger_apis st) = false ->
      net (List.length (log st)) (swagger_json_url args_dict api_url)
      = Raise (ConnectionError msg) ->
      fetch_api args_dict net (api_name, api_url) st =
      (Ok tt,
       mkRegistry (swagger_apis st)
                  (if existsb (String.eqb api_url) (errors st)
                   then errors st else errors st ++ [api_url])
                  (log st ++ [Get (swagger_json_url args_dict api_url)]))) /\
  (forall cfg args_dict net st apis res st',
      cfg_apis cfg = Some apis ->
      NoDup (map fst apis) ->
      get_aggregate_swagger cfg args_dict net st = (Ok res, st') ->
      res = swagger_apis st' /\
      log st' = log st ++ map (fun e => Get (swagger_json_url args_dict (snd e)))
                              (uncached st apis)).
Proof.
  split.
  - intros args_dict net st api_name api_url msg Hin Hnet.
    unfold fetch_api, get_swagger_from_url. rewrite Hin, Hnet. simpl.
    destruct (existsb (String.eqb api_url) (errors st)); [|reflexivity].
    now destruct st.
  - intros cfg args_dict net st apis res st' Hcfg Hnd H.
    unfold get_aggregate_swagger in H. rewrite Hcfg in H.
    destruct (fetch_apis args_dict net apis st) as [[u|e] st1] eqn:Hrun;
      [|discriminate].
    inversion H; subst. split; [reflexivity|].
    eapply fetch_apis_log; eauto.
Qed.

(** The network of the examples: the first request is refused, every
    later one is answered. *)
Lemma fetch_failure_is_recorded_not_retried_witness :
  let net : network := fun n _ => match n with
                                  | O => Raise (ConnectionError "refused")
                                  | S _ => Ok (JDict [("swagger", JStr "2.0")])
                                  end in
  let st := mkRegistry [] [] [] in
  fetch_api Fixture.args_dict net
            ("identifications", "http://identifications_url/v1") st
  = (Ok tt, mkRegistry [] ["http://identifications_url/v1"]
                       [Get "http://trax/v1/swagger.json"]) /\
  forall res st',
    get_aggregate_swagger Fixture.yaml_file Fixture.args_dict net st = (Ok res, st') ->
    res = swagger_apis st' /\
    log st' = [Get "http://trax/v1/swagger.json"; Get "http://air/v1/swagger.json"].
Proof.
  intros net st.
  destruct fetch_failure_is_recorded_not_retried as [Hone Hpass].
  split.
  - apply (Hone Fixture.args_dict net st "identifications"
                "http://identifications_url/v1" "refused"); reflexivity.
  - intros res st' H.
    apply (Hpass Fixture.yaml_file Fixture.args_dict net st
                 [("identifications", "http://identifications_url/v1");
                  ("ingestion", "http://ingestion_url/v1")] res st').
    + reflexivity.
    + repeat constructor; simpl; intuition discriminate.
    + exact H.
Defined.

(** C3, the claim as written fails: the first GET is refused and a
    second one would have been answered, yet the pass asks once, never
    sleeps, leaves the upstream without specification, and returns
    normally with the URL noted in [errors]. *)
Lemma fetch_connection_error_not_retried :
  let net : network := fun n _ => match n with
                                  | O => Raise (ConnectionError "refused")
                                  | S _ => Ok (JDict [("swagger", JStr "2.0")])
                                  end in
  let cfg := mkConfig None None None
                      (Some [("identifications", "http://identifications_url/v1")])
                      None None in
  get_aggregate_swagger cfg Fixture.args_dict net (mkRegistry [] [] [])
  = (Ok [], mkRegistry [] ["http://identifications_url/v1"]
                       [Get "http://trax/v1/swagger.json"]).
Proof. reflexivity. Qed.

(* ===================================================================== *)
(** * [merge_aggregates]                                                   *)
(* ===================================================================== *)

Module MergeFacts.
Import DictFacts.


Lemma In_d_in {V} (k : string) (v : V) (d : dict V) : In (k, v) d -> d_in k d = true.
Proof.
  intro H. apply d_in_keys. apply in_map_iff. now exists (k, v).
Qed.

Lemma d_update_cons {V} (d : dict V) kv l :
  d_update d (kv :: l) = d_update (d_set (fst kv) (snd kv) d) l.
Proof. reflexivity. Qed.

Lemma d_update_app_r {V} (d : dict V) l1 l2 :
  d_update d (l1 ++ l2) = d_update (d_update d l1) l2.
Proof. apply fold_left_app. Qed.

(** The loop over the definitions of one upstream. *)
Lemma store_definitions_ok (api : string) (defs : list (string * json)) :
  forall sw defs0,
    d_get "definitions" sw = Some (JDict defs0) ->
    exists sw',
      store_definitions api defs (JDict sw) = Ok (JDict sw') /\
      d_get "definitions" sw' =
        Some (JDict (d_update defs0
                       (map (fun def => (stored_name api (fst def), snd def)) defs))) /\
      forall k, k <> "definitions" -> d_get k sw' = d_get k sw.
Proof.
  induction defs as [|[name dspec] defs IH]; intros sw defs0 H.
  - exists sw. simpl. auto.
  - cbn [store_definitions]. unfold py_getitem at 1, d_getitem. rewrite H.
    cbn [bind py_setitem].
    destruct (IH (d_set "definitions"
                        (JDict (d_set (stored_name api name) dspec defs0)) sw)
                 (d_set (stored_name api name) dspec defs0))
      as [sw' [Hrun [Hdefs Hrest]]].
    { apply d_get_set_eq. }
    exists sw'. split; [exact Hrun|]. split.
    + rewrite Hdefs. reflexivity.
    + intros k Hk. rewrite (Hrest k Hk). now apply d_get_set_ne.
Qed.

Lemma well_formed_member (k : string) (d : dict json) (j : json) :
  is_object j = true ->
  d_get k d = Some j -> j = JDict (member k (JDict d)).
Proof.
  intros Hwf Hget. unfold member. rewrite Hget.
  destruct j; try discriminate. reflexivity.
Qed.

(** One turn of the loop over the upstreams. *)
Lemma merge_api_ok reparse (entry : string * api_entry) sw defs0 paths0 :
  rewritable entry = true ->
  well_formed_api entry = true ->
  d_get "definitions" sw = Some (JDict defs0) ->
  d_get "paths" sw = Some (JDict paths0) ->
  exists sw',
    merge_api reparse entry (JDict sw) = Ok (JDict sw') /\
    d_get "definitions" sw' =
      Some (JDict (d_update defs0 (contributions [entry]))) /\
    d_get "paths" sw' =
      Some (JDict (d_update paths0 (spec_paths (fst entry) (snd entry)))).
Proof.
  destruct entry as [api e]. unfold rewritable, well_formed_api, contributions,
    spec_paths, spec_definitions. simpl fst. simpl snd. simpl flat_map.
  rewrite app_nil_r.
  intros Hrw Hwf Hd Hp. unfold merge_api, rewrite_refs. rewrite Hrw. cbn [bind].
  destruct (rename_refs api (api_spec e)) as [| | | | |d] eqn:Hspec;
    try discriminate.
  simpl in Hwf. apply andb_true_iff in Hwf. destruct Hwf as [Hwd Hwp].
  cbn [py_in bind].
  (* the definitions *)
  assert (Hstep1 : exists sw1,
             (if d_in "definitions" d
              then defs <- py_getitem "definitions" (JDict d) ;;
                   items <- py_items defs ;;
                   store_definitions api items (JDict sw)
              else Ok (JDict sw)) = Ok (JDict sw1) /\
             d_get "definitions" sw1 =
               Some (JDict (d_update defs0
                              (map (fun def => (stored_name api (fst def), snd def))
                                   (member "definitions" (JDict d))))) /\
             d_get "paths" sw1 = Some (JDict paths0)).
  { rewrite d_in_get. destruct (d_get "definitions" d) as [j|] eqn:Hg.
    - pose proof (well_formed_member _ _ _ Hwd Hg) as ->.
      cbn [py_getitem]. unfold d_getitem. rewrite Hg. cbn [bind py_items].
      destruct (store_definitions_ok api (member "definitions" (JDict d)) sw defs0 Hd)
        as [sw1 [Hrun [Hdefs Hrest]]].
      exists sw1. split; [exact Hrun|]. split; [exact Hdefs|].
      rewrite Hrest; [exact Hp|discriminate].
    - exists sw. split; [reflexivity|]. unfold member. rewrite Hg. simpl. auto. }
  destruct Hstep1 as [sw1 [-> [Hd1 Hp1]]]. cbn [bind].
  (* the paths *)
  rewrite d_in_get. destruct (d_get "paths" d) as [j|] eqn:Hg.
  - pose proof (well_formed_member _ _ _ Hwp Hg) as ->.
    cbn [py_getitem]. unfold d_getitem. rewrite Hp1, Hg.
    cbn [bind py_items py_update py_setitem].
    eexists. split; [reflexivity|]. split.
    + rewrite d_get_set_ne by discriminate. exact Hd1.
    + apply d_get_set_eq.
  - exists sw1. split; [reflexivity|]. split; [exact Hd1|].
    unfold member. rewrite Hg. exact Hp1.
Qed.







End MergeFacts.

Import MergeFacts.



(* ===================================================================== *)
(** * [exclude_paths]                                                      *)
(* ===================================================================== *)

(** [test_exclude_paths]: of the six rules one names a path of the
    document; its [post] goes, [get] and the other path stay. *)
Lemma exclude_paths_test :
  exclude_paths Fixture.yaml_file Fixture.swagger_with_history =
  Ok (JDict [("paths",
              JDict [("/identifications/{id}/history/", JDict [("get", JDict [])]);
                     ("path", JDict [("get", JDict []); ("post", JDict [])])])]).
Proof. reflexivity. Qed.

(** C6, where the code falls short of the claim.  The dictionary
    comprehension keeps one entry per path, so of two rules that name the
    same path only the last one counts: with [GET] and [POST] of
    [/identifications/{id}/history/] both excluded, [path_exclude] is
    [{path: ['post']}] and the [get] operation survives. *)
Theorem exclude_paths_last_rule_of_a_path_wins :
  path_exclude Fixture.both_methods_excluded =
  Ok [("/identifications/{id}/history/", ["post"])] /\
  exclude_paths Fixture.both_methods_excluded Fixture.swagger_with_history =
  Ok (JDict [("paths",
              JDict [("/identifications/{id}/history/", JDict [("get", JDict [])]);
                     ("path", JDict [("get", JDict []); ("post", JDict [])])])]).
Proof. split; reflexivity. Qed.

(* ===================================================================== *)
(** * [filter_definition]                                                  *)
(* ===================================================================== *)

Module FilterFacts.
Import DictFacts.

Lemma depth_item (d : dict json) k v :
  In (k, v) d -> (depth v < depth (JDict d))%nat.
Proof.
  intro H. cbn [depth]. apply Nat.lt_succ_r.
  induction d as [|[k' v'] d IH]; [destruct H|].
  simpl. destruct H as [Heq|H].
  - inversion Heq; subst. apply Nat.le_max_l.
  - etransitivity; [now apply IH|apply Nat.le_max_r].
Qed.

Lemma depth_element (l : list json) x :
  In x l -> (depth x < depth (JList l))%nat.
Proof.
  intro H. cbn [depth]. apply Nat.lt_succ_r.
  induction l as [|y l IH]; [destruct H|].
  simpl. destruct H as [->|H].
  - apply Nat.le_max_l.
  - etransitivity; [now apply IH|apply Nat.le_max_r].
Qed.

Lemma d_del_In {V} (k : string) (d d' : dict V) :
  d_del k d = Ok d' -> forall x, In x d' -> In x d.
Proof.
  revert d'. induction d as [|[k2 v2] d IH]; simpl; intros d' H x Hx.
  - discriminate.
  - destruct (String.eqb k k2).
    + inversion H; subst. now right.
    + destruct (d_del k d) as [r|e]; simpl in H; [|discriminate].
      inversion H; subst. destruct Hx; [now left|right; eauto].
Qed.

Lemma del_keys_In (keys : list string) :
  forall (d d' : dict json), del_keys keys d = Ok d' ->
                             forall x, In x d' -> In x d.
Proof.
  induction keys as [|key keys IH]; simpl; intros d d' H x Hx.
  - inversion H; subst. exact Hx.
  - destruct (d_del key d) as [d1|e] eqn:E; simpl in H; [|discriminate].
    eapply d_del_In; eauto.
Qed.

Lemma mapM_fuel_total {A B} (f : A -> option (result B)) (l : list A) :
  (forall x, In x l -> f x <> None) -> mapM_fuel f l <> None.
Proof.
  induction l as [|x l IH]; intro H; simpl; [discriminate|].
  destruct (f x) as [[y|e]|] eqn:E.
  - destruct (mapM_fuel f l) as [[r|e]|] eqn:E'; try discriminate.
    exfalso. apply IH; [|reflexivity]. intros; apply H; now right.
  - discriminate.
  - exfalso. apply (H x); [now left|exact E].
Qed.

Section Total.
Variable cfg : config.
Variable get_dict_definition : json -> option string.

(** Fuel above the depth of the document is enough. *)
Lemma filter_definition_fuel_total (fuel : nat) :
  forall doc, (depth doc < fuel)%nat ->
              filter_definition_fuel cfg get_dict_definition fuel doc <> None.
Proof.
  induction fuel as [|fuel IH]; intros doc Hd; [lia|].
  destruct doc as [| | | |l|d]; cbn [filter_definition_fuel]; try discriminate.
  - assert (Hl : mapM_fuel (filter_definition_fuel cfg get_dict_definition fuel) l
                 <> None).
    { apply mapM_fuel_total. intros x Hx. apply IH.
      pose proof (depth_element l x Hx). lia. }
    destruct (mapM_fuel _ l) as [[r|e]|]; congruence.
  - destruct (del_keys _ d) as [d1|e] eqn:E; [|discriminate].
    match goal with
    | |- context [mapM_fuel ?f d1] =>
        assert (Hl : mapM_fuel f d1 <> None)
    end.
    { apply mapM_fuel_total. intros [k v] Hx.
      assert (Hv : filter_definition_fuel cfg get_dict_definition fuel v <> None).
      { apply IH. pose proof (del_keys_In _ _ _ E _ Hx) as Hin.
        pose proof (depth_item d k v Hin). lia. }
      destruct (filter_definition_fuel cfg get_dict_definition fuel v)
        as [[v'|e]|]; congruence. }
    destruct (mapM_fuel _ d1) as [[r|e]|]; congruence.
Qed.

(** With the frames it needs, [filter_definition] comes to an end: with
    a value or with an exception. *)
Lemma filter_definition_total (doc : json) :
  exists r, filter_definition cfg get_dict_definition doc = Some r.
Proof.
  pose proof (filter_definition_fuel_total (S (depth doc)) doc
                (Nat.lt_succ_diag_r _)) as H.
  unfold filter_definition.
  destruct (filter_definition_fuel cfg get_dict_definition (S (depth doc)) doc);
    [eauto|congruence].
Qed.

End Total.

End FilterFacts.

(** [test_filter_definition] *)
Lemma filter_definition_test :
  filter_definition Fixture.yaml_file Fixture.resolve_test Fixture.doc_test =
  Some (Ok (JList [JDict [("test", JStr "456");
                          ("sub", JDict [("test", JStr "147")])]])).
Proof. reflexivity. Qed.

(** C7, where the code falls short of the claim.  [del doc[key]] has no
    test in front of it: an object that resolves to [identificationsTest]
    and has no [id] makes the redaction raise [KeyError]. *)
Theorem filter_definition_absent_field_raises :
  filter_definition Fixture.yaml_file (fun _ => Some "identificationsTest")
                    (JDict [("test", JStr "456")])
  = Some (Raise (KeyError "id")).
Proof. reflexivity. Qed.

(* ===================================================================== *)
(** * The generated handler                                                *)
(* ===================================================================== *)

(** One placeholder: [findall] finds its name and it is replaced. *)
Lemma build_url_one_placeholder :
  findall_braces "http://trax/v1/identifications/{id}/history/?page=2" = ["id"] /\
  build_url "http://trax/v1" "/identifications/{id}/history/" "page=2" [("id", "7")]
  = "http://trax/v1/identifications/7/history/?page=2".
Proof. split; reflexivity. Qed.

(** C8, where the code falls short of the claim.  The group [(.+)] is
    greedy: with two placeholders the only match runs from the first
    opening brace to the last closing one, equals no parameter name, and
    nothing is substituted. *)
Theorem build_url_two_placeholders_unsubstituted :
  findall_braces "http://trax/v1/identifications/{id}/history/{rev}?" =
  ["id}/history/{rev"] /\
  build_url "http://trax/v1" "/identifications/{id}/history/{rev}" ""
            [("id", "7"); ("rev", "2")]
  = "http://trax/v1/identifications/{id}/history/{rev}?".
Proof. split; reflexivity. Qed.

Module HeaderFacts.
Import DictFacts.

Lemma copied_headers_get (hs : dict string) (k : string) :
  NoDup (d_keys hs) ->
  d_get k (copied_headers hs) = forwarded k hs.
Proof.
  intro Hnd. unfold copied_headers, forwarded.
  rewrite d_get_filter by exact Hnd.
  destruct (d_get k hs) as [v|]; [|reflexivity].
  simpl. now destruct (String.eqb v "").
Qed.

Lemma copied_headers_NoDup (hs : dict string) :
  NoDup (d_keys hs) -> NoDup (d_keys (copied_headers hs)).
Proof.
  apply NoDup_filter.
Qed.

End HeaderFacts.

Import HeaderFacts.

(** C9 (as the code has it).  The handler forwards the inbound headers
    whose value is not empty; a header with an empty value is dropped.
    When [Content-Type] does not start with [multipart/form-data] that is
    all.  When it does, [Content-Length] is not sent, [X-Content-Length]
    carries the value [Content-Length] had (or, without a non-empty
    [Content-Length], what came in under [X-Content-Length]), and every
    other non-empty header is forwarded as it came. *)
Theorem outbound_headers_forward_nonempty :
  forall hs : dict string,
    NoDup (d_keys hs) ->
  exists out,
    outbound_headers hs = Ok out /\
    (is_multipart hs = false -> forall k, d_get k out = forwarded k hs) /\
    (is_multipart hs = true ->
       d_get "Content-Length" out = None /\
       d_get "X-Content-Length" out =
         match forwarded "Content-Length" hs with
         | Some v => Some v
         | None => forwarded "X-Content-Length" hs
         end /\
       forall k, k <> "Content-Length" -> k <> "X-Content-Length" ->
                 d_get k out = forwarded k hs).
Proof.
  intros hs Hnd. unfold outbound_headers.
  destruct (is_multipart hs) eqn:Hm; simpl.
  - destruct (d_in "Content-Length" (copied_headers hs)) eqn:Hin.
    + pose proof Hin as Hget. rewrite d_in_get, copied_headers_get in Hget by exact Hnd.
      unfold d_getitem. rewrite copied_headers_get by exact Hnd.
      destruct (forwarded "Content-Length" hs) as [v|] eqn:Hf; [|discriminate].
      cbn [bind].
      destruct (d_del_in "Content-Length"
                  (d_set "X-Content-Length" v (copied_headers hs))) as [out Hdel].
      { rewrite d_in_set, Hin. apply orb_true_r. }
      exists out. split; [exact Hdel|]. split; [discriminate|]. intros _.
      split; [|split].
      * eapply d_get_del_eq; [|exact Hdel].
        apply NoDup_set, copied_headers_NoDup, Hnd.
      * rewrite (d_get_del_ne _ _ _ _ Hdel) by discriminate.
        apply d_get_set_eq.
      * intros k Hk1 Hk2.
        rewrite (d_get_del_ne _ _ _ _ Hdel) by exact Hk1.
        rewrite d_get_set_ne by exact Hk2. now apply copied_headers_get.
    + exists (copied_headers hs). split; [reflexivity|].
      split; [discriminate|]. intros _.
      rewrite d_in_get, copied_headers_get in Hin by exact Hnd.
      destruct (forwarded "Content-Length" hs) as [v|] eqn:Hf; [discriminate|].
      split; [|split].
      * now rewrite copied_headers_get.
      * now apply copied_headers_get.
      * intros k _ _. now apply copied_headers_get.
  - exists (copied_headers hs). split; [reflexivity|].
    split; [|discriminate]. intros _ k. now apply copied_headers_get.
Qed.

Lemma outbound_headers_forward_nonempty_witness :
  exists out,
    outbound_headers [("Content-Type", "multipart/form-data; boundary=x");
                      ("Content-Length", "42");
                      ("Accept", "*/*")] = Ok out /\
    d_get "Content-Length" out = None /\
    d_get "X-Content-Length" out = Some "42" /\
    d_get "Accept" out = Some "*/*".
Proof.
  destruct (outbound_headers_forward_nonempty
              [("Content-Type", "multipart/form-data; boundary=x");
               ("Content-Length", "42");
               ("Accept", "*/*")]) as [out [Hrun [_ Hmulti]]].
  { repeat constructor; simpl; intuition discriminate. }
  exists out. split; [exact Hrun|].
  destruct (Hmulti eq_refl) as [Hcl [Hx Hother]].
  split; [exact Hcl|]. split; [exact Hx|].
  apply Hother; discriminate.
Defined.

(** C9, the claim as written fails: an inbound header with an empty
    value is not copied to the upstream call. *)
Lemma outbound_headers_drop_empty_value :
  outbound_headers [("Accept", "*/*"); ("X-Trace", "")] = Ok [("Accept", "*/*")].
Proof. reflexivity. Qed.

(* ===================================================================== *)
(** * The field exclusion of [generate_swagger_json]                       *)
(* ===================================================================== *)

Module ExcludeFacts.
Import DictFacts.

Lemma list_remove_present (key : string) (l : list json) :
  existsb (fun x => match x with
                    | JStr s => String.eqb s key
                    | _ => false
                    end) l = true ->
  list_remove key l = Ok (remove_first key l).
Proof.
  induction l as [|x l IH]; simpl; [discriminate|].
  destruct x; simpl; try (intro H; rewrite (IH H); reflexivity).
  destruct (String.eqb s key); simpl; [reflexivity|].
  intro H. now rewrite (IH H).
Qed.

Lemma remove_first_absent (key : string) (l : list json) :
  existsb (fun x => match x with
                    | JStr s => String.eqb s key
                    | _ => false
                    end) l = false ->
  remove_first key l = l.
Proof.
  induction l as [|x l IH]; simpl; [reflexivity|].
  destruct x; simpl; try (intro H; rewrite (IH H); reflexivity).
  destruct (String.eqb s key); simpl; [discriminate|].
  intro H. now rewrite (IH H).
Qed.

Lemma d_del_discard {V} (key : string) (d : dict V) :
  d_in key d = true -> d_del key d = Ok (d_discard key d).
Proof.
  induction d as [|[k v] d IH]; simpl; [discriminate|].
  destruct (String.eqb key k); simpl; [reflexivity|].
  intro H. now rewrite (IH H).
Qed.

Lemma d_discard_absent {V} (key : string) (d : dict V) :
  d_in key d = false -> d_discard key d = d.
Proof.
  induction d as [|[k v] d IH]; simpl; [reflexivity|].
  destruct (String.eqb key k); simpl; [discriminate|].
  intro H. now rewrite (IH H).
Qed.

(** Without ['required'] the first key of a rule already fails. *)
Lemma exclude_field_no_required (key : string) (d : dict json) :
  d_in "required" d = false ->
  exclude_field key (JDict d) = Raise (KeyError "required").
Proof.
  intro H. unfold exclude_field. cbn [py_getitem]. unfold d_getitem.
  rewrite d_in_get in H. now destruct (d_get "required" d).
Qed.

(** With a list under ['required'] and no ['properties'] it fails too. *)
Lemma exclude_field_no_properties (key : string) (d : dict json) req :
  d_get "required" d = Some (JList req) ->
  d_in "properties" d = false ->
  exclude_field key (JDict d) = Raise (KeyError "properties").
Proof.
  intros Hr Hp. unfold exclude_field. cbn [py_getitem]. unfold d_getitem at 1.
  rewrite Hr. cbn [bind py_in].
  rewrite d_in_get in Hp.
  destruct (existsb _ req) eqn:Hin.
  - cbn [py_remove]. rewrite (list_remove_present _ _ Hin).
    cbn [bind py_setitem py_getitem]. unfold d_getitem.
    rewrite d_get_set_ne by discriminate.
    now destruct (d_get "properties" d).
  - cbn [bind py_getitem]. unfold d_getitem.
    now destruct (d_get "properties" d).
Qed.

(** Without ['properties'] no key of a rule gets through, whatever is
    under ['required']. *)
Lemma exclude_field_needs_properties (key : string) (d : dict json) :
  d_in "properties" d = false ->
  exists e, exclude_field key (JDict d) = Raise e.
Proof.
  intro Hp. unfold exclude_field. cbn [py_getitem]. unfold d_getitem at 1.
  destruct (d_get "required" d) as [required|]; [|simpl; eauto].
  cbn [bind]. destruct (py_in key required) as [b|e]; [|simpl; eauto].
  cbn [bind]. rewrite d_in_get in Hp.
  destruct b.
  - destruct (py_remove key required) as [r|e]; [|simpl; eauto].
    cbn [bind py_setitem py_getitem]. unfold d_getitem.
    rewrite d_get_set_ne by discriminate.
    destruct (d_get "properties" d); [discriminate Hp|simpl; eauto].
  - cbn [bind py_getitem]. unfold d_getitem.
    destruct (d_get "properties" d); [discriminate Hp|simpl; eauto].
Qed.

(** On a definition with both, one key is taken out of both. *)
Lemma exclude_field_ok (key : string) (d : dict json) req props :
  d_get "required" d = Some (JList req) ->
  d_get "properties" d = Some (JDict props) ->
  exists d',
    exclude_field key (JDict d) = Ok (JDict d') /\
    d_get "required" d' = Some (JList (remove_first key req)) /\
    d_get "properties" d' = Some (JDict (d_discard key props)) /\
    forall k, k <> "required" -> k <> "properties" -> d_get k d' = d_get k d.
Proof.
  intros Hr Hp. unfold exclude_field. cbn [py_getitem]. unfold d_getitem at 1.
  rewrite Hr. cbn [bind py_in].
  set (in_req := existsb _ req).
  assert (Hstep1 : exists d1,
             (if in_req
              then required' <- py_remove key (JList req) ;;
                   py_setitem "required" required' (JDict d)
              else Ok (JDict d)) = Ok (JDict d1) /\
             d_get "required" d1 = Some (JList (remove_first key req)) /\
             forall k, k <> "required" -> d_get k d1 = d_get k d).
  { destruct in_req eqn:Hin; subst in_req.
    - cbn [py_remove]. rewrite (list_remove_present _ _ Hin).
      cbn [bind py_setitem]. eexists. split; [reflexivity|]. split.
      + apply d_get_set_eq.
      + intros k Hk. now apply d_get_set_ne.
    - exists d. split; [reflexivity|]. split.
      + now rewrite (remove_first_absent _ _ Hin).
      + reflexivity. }
  destruct Hstep1 as [d1 [-> [Hr1 Hrest1]]]. cbn [bind py_getitem].
  unfold d_getitem. rewrite Hrest1 by discriminate. rewrite Hp.
  cbn [bind py_in]. destruct (d_in key props) eqn:Hin.
  - cbn [py_delitem]. rewrite (d_del_discard _ _ Hin).
    cbn [bind py_setitem]. eexists. split; [reflexivity|]. split; [|split].
    + rewrite d_get_set_ne by discriminate. exact Hr1.
    + apply d_get_set_eq.
    + intros k Hk1 Hk2. rewrite d_get_set_ne by exact Hk2. now apply Hrest1.
  - exists d1. split; [reflexivity|]. split; [exact Hr1|]. split.
    + rewrite Hrest1 by discriminate.
      now rewrite (d_discard_absent _ _ Hin).
    + intros k Hk1 _. now apply Hrest1.
Qed.

Lemma exclude_fields_of_ok (keys : list string) :
  forall d req props,
    d_get "required" d = Some (JList req) ->
    d_get "properties" d = Some (JDict props) ->
    exists d',
      exclude_fields_of keys (JDict d) = Ok (JDict d') /\
      d_get "required" d' =
        Some (JList (fold_left (fun r k => remove_first k r) keys req)) /\
      d_get "properties" d' =
        Some (JDict (fold_left (fun p k => d_discard k p) keys props)) /\
      forall k, k <> "required" -> k <> "properties" -> d_get k d' = d_get k d.
Proof.
  induction keys as [|key keys IH]; intros d req props Hr Hp.
  - exists d. simpl. auto.
  - destruct (exclude_field_ok key d req props Hr Hp)
      as [d1 [Hrun [Hr1 [Hp1 Hrest1]]]].
    destruct (IH d1 _ _ Hr1 Hp1) as [d' [Hrun' [Hr' [Hp' Hrest']]]].
    exists d'. split; [|split; [|split]].
    + cbn [exclude_fields_of]. rewrite Hrun. exact Hrun'.
    + exact Hr'.
    + exact Hp'.
    + intros k Hk1 Hk2. rewrite Hrest' by assumption. now apply Hrest1.
Qed.

Lemma remove_exclude_fields_raises (ef : dict (list string))
      (definitions : list (string * json)) definition e :
  In definition definitions ->
  treated ef definition = Raise e ->
  exists e', remove_exclude_fields ef definitions = Raise e'.
Proof.
  induction definitions as [|[name spec] rest IH]; intros Hin Hr; [destruct Hin|].
  cbn [remove_exclude_fields].
  destruct Hin as [<-|Hin].
  - rewrite Hr. simpl. eauto.
  - destruct (treated ef (name, spec)); [|simpl; eauto].
    cbn [bind]. destruct (IH Hin Hr) as [e' ->]. simpl. eauto.
Qed.

Lemma remove_exclude_fields_ok (ef : dict (list string))
      (definitions : list (string * json)) :
  (forall definition, In definition definitions ->
                      exists spec', treated ef definition = Ok spec') ->
  exists items, remove_exclude_fields ef definitions = Ok items.
Proof.
  induction definitions as [|[name spec] rest IH]; intro H.
  - simpl. eauto.
  - cbn [remove_exclude_fields].
    destruct (H (name, spec)) as [spec' ->]; [now left|].
    destruct IH as [items ->]; [intros; apply H; now right|].
    simpl. eauto.
Qed.

End ExcludeFacts.

Import ExcludeFacts.

(** C10 (as the code has it).  For a definition named in
    [exclude_fields] the step reads [definition_spec['required']] and
    then [definition_spec['properties']] for every listed field, neither
    behind a test that the key is there.  So a rule with at least one
    field fails with [KeyError('required')] on a definition without
    ['required'], and with [KeyError('properties')] on one that has a
    list under ['required'] and no ['properties']; the whole step fails
    as soon as one definition with such a rule lacks either key.  It
    completes when every definition that a rule with at least one field
    names is an object with a list under ['required'] and an object under
    ['properties'], and then every listed field is gone from both; a rule
    without fields asks nothing of its definition. *)
Theorem exclude_fields_reads_required_and_properties :
  (forall key keys d,
      d_in "required" d = false ->
      exclude_fields_of (key :: keys) (JDict d) = Raise (KeyError "required")) /\
  (forall key keys d req,
      d_get "required" d = Some (JList req) ->
      d_in "properties" d = false ->
      exclude_fields_of (key :: keys) (JDict d) = Raise (KeyError "properties")) /\
  (forall cfg sw defs name d key keys,
      d_get "definitions" sw = Some (JDict defs) ->
      In (name, JDict d) defs ->
      d_get name (exclude_fields_of_config cfg) = Some (key :: keys) ->
      d_in "required" d = false \/ d_in "properties" d = false ->
      exists e, exclude_fields_step cfg (JDict sw) = Raise e) /\
  (forall cfg sw defs,
      d_get "definitions" sw = Some (JDict defs) ->
      (forall name spec key keys,
          In (name, spec) defs ->
          d_get name (exclude_fields_of_config cfg) = Some (key :: keys) ->
          excludable spec = true) ->
      exists sw', exclude_fields_step cfg (JDict sw) = Ok (JDict sw')) /\
  (forall keys d req props,
      d_get "required" d = Some (JList req) ->
      d_get "properties" d = Some (JDict props) ->
      exists d',
        exclude_fields_of keys (JDict d) = Ok (JDict d') /\
        d_get "required" d' =
          Some (JList (fold_left (fun r k => remove_first k r) keys req)) /\
        d_get "properties" d' =
          Some (JDict (fold_left (fun p k => d_discard k p) keys props))).
Proof.
  split; [|split; [|split; [|split]]].
  - intros key keys d H. cbn [exclude_fields_of].
    now rewrite exclude_field_no_required.
  - intros key keys d req Hr Hp. cbn [exclude_fields_of].
    now rewrite (exclude_field_no_properties key d req).
  - intros cfg sw defs name d key keys Hd Hin Hrule Hmiss.
    assert (Hraise : exists e, treated (exclude_fields_of_config cfg)
                                       (name, JDict d) = Raise e).
    { unfold treated. simpl. rewrite Hrule. cbn [exclude_fields_of].
      destruct Hmiss as [Hr|Hp].
      - rewrite exclude_field_no_required by exact Hr. simpl. eauto.
      - destruct (exclude_field_needs_properties key d Hp) as [e ->].
        simpl. eauto. }
    destruct Hraise as [e He].
    destruct (remove_exclude_fields_raises _ defs _ _ Hin He) as [e' Hrun].
    unfold exclude_fields_step. cbn [py_getitem]. unfold d_getitem.
    rewrite Hd. cbn [bind py_items]. rewrite Hrun. simpl. eauto.
  - intros cfg sw defs Hd Hall.
    destruct (remove_exclude_fields_ok (exclude_fields_of_config cfg) defs)
      as [items Hrun].
    { intros [name spec] Hin. unfold treated. simpl.
      destruct (d_get name (exclude_fields_of_config cfg)) as [[|key keys]|] eqn:Hrule.
      - simpl. eauto.
      - pose proof (Hall name spec key keys Hin Hrule) as Hex.
        destruct spec as [| | | | |d]; try discriminate. simpl in Hex.
        destruct (d_get "required" d) as [[| | | |req|]|] eqn:Hr; try discriminate.
        destruct (d_get "properties" d) as [[| | | | |props]|] eqn:Hp;
          try discriminate.
        destruct (exclude_fields_of_ok (key :: keys) d req props Hr Hp)
          as [d' [Hok _]].
        eauto.
      - eauto. }
    unfold exclude_fields_step. cbn [py_getitem]. unfold d_getitem.
    rewrite Hd. cbn [bind py_items]. rewrite Hrun. simpl. eauto.
  - intros keys d req props Hr Hp.
    destruct (exclude_fields_of_ok keys d req props Hr Hp)
      as [d' [Hok [Hr' [Hp' _]]]].
    eauto.
Qed.

Lemma exclude_fields_reads_required_and_properties_witness :
  exclude_fields_of ["id"] (JDict [("properties", JDict [("id", JDict [])])])
  = Raise (KeyError "required") /\
  exclude_fields_of ["id"] (JDict [("required", JList [JStr "id"])])
  = Raise (KeyError "properties") /\
  (exists e,
      exclude_fields_step Fixture.yaml_file
        (JDict [("definitions",
                 JDict [("identificationsTest",
                         JDict [("required", JList [JStr "id"])])])])
      = Raise e) /\
  (exists sw',
      exclude_fields_step Fixture.yaml_file
        (JDict [("definitions",
                 JDict [("identificationsTest",
                         JDict [("required", JList [JStr "id"; JStr "test"]);
                                ("properties",
                                 JDict [("id", JDict []); ("test", JDict [])])])])])
      = Ok (JDict sw')).
Proof.
  destruct exclude_fields_reads_required_and_properties
    as [Hreq [Hprop [Hfail [Hok _]]]].
  split; [|split; [|split]].
  - apply Hreq. reflexivity.
  - apply (Hprop "id" [] _ [JStr "id"]); reflexivity.
  - apply (Hfail Fixture.yaml_file _
                 [("identificationsTest", JDict [("required", JList [JStr "id"])])]
                 "identificationsTest" [("required", JList [JStr "id"])] "id" []).
    + reflexivity.
    + now left.
    + reflexivity.
    + now right.
  - eapply (Hok Fixture.yaml_file).
    + reflexivity.
    + intros name spec key keys [Heq|[]] _. inversion Heq; subst. reflexivity.
Defined.

(** C10, the claim as written fails on both sides.  A definition that
    carries ['required'] and has no ['properties'] makes the step raise
    [KeyError('properties')]: the membership test on ['properties'] is
    itself an unguarded read.  And a definition without ['required']
    does no harm when its rule lists no field. *)
Lemma exclude_fields_required_is_not_the_precondition :
  exclude_fields_step Fixture.yaml_file
    (JDict [("definitions",
             JDict [("identificationsTest",
                     JDict [("required", JList [JStr "id"])])])])
  = Raise (KeyError "properties") /\
  exclude_fields_step Fixture.empty_rule
    (JDict [("definitions", JDict [("identificationsTest", JDict [])])])
  = Ok (JDict [("definitions", JDict [("identificationsTest", JDict [])])]).
Proof. split; reflexivity. Qed.

(* ===================================================================== *)
(** * Further properties: configuration and fetching                       *)
(* ===================================================================== *)

Module ConfigFacts.
Import DictFacts Gen.

Lemma d_set_fresh {V} (k : string) (v : V) (d : dict V) :
  d_in k d = false -> d_set k v d = d ++ [(k, v)].
Proof.
  induction d as [|[k' v'] d IH]; simpl; [reflexivity|].
  intro H. apply orb_false_iff in H. destruct H as [-> H]. now rewrite IH.
Qed.

Lemma bind_args_short (names swagger_args : list string) :
  forall acc, (List.length swagger_args < List.length names)%nat ->
              bind_args names swagger_args acc = Raise IndexError.
Proof.
  revert swagger_args.
  induction names as [|name names IH]; intros [|a rest] acc H; simpl in *;
    try lia; [reflexivity|].
  apply IH. lia.
Qed.

Lemma bind_args_enough (names : list string) :
  forall swagger_args acc,
    (List.length names <= List.length swagger_args)%nat ->
    NoDup (d_keys acc ++ names) ->
    bind_args names swagger_args acc = Ok (acc ++ combine names swagger_args).
Proof.
  induction names as [|name names IH]; intros swagger_args acc Hlen Hnd.
  - simpl. now rewrite app_nil_r.
  - destruct swagger_args as [|a rest]; simpl in Hlen; [lia|].
    cbn [bind_args combine].
    assert (Hfresh : d_in name acc = false).
    { destruct (d_in name acc) eqn:E; [|reflexivity].
      apply d_in_keys in E. apply NoDup_remove_2 in Hnd.
      exfalso. apply Hnd. apply in_or_app. now left. }
    rewrite d_set_fresh by exact Hfresh.
    rewrite IH.
    + now rewrite <- app_assoc.
    + lia.
    + unfold d_keys in *. rewrite map_app. simpl. now rewrite <- app_assoc.
Qed.

Lemma d_get_combine (names : list string) :
  forall (values : list string) i name,
    NoDup names ->
    nth_error names i = Some name ->
    (List.length names <= List.length values)%nat ->
    d_get name (combine names values) = nth_error values i.
Proof.
  induction names as [|n names IH]; intros values i name Hnd Hi Hlen.
  - destruct i; discriminate.
  - destruct values as [|v values]; simpl in Hlen; [lia|].
    inversion Hnd as [|? ? Hni Hnd']; subst.
    destruct i as [|i]; simpl in Hi |- *.
    + inversion Hi; subst. now rewrite String.eqb_refl.
    + destruct (String.eqb_spec name n) as [->|Hne].
      * exfalso. apply Hni. eapply nth_error_In; eauto.
      * apply IH; auto. lia.
Qed.

Lemma d_keys_combine (names values : list string) :
  (List.length names <= List.length values)%nat ->
  d_keys (combine names values) = names.
Proof.
  revert values. induction names as [|n names IH]; intros [|v values] H;
    simpl in *; try lia; try reflexivity.
  f_equal. apply IH. lia.
Qed.

End ConfigFacts.

Import ConfigFacts Gen.

(** X1.  [get_args] binds the placeholder names of the configuration to
    the extra constructor arguments by position.  With fewer arguments
    than names it raises [IndexError]; with at least as many, and names
    that differ from each other, it returns the dictionary whose keys are
    the names in order, the name at position [i] bound to the argument at
    position [i]; arguments beyond the names are ignored.  Without an
    ['args'] key the dictionary is empty whatever was passed. *)
Theorem get_args_binds_by_position :
  forall (cfg : config) (swagger_args : list string),
    (cfg_args cfg = None -> get_args cfg swagger_args = Ok []) /\
    (forall a,
        cfg_args cfg = Some a ->
        (List.length swagger_args < List.length (args_names a))%nat ->
        get_args cfg swagger_args = Raise IndexError) /\
    (forall a,
        cfg_args cfg = Some a ->
        (List.length (args_names a) <= List.length swagger_args)%nat ->
        NoDup (args_names a) ->
        exists args_dict,
          get_args cfg swagger_args = Ok args_dict /\
          d_keys args_dict = args_names a /\
          forall i name,
            nth_error (args_names a) i = Some name ->
            d_get name args_dict = nth_error swagger_args i).
Proof.
  intros cfg swagger_args. unfold get_args. split; [|split].
  - now intros ->.
  - intros a -> Hlen. now apply bind_args_short.
  - intros a -> Hlen Hnd. fold (args_names a).
    rewrite bind_args_enough by assumption. simpl.
    eexists. split; [reflexivity|]. split.
    + now apply d_keys_combine.
    + intros i name Hi. now apply d_get_combine.
Qed.

Lemma get_args_binds_by_position_witness :
  get_args Fixture.yaml_file ["trax"] = Raise IndexError /\
  exists args_dict,
    get_args Fixture.yaml_file ["trax"; "air"; "spare"] = Ok args_dict /\
    d_get "ingestion_url" args_dict = Some "air".
Proof.
  destruct (get_args_binds_by_position Fixture.yaml_file ["trax"])
    as [_ [Hshort _]].
  destruct (get_args_binds_by_position Fixture.yaml_file ["trax"; "air"; "spare"])
    as [_ [_ Hok]].
  split.
  - apply (Hshort "identifications_url, ingestion_url"); [reflexivity|].
    vm_compute. lia.
  - destruct (Hok "identifications_url, ingestion_url") as [d [Hrun [_ Hget]]].
    + reflexivity.
    + vm_compute. lia.
    + vm_compute. repeat constructor; simpl; intuition discriminate.
    + exists d. split; [exact Hrun|]. apply (Hget 1%nat). reflexivity.
Defined.

(** X2.  A string in which no placeholder name occurs comes back from
    [parse_value] as it went in, whatever the bindings are. *)
Theorem parse_value_without_placeholder :
  forall (args_dict : dict string) (s : string),
    (forall key bound, In (key, bound) args_dict -> str_contains key s = false) ->
    parse_value args_dict (JStr s) = JStr s.
Proof.
  intros args_dict s H. simpl. f_equal. unfold replace_args.
  induction args_dict as [|[key bound] rest IH]; [reflexivity|].
  simpl. rewrite str_replace_absent.
  - apply IH. intros k b Hin. apply (H k b). now right.
  - apply (H key bound). now left.
Qed.

Lemma parse_value_without_placeholder_witness :
  parse_value Fixture.args_dict (JStr "http://localhost:8080/v1")
  = JStr "http://localhost:8080/v1".
Proof.
  apply parse_value_without_placeholder.
  intros key bound [H|[H|[]]]; inversion H; reflexivity.
Defined.

Module PassFacts.
Import DictFacts FetchFacts.

Section Pass.
Variable args_dict : dict string.
Variable net : network.

Lemma fetch_apis_cached (apis : list (string * string)) (st : registry) :
  (forall name url, In (name, url) apis -> d_in name (swagger_apis st) = true) ->
  fetch_apis args_dict net apis st = (Ok tt, st).
Proof.
  induction apis as [|[name url] apis IH]; intro H; [reflexivity|].
  cbn [fetch_apis fetch_api]. rewrite (H name url) by now left.
  apply IH. intros n u Hin. apply (H n u). now right.
Qed.

Lemma errors_remove_In (u url : string) (errs errs' : list string) :
  errors_remove url errs = Some errs' ->
  (In u errs' -> In u errs) /\ (u <> url -> In u errs -> In u errs').
Proof.
  revert errs'. induction errs as [|e errs IH]; simpl; intros errs' H;
    [discriminate|].
  destruct (String.eqb_spec e url) as [->|Hne].
  - inversion H; subst. split; [now right|]. intros Hu [Heq|Hin]; congruence.
  - destruct (errors_remove url errs) as [r|]; simpl in H; [|discriminate].
    inversion H; subst. destruct (IH r eq_refl) as [H1 H2]. split.
    + intros [Heq|Hin]; [now left|right; auto].
    + intros Hu [Heq|Hin]; [now left|right; auto].
Qed.

Lemma errors_remove_NoDup (url : string) (errs errs' : list string) :
  errors_remove url errs = Some errs' -> NoDup errs -> NoDup errs'.
Proof.
  revert errs'. induction errs as [|e errs IH]; simpl; intros errs' H Hnd;
    [discriminate|].
  inversion Hnd as [|? ? Hni Hnd']; subst.
  destruct (String.eqb e url).
  - inversion H; subst. exact Hnd'.
  - destruct (errors_remove url errs) as [r|] eqn:E; simpl in H; [|discriminate].
    inversion H; subst. constructor; [|auto].
    intro Hin. apply Hni. now apply (proj1 (errors_remove_In e url errs r E)).
Qed.

Lemma existsb_eqb_In (u : string) (l : list string) :
  existsb (String.eqb u) l = true <-> In u l.
Proof.
  rewrite existsb_exists. split.
  - intros [x [Hin Heq]]. apply String.eqb_eq in Heq. now subst.
  - intro H. exists u. split; [exact H|apply String.eqb_refl].
Qed.

(** One turn of the loop and the list of errors. *)
Lemma fetch_api_errors (entry : string * string) (st st' : registry) r :
  fetch_api args_dict net entry st = (r, st') ->
  (NoDup (errors st) -> NoDup (errors st')) /\
  (forall u, In u (errors st') -> In u (errors st) \/ u = snd entry) /\
  (forall u, u <> snd entry -> In u (errors st) -> In u (errors st')) /\
  (forall k, d_in k (swagger_apis st) = true -> d_in k (swagger_apis st') = true).
Proof.
  destruct entry as [api_name api_url]. unfold fetch_api. simpl.
  destruct (d_in api_name (swagger_apis st)) eqn:Hin.
  { intro H. inversion H; subst. auto. }
  destruct (net (List.length (log st)) (swagger_json_url args_dict api_url))
    as [spec|e].
  - destruct (errors_remove api_url (errors st)) as [errs'|] eqn:E;
      intro H; inversion H; subst; simpl.
    + split; [now apply (errors_remove_NoDup api_url (errors st))|].
      split; [|split].
      * intros u Hu. left. now apply (proj1 (errors_remove_In u _ _ _ E)).
      * intros u Hne Hu. now apply (proj2 (errors_remove_In u _ _ _ E)).
      * intros k Hk. rewrite d_in_set, Hk. apply orb_true_r.
    + split; [auto|]. split; [auto|]. split; [auto|].
      intros k Hk. rewrite d_in_set, Hk. apply orb_true_r.
  - assert (Hrec : forall st2,
               (if existsb (String.eqb api_url) (errors st)
                then (Ok tt, mkRegistry (swagger_apis st) (errors st)
                                        (log st ++ [Get (swagger_json_url args_dict api_url)]))
                else (Ok tt, mkRegistry (swagger_apis st) (errors st ++ [api_url])
                                        (log st ++ [Get (swagger_json_url args_dict api_url)])))
               = (r, st2) ->
               (NoDup (errors st) -> NoDup (errors st2)) /\
               (forall u, In u (errors st2) -> In u (errors st) \/ u = api_url) /\
               (forall u, u <> api_url -> In u (errors st) -> In u (errors st2)) /\
               (forall k, d_in k (swagger_apis st) = true ->
                          d_in k (swagger_apis st2) = true)).
    { intros st2.
      destruct (existsb (String.eqb api_url) (errors st)) eqn:Hex;
        intro H; inversion H; subst; simpl.
      - auto.
      - split; [|split; [|split]].
        + intro Hnd. apply NoDup_app; [exact Hnd|repeat constructor; simpl; tauto|].
          intros x Hx [<-|[]]. apply existsb_eqb_In in Hx. congruence.
        + intros u Hu. apply in_app_or in Hu. destruct Hu as [Hu|[<-|[]]]; auto.
        + intros u _ Hu. apply in_or_app. now left.
        + auto. }
    destruct e; try (intro H; apply Hrec; exact H);
      intro H; inversion H; subst; simpl; auto.
Qed.

(** A turn of the loop on a tame network leaves the upstream cached or
    noted. *)
Lemma fetch_api_accounts (name url : string) (st : registry) :
  tame net ->
  exists st', fetch_api args_dict net (name, url) st = (Ok tt, st') /\
              (d_in name (swagger_apis st') = true \/ In url (errors st')).
Proof.
  intro Ht. unfold fetch_api. simpl.
  destruct (d_in name (swagger_apis st)) eqn:Hin.
  { exists st. auto. }
  pose proof (Ht (List.length (log st)) (swagger_json_url args_dict url)) as Hn.
  destruct (net (List.length (log st)) (swagger_json_url args_dict url))
    as [spec|e].
  - destruct (errors_remove url (errors st)); eexists; (split; [reflexivity|]);
      left; simpl; rewrite d_in_set, String.eqb_refl; reflexivity.
  - destruct e; try contradiction;
      destruct (existsb (String.eqb url) (errors st)) eqn:Hex;
      eexists; (split; [reflexivity|]); right; simpl.
    + now apply existsb_eqb_In.
    + apply in_or_app. right. now left.
    + now apply existsb_eqb_In.
    + apply in_or_app. right. now left.
Qed.

Lemma fetch_apis_errors (apis : list (string * string)) :
  forall st st' r,
    fetch_apis args_dict net apis st = (r, st') ->
    (NoDup (errors st) -> NoDup (errors st')) /\
    (forall u, In u (errors st') -> In u (errors st) \/ In u (map snd apis)) /\
    (forall u, ~ In u (map snd apis) -> In u (errors st) -> In u (errors st')) /\
    (forall k, d_in k (swagger_apis st) = true -> d_in k (swagger_apis st') = true).
Proof.
  induction apis as [|entry apis IH]; intros st st' r H.
  - simpl in H. inversion H; subst. simpl. tauto.
  - cbn [fetch_apis] in H.
    destruct (fetch_api args_dict net entry st) as [[u|e] st1] eqn:Hone.
    + destruct (fetch_api_errors _ _ _ _ Hone) as [A1 [A2 [A3 A4]]].
      destruct (IH _ _ _ H) as [B1 [B2 [B3 B4]]].
      split; [auto|]. split; [|split].
      * intros x Hx. destruct (B2 x Hx) as [Hx'|Hx']; [|right; now right].
        destruct (A2 x Hx') as [Hy| ->]; [now left|right; now left].
      * intros x Hni Hx. apply B3; [simpl in Hni; tauto|].
        apply A3; [|exact Hx]. intros ->. apply Hni. now left.
      * auto.
    + inversion H; subst.
      destruct (fetch_api_errors _ _ _ _ Hone) as [A1 [A2 [A3 A4]]].
      split; [auto|]. split; [|split].
      * intros x Hx. destruct (A2 x Hx) as [Hy| ->]; [now left|right; now left].
      * intros x Hni Hx. apply A3; [|exact Hx]. intros ->. apply Hni. now left.
      * auto.
Qed.

Lemma fetch_apis_accounts (apis : list (string * string)) :
  tame net ->
  NoDup (map snd apis) ->
  forall st,
  exists st',
    fetch_apis args_dict net apis st = (Ok tt, st') /\
    forall name url, In (name, url) apis ->
                     d_in name (swagger_apis st') = true \/ In url (errors st').
Proof.
  intros Ht. induction apis as [|[name url] apis IH]; intros Hnd st.
  - exists st. split; [reflexivity|]. intros ? ? [].
  - inversion Hnd as [|? ? Hni Hnd']; subst.
    destruct (fetch_api_accounts name url st Ht) as [st1 [Hone Hacc]].
    destruct (IH Hnd' st1) as [st' [Hrest Hall]].
    exists st'. split.
    + cbn [fetch_apis]. rewrite Hone. exact Hrest.
    + destruct (fetch_apis_errors _ _ _ _ Hrest) as [_ [_ [Hkeep Hmono]]].
      intros n u [Heq|Hin].
      * inversion Heq; subst. destruct Hacc as [Hc|He]; [left; auto|right; auto].
      * now apply Hall.
Qed.

End Pass.

End PassFacts.

Import PassFacts.

(** X3.  An upstream that has a cached specification is not fetched
    again: when every configured upstream is cached, or the
    configuration has no ['apis'], [get_aggregate_swagger] makes no
    request and returns the cache with the registry as it was. *)
Theorem cached_upstreams_are_not_fetched :
  forall cfg args_dict net st,
    match cfg_apis cfg with
    | Some apis => forall name url, In (name, url) apis ->
                                    d_in name (swagger_apis st) = true
    | None => True
    end ->
    get_aggregate_swagger cfg args_dict net st = (Ok (swagger_apis st), st).
Proof.
  intros cfg args_dict net st H. unfold get_aggregate_swagger.
  destruct (cfg_apis cfg) as [apis|]; [|reflexivity].
  now rewrite fetch_apis_cached.
Qed.

Lemma cached_upstreams_are_not_fetched_witness :
  let st := mkRegistry
              [("identifications", mkApi (JDict []) "http://trax/v1");
               ("ingestion", mkApi (JDict []) "http://air/v1")] [] [] in
  get_aggregate_swagger Fixture.yaml_file Fixture.args_dict
                        (fun _ _ => Raise (ConnectionError "refused")) st
  = (Ok (swagger_apis st), st).
Proof.
  intro st. apply cached_upstreams_are_not_fetched. simpl.
  intros name url [H|[H|[]]]; inversion H; reflexivity.
Defined.

(** X4.  Whatever the network does, a pass of [get_aggregate_swagger]
    keeps [errors] free of repetitions if it was, adds to it nothing but
    configured URLs, and never drops a cached specification. *)
Theorem errors_stay_without_repetition :
  forall cfg args_dict net st r st',
    get_aggregate_swagger cfg args_dict net st = (r, st') ->
    (NoDup (errors st) -> NoDup (errors st')) /\
    (forall u, In u (errors st') ->
               In u (errors st) \/
               exists apis, cfg_apis cfg = Some apis /\ In u (map snd apis)) /\
    (forall k, d_in k (swagger_apis st) = true -> d_in k (swagger_apis st') = true).
Proof.
  intros cfg args_dict net st r st' H. unfold get_aggregate_swagger in H.
  destruct (cfg_apis cfg) as [apis|].
  - destruct (fetch_apis args_dict net apis st) as [[u|e] st1] eqn:Hrun;
      inversion H; subst;
      destruct (fetch_apis_errors _ _ _ _ _ _ Hrun) as [A1 [A2 [_ A4]]];
      (split; [exact A1|]); (split; [|exact A4]);
      intros x Hx; destruct (A2 x Hx); eauto.
  - inversion H; subst. auto.
Qed.

Lemma errors_stay_without_repetition_witness :
  NoDup (errors (snd (get_aggregate_swagger
                        Fixture.yaml_file Fixture.args_dict
                        (fun _ _ => Raise JSONDecodeError)
                        (mkRegistry [] ["http://ingestion_url/v1"] [])))).
Proof.
  destruct (errors_stay_without_repetition
              Fixture.yaml_file Fixture.args_dict
              (fun _ _ => Raise JSONDecodeError)
              (mkRegistry [] ["http://ingestion_url/v1"] [])
              (Ok [])
              (mkRegistry [] ["http://ingestion_url/v1";
                              "http://identifications_url/v1"]
                          [Get "http://trax/v1/swagger.json";
                           Get "http://air/v1/swagger.json"])
              eq_refl) as [Hnd _].
  apply Hnd. simpl. repeat constructor; simpl; tauto.
Defined.

(** X5.  On a network that only ever answers with a document, a refused
    connection or a body that is not JSON, and with upstream URLs that
    differ from each other, a pass completes, and afterwards every
    configured upstream has a cached specification or its URL is in
    [errors]. *)
Theorem every_upstream_is_cached_or_noted :
  forall cfg args_dict net st apis,
    cfg_apis cfg = Some apis ->
    tame net ->
    NoDup (map snd apis) ->
    exists st',
      get_aggregate_swagger cfg args_dict net st = (Ok (swagger_apis st'), st') /\
      forall name url, In (name, url) apis ->
                       d_in name (swagger_apis st') = true \/ In url (errors st').
Proof.
  intros cfg args_dict net st apis Hcfg Ht Hnd.
  destruct (fetch_apis_accounts args_dict net apis Ht Hnd st) as [st' [Hrun Hall]].
  exists st'. unfold get_aggregate_swagger. rewrite Hcfg, Hrun. auto.
Qed.

Lemma every_upstream_is_cached_or_noted_witness :
  exists st',
    get_aggregate_swagger Fixture.yaml_file Fixture.args_dict
      (fun n _ => match n with
                  | O => Raise (ConnectionError "refused")
                  | S _ => Ok (JDict [])
                  end)
      (mkRegistry [] [] []) = (Ok (swagger_apis st'), st') /\
    (d_in "identifications" (swagger_apis st') = true \/
     In "http://identifications_url/v1" (errors st')).
Proof.
  destruct (every_upstream_is_cached_or_noted
              Fixture.yaml_file Fixture.args_dict
              (fun n _ => match n with
                          | O => Raise (ConnectionError "refused")
                          | S _ => Ok (JDict [])
                          end)
              (mkRegistry [] [] [])
              [("identifications", "http://identifications_url/v1");
               ("ingestion", "http://ingestion_url/v1")])
    as [st' [Hrun Hall]].
  - reflexivity.
  - intros [|n] url; exact I.
  - repeat constructor; simpl; intuition discriminate.
  - exists st'. split; [exact Hrun|].
    apply (Hall "identifications" "http://identifications_url/v1"). now left.
Defined.

(* ===================================================================== *)
(** * Further properties: the retry wrapper                                *)
(* ===================================================================== *)

Module BackoffFacts.
Import Retry RetryFacts.

Lemma Qpow_multiplier_S (n : nat) :
  Qpow multiplier (S n) == (3 # 2) * Qpow multiplier n.
Proof.
  cbn [Qpow]. apply Qmult_comp; reflexivity.
Qed.

Lemma Qpow_multiplier_mono (n m : nat) :
  (n <= m)%nat -> Qpow multiplier n <= Qpow multiplier m.
Proof.
  intro H. induction H as [|m H IH]; [lra|].
  rewrite Qpow_multiplier_S. pose proof (Qpow_multiplier_ge_1 m) as Hp. lra.
Qed.

(** The jitter keeps a delay between a quarter and three quarters of the
    power of the multiplier. *)
Lemma delay_bounds (draw : nat -> Z) (i : nat) :
  draws_in_range draw ->
  Qpow multiplier i * (1 # 4) <= delay draw i /\
  delay draw i <= Qpow multiplier i * (3 # 4).
Proof.
  intro Hd. unfold delay, next_retry_sleep.
  destruct (Hd i) as [Hlo Hhi]. unfold randint_hi in Hhi.
  assert (Hr0 : 0 <= inject_Z (draw i)).
  { replace 0 with (inject_Z 0) by reflexivity. now rewrite <- Zle_Qle. }
  assert (Hr1 : inject_Z (draw i) <= 1000).
  { replace 1000 with (inject_Z 1000) by reflexivity. now rewrite <- Zle_Qle. }
  assert (Hq0 : 0 <= inject_Z (draw i) / 1000) by (apply Qle_shift_div_l; lra).
  assert (Hq1 : inject_Z (draw i) / 1000 <= 1) by (apply Qle_shift_div_r; lra).
  pose proof (Qpow_multiplier_ge_1 i) as Hp.
  unfold retry_interval, randomization_factor.
  setoid_replace (5 # 10) with (1 # 2) by reflexivity.
  set (j := inject_Z (draw i) / 1000) in *.
  split; apply Qmult_le_l; lra.
Qed.

(** The time slept over [n] failed attempts lies between the geometric
    sums of the smallest and of the largest delays. *)
Lemma slept_before_bounds (draw : nat -> Z) (n : nat) :
  draws_in_range draw ->
  (Qpow multiplier n - 1) * (1 # 2) <= slept_before draw n /\
  slept_before draw n <= (Qpow multiplier n - 1) * (3 # 2).
Proof.
  intro Hd. induction n as [|n [IHlo IHhi]].
  - unfold slept_before. simpl. lra.
  - rewrite slept_before_S, Qpow_multiplier_S.
    destruct (delay_bounds draw n Hd) as [Dlo Dhi]. split; lra.
Qed.

Lemma Qpow_multiplier_5 : Qpow multiplier 5 == 243 # 32.
Proof. reflexivity. Qed.

Lemma Qpow_multiplier_7 : Qpow multiplier 7 == 2187 # 128.
Proof. reflexivity. Qed.

Lemma Qpow_multiplier_8 : Qpow multiplier 8 == 6561 # 256.
Proof. reflexivity. Qed.

(** Ten seconds slept or less means at most seven failed attempts. *)
Lemma slept_below_cap (draw : nat -> Z) (n : nat) :
  draws_in_range draw -> slept_before draw n <= max_sleep_time -> (n <= 7)%nat.
Proof.
  intros Hd Hlt. destruct (le_lt_dec n 7) as [|Hgt]; [assumption|exfalso].
  destruct (slept_before_bounds draw n Hd) as [Hlo _].
  pose proof (Qpow_multiplier_mono 8 n Hgt) as Hm.
  rewrite Qpow_multiplier_8 in Hm. unfold max_sleep_time in Hlt. lra.
Qed.

(** Ten seconds slept or more means at least six failed attempts. *)
Lemma slept_at_cap (draw : nat -> Z) (n : nat) :
  draws_in_range draw -> max_sleep_time <= slept_before draw n -> (6 <= n)%nat.
Proof.
  intros Hd Hge. destruct (le_lt_dec 6 n) as [|Hlt]; [assumption|exfalso].
  destruct (slept_before_bounds draw n Hd) as [_ Hhi].
  assert (Hle : (n <= 5)%nat) by lia.
  pose proof (Qpow_multiplier_mono n 5 Hle) as Hm.
  rewrite Qpow_multiplier_5 in Hm. unfold max_sleep_time in Hge. lra.
Qed.

End BackoffFacts.

Import Retry RetryFacts BackoffFacts.

(** X6.  Whatever the action does and whatever the jitter draws are, the
    wrapper calls the action at most 8 times and sleeps less than 23
    seconds in all; and when it stops because the cap is reached, it has
    called the action at least 6 times. *)
Theorem retry_http_attempts_are_bounded :
  forall (A : Type) (call : nat -> result A) (draw : nat -> Z),
    draws_in_range draw ->
    exists res st,
      _retry_http call draw = Some (res, st) /\
      (calls (trace st) <= 8)%nat /\
      Qsum (sleeps (trace st)) < 23 /\
      (max_sleep_time <= total_sleep_time st -> (6 <= calls (trace st))%nat).
Proof.
  intros A call draw Hd.
  destruct (retry_http_finishes call draw Hd) as [res [st [Hrun [Hf Ht Hb He]]]].
  exists res, st. split; [exact Hrun|].
  pose proof (ending_sleeps _ _ _ _ He) as Hs.
  pose proof (slept_below_cap draw _ Hd Hb) as Hpred.
  assert (Hsum : Qsum (sleeps (trace st)) == slept_before draw (request_nb st)).
  { rewrite Hs. reflexivity. }
  assert (Hcalls : (calls (trace st) <= 8)%nat /\
                   (max_sleep_time <= total_sleep_time st ->
                    (6 <= calls (trace st))%nat)).
  { destruct He as [a _ Hlt Htr|e _ _ Hlt Htr|n msg Hn _ Hge Htr];
      rewrite Htr, ?calls_app, calls_failed_attempts; simpl.
    - rewrite Ht in Hlt. pose proof (slept_below_cap draw _ Hd Hlt). split; [lia|].
      intro Hge. rewrite Ht in Hge. pose proof (slept_at_cap draw _ Hd Hge). lia.
    - rewrite Ht in Hlt. pose proof (slept_below_cap draw _ Hd Hlt). split; [lia|].
      intro Hge. rewrite Ht in Hge. pose proof (slept_at_cap draw _ Hd Hge). lia.
    - split; [lia|]. intros _. rewrite Ht in Hge.
      apply (slept_at_cap draw _ Hd Hge). }
  destruct Hcalls as [Hc8 Hc6]. split; [exact Hc8|]. split; [|exact Hc6].
  rewrite Hsum. destruct (request_nb st) as [|n] eqn:En.
  - unfold slept_before. simpl. lra.
  - simpl in Hb, Hpred. rewrite slept_before_S.
    destruct (delay_bounds draw n Hd) as [_ Dhi].
    pose proof (Qpow_multiplier_mono n 7 Hpred) as Hm.
    rewrite Qpow_multiplier_7 in Hm. unfold max_sleep_time in Hb. lra.
Qed.

Lemma retry_http_attempts_are_bounded_witness :
  exists res st,
    _retry_http (A := unit) (fun _ => Raise (ConnectionError "refused"))
                (fun _ => 250%Z) = Some (res, st) /\
    (calls (trace st) <= 8)%nat /\
    Qsum (sleeps (trace st)) < 23 /\
    (max_sleep_time <= total_sleep_time st -> (6 <= calls (trace st))%nat).
Proof.
  apply (retry_http_attempts_are_bounded unit
           (fun _ => Raise (ConnectionError "refused"))
           (fun _ => 250%Z)).
  intro n. unfold randint_hi. lia.
Defined.

(* ===================================================================== *)
(** * Further properties: [exclude_paths]                                  *)
(* ===================================================================== *)

Module ExcludePathsFacts.
Import DictFacts Gen.

Section Middle.
Context {V : Type}.

(** A key that the front of a dictionary does not hold is found, set
    and deleted at its first place behind the front. *)
Lemma d_get_middle (k : string) (v : V) (l1 l2 : dict V) :
  d_in k l1 = false -> d_get k (l1 ++ (k, v) :: l2) = Some v.
Proof.
  induction l1 as [|[k' v'] l1 IH]; simpl; intro H.
  - now rewrite String.eqb_refl.
  - apply orb_false_iff in H. destruct H as [-> H]. auto.
Qed.

Lemma d_set_middle (k : string) (v w : V) (l1 l2 : dict V) :
  d_in k l1 = false ->
  d_set k w (l1 ++ (k, v) :: l2) = l1 ++ (k, w) :: l2.
Proof.
  induction l1 as [|[k' v'] l1 IH]; simpl; intro H.
  - now rewrite String.eqb_refl.
  - apply orb_false_iff in H. destruct H as [-> H]. now rewrite IH.
Qed.

Lemma d_del_middle (k : string) (v : V) (l1 l2 : dict V) :
  d_in k l1 = false ->
  d_del k (l1 ++ (k, v) :: l2) = Ok (l1 ++ l2).
Proof.
  induction l1 as [|[k' v'] l1 IH]; simpl; intro H.
  - now rewrite String.eqb_refl.
  - apply orb_false_iff in H. destruct H as [-> H]. now rewrite IH.
Qed.

Lemma d_set_same (k : string) (v : V) (d : dict V) :
  d_get k d = Some v -> d_set k v d = d.
Proof.
  induction d as [|[k' v'] d IH]; simpl; [discriminate|].
  destruct (String.eqb_spec k k') as [->|Hne]; intro H.
  - congruence.
  - now rewrite IH.
Qed.

Lemma d_in_front (k : string) (v : V) (l1 l2 : dict V) :
  NoDup (d_keys (l1 ++ (k, v) :: l2)) -> d_in k l1 = false.
Proof.
  intro H. destruct (d_in k l1) eqn:E; [|reflexivity].
  exfalso. apply d_in_keys in E. unfold d_keys in *.
  rewrite map_app in H. simpl in H. apply NoDup_remove_2 in H.
  apply H. apply in_or_app. now left.
Qed.

End Middle.

Lemma d_in_filter_front (P : string * json -> bool) (k : string) (l : dict json) :
  d_in k l = false -> d_in k (filter P l) = false.
Proof.
  intro H. destruct (d_in k (filter P l)) eqn:E; [|reflexivity].
  apply d_in_keys in E. unfold d_keys in E. apply in_map_iff in E.
  destruct E as [x [Hx Hin]]. apply filter_In in Hin.
  assert (Hk : d_in k l = true).
  { apply d_in_keys. apply in_map_iff. exists x. tauto. }
  congruence.
Qed.

(** The inner loop deletes from the copy the listed operations it meets. *)
Lemma del_actions_filters (methods : list string) (rest : list (string * json)) :
  forall done,
    NoDup (d_keys (done ++ rest)) ->
    del_actions methods rest (JDict (without_methods methods done ++ rest)) =
    Ok (JDict (without_methods methods (done ++ rest))).
Proof.
  induction rest as [|[action v] rest IH]; intros done Hnd.
  - simpl. now rewrite !app_nil_r.
  - cbn [del_actions].
    pose proof (d_in_front _ _ _ _ Hnd) as Hfront.
    replace (done ++ (action, v) :: rest) with ((done ++ [(action, v)]) ++ rest)
      in * by (now rewrite <- app_assoc).
    destruct (existsb (String.eqb action) methods) eqn:Hm.
    + cbn [py_delitem].
      rewrite d_del_middle by (now apply d_in_filter_front).
      cbn [bind].
      replace (without_methods methods done)
        with (without_methods methods (done ++ [(action, v)])).
      * now apply IH.
      * unfold without_methods. rewrite filter_app. simpl. rewrite Hm. simpl.
        now rewrite app_nil_r.
    + replace (without_methods methods done ++ (action, v) :: rest)
        with (without_methods methods (done ++ [(action, v)]) ++ rest).
      * now apply IH.
      * unfold without_methods. rewrite filter_app. simpl. rewrite Hm. simpl.
        now rewrite <- app_assoc.
Qed.

Lemma excluded_item_key (pe : dict (list string)) (entry : string * json) :
  fst (excluded_item pe entry) = fst entry.
Proof.
  unfold excluded_item. destruct (d_get (fst entry) pe); [|reflexivity].
  now destruct (snd entry).
Qed.

Lemma d_in_excluded_front (pe : dict (list string)) (k : string)
      (l : list (string * json)) :
  d_in k l = false -> d_in k (map (excluded_item pe) l) = false.
Proof.
  induction l as [|e l IH]; simpl; [reflexivity|].
  destruct e as [k' v']. intro H. apply orb_false_iff in H. destruct H as [Hk H].
  pose proof (excluded_item_key pe (k', v')) as Hkey.
  destruct (excluded_item pe (k', v')) as [k2 v2]. simpl in Hkey. subst k2.
  simpl. now rewrite Hk, IH.
Qed.

(** The outer loop replaces, path by path, the item by what the rules
    leave of it. *)
Lemma exclude_loop_maps (pe : dict (list string)) (rest : list (string * json)) :
  forall done,
    NoDup (d_keys (done ++ rest)) ->
    (forall entry, In entry rest -> d_in (fst entry) pe = true ->
                   path_item_ok entry) ->
    exclude_loop pe rest (JDict (map (excluded_item pe) done ++ rest)) =
    Ok (JDict (map (excluded_item pe) (done ++ rest))).
Proof.
  induction rest as [|[path path_spec] rest IH]; intros done Hnd Hok.
  - simpl. now rewrite !app_nil_r.
  - cbn [exclude_loop].
    pose proof (d_in_front _ _ _ _ Hnd) as Hfront.
    assert (Hnext : forall item,
               excluded_item pe (path, path_spec) = (path, item) ->
               exclude_loop pe rest
                 (JDict (map (excluded_item pe) done ++ (path, item) :: rest)) =
               Ok (JDict (map (excluded_item pe)
                              (done ++ (path, path_spec) :: rest)))).
    { intros item Hitem.
      replace (done ++ (path, path_spec) :: rest)
        with ((done ++ [(path, path_spec)]) ++ rest) in *
        by (now rewrite <- app_assoc).
      rewrite <- IH.
      - rewrite map_app. simpl. rewrite Hitem. now rewrite <- app_assoc.
      - exact Hnd.
      - intros entry Hin. apply Hok. now right. }
    destruct (d_get path pe) as [methods|] eqn:Hpe.
    + destruct (Hok (path, path_spec)) as [ps [Hps Hnd']].
      { now left. }
      { simpl. now rewrite d_in_get, Hpe. }
      simpl in Hps. subst path_spec. cbn [py_items bind py_getitem].
      unfold d_getitem.
      rewrite d_get_middle by (now apply d_in_excluded_front).
      cbn [bind].
      change (del_actions methods ps (JDict ps))
        with (del_actions methods ps (JDict (without_methods methods [] ++ ps))).
      rewrite (del_actions_filters methods ps []) by exact Hnd'.
      change ([] ++ ps) with ps.
      cbn [bind py_setitem].
      rewrite d_set_middle by (now apply d_in_excluded_front).
      apply Hnext. unfold excluded_item. simpl. now rewrite Hpe.
    + apply Hnext. unfold excluded_item. simpl. now rewrite Hpe.
Qed.

Lemma split_lacks (c : ascii) (s : string) :
  lacks c s = true -> split c s = [s].
Proof.
  induction s as [|d s IH]; simpl; [reflexivity|].
  intro H. apply andb_true_iff in H. destruct H as [Hd Hs].
  apply negb_true_iff in Hd. rewrite Hd, (IH Hs). reflexivity.
Qed.

Lemma split_rule (method path : string) :
  lacks " " method = true ->
  split " " (rule method path) = method :: split " " path.
Proof.
  unfold rule. induction method as [|d m IH]; intro H.
  - reflexivity.
  - cbn [lacks] in H. apply andb_true_iff in H. destruct H as [Hd Hm].
    apply negb_true_iff in Hd.
    change (String d m ++ " " ++ path)%string with (String d (m ++ " " ++ path)).
    cbn [split]. rewrite Hd, (IH Hm). reflexivity.
Qed.

Lemma path_exclude_of_rules (rs : list (string * string)) :
  forall acc,
    (forall m p, In (m, p) rs -> lacks " " m = true /\ lacks " " p = true) ->
    path_exclude_of (map (fun mp => rule (fst mp) (snd mp)) rs) acc =
    Ok (d_update acc (map (fun mp => (snd mp, [lower (fst mp)])) rs)).
Proof.
  induction rs as [|[m p] rs IH]; intros acc H; [reflexivity|].
  destruct (H m p) as [Hm Hp]; [now left|].
  cbn [map path_exclude_of fst snd].
  rewrite (split_rule m p Hm), (split_lacks _ p Hp). cbn [second bind hd].
  rewrite IH; [reflexivity|]. intros m' p' Hin. apply H. now right.
Qed.

Lemma path_exclude_of_malformed (rules : list string) :
  forall acc r,
    In r rules -> lacks " " r = true ->
    path_exclude_of rules acc = Raise IndexError.
Proof.
  induction rules as [|p rules IH]; intros acc r Hin Hr; [destruct Hin|].
  cbn [path_exclude_of].
  destruct (second (split " " p)) as [path|e] eqn:Hs.
  - cbn [bind]. destruct Hin as [->|Hin].
    + rewrite (split_lacks _ r Hr) in Hs. discriminate.
    + eapply IH; eauto.
  - destruct (split " " p) as [|a [|b l]]; simpl in Hs; inversion Hs; reflexivity.
Qed.

End ExcludePathsFacts.

Import ExcludePathsFacts.

(** X7.  On a document whose ['paths'] is an object with pairwise
    different paths, and whose items named by a rule are objects with
    pairwise different operation names, [exclude_paths] returns the
    document with every path still there, in the same order, each item
    holding the operations that the entry of [path_exclude] for its path
    does not list; items of paths without an entry are untouched, and so
    is the rest of the document. *)
Theorem exclude_paths_filters_operations :
  forall cfg pe sw paths,
    path_exclude cfg = Ok pe ->
    d_get "paths" sw = Some (JDict paths) ->
    NoDup (d_keys paths) ->
    (forall entry, In entry paths -> d_in (fst entry) pe = true ->
                   path_item_ok entry) ->
    exclude_paths cfg (JDict sw) =
    Ok (JDict (d_set "paths" (JDict (map (excluded_item pe) paths)) sw)).
Proof.
  intros cfg pe sw paths Hpe Hpaths Hnd Hok.
  unfold exclude_paths. rewrite Hpe. cbn [bind py_getitem].
  unfold d_getitem. rewrite Hpaths. cbn [bind py_items].
  change (exclude_loop pe paths (JDict paths))
    with (exclude_loop pe paths (JDict (map (excluded_item pe) [] ++ paths))).
  rewrite (exclude_loop_maps pe paths []) by assumption.
  reflexivity.
Qed.

Lemma exclude_paths_filters_operations_witness :
  exclude_paths Fixture.yaml_file Fixture.swagger_with_history =
  Ok (JDict [("paths",
              JDict [("/identifications/{id}/history/", JDict [("get", JDict [])]);
                     ("path", JDict [("get", JDict []); ("post", JDict [])])])]).
Proof.
  unfold Fixture.swagger_with_history.
  rewrite (exclude_paths_filters_operations
             Fixture.yaml_file
             [("/identifications/{id}/history/", ["post"]);
              ("/identifications/", ["get"]);
              ("/ingestions/{id}/resources", ["delete"]);
              ("/ingestions/{id}", ["put"]);
              ("/ingestions", ["get"]);
              ("/identifications/{id}/source/audio_url", ["put"])]
             [("paths",
               JDict [("/identifications/{id}/history/",
                       JDict [("get", JDict []); ("post", JDict [])]);
                      ("path", JDict [("get", JDict []); ("post", JDict [])])])]
             [("/identifications/{id}/history/",
               JDict [("get", JDict []); ("post", JDict [])]);
              ("path", JDict [("get", JDict []); ("post", JDict [])])]).
  - reflexivity.
  - reflexivity.
  - reflexivity.
  - repeat constructor; simpl; intuition discriminate.
  - intros entry [<-|[<-|[]]] Hin.
    + eexists. split; [reflexivity|].
      repeat constructor; simpl; intuition discriminate.
    + simpl in Hin. discriminate Hin.
Defined.

(** X8.  [path_exclude] reads each rule ["METHOD /path"] as the path
    after the first blank and the method in lower case before it, and
    keeps one entry per path: for rules made of a method and a path
    without blanks it is the dictionary built from the pairs of path and
    one-element method list, so an entry never lists more than one
    method.  A rule without a blank makes it raise [IndexError]. *)
Theorem path_exclude_keeps_one_method_per_path :
  forall cfg,
    (forall rs,
        cfg_exclude_paths cfg = Some (map (fun mp => rule (fst mp) (snd mp)) rs) ->
        (forall m p, In (m, p) rs -> lacks " " m = true /\ lacks " " p = true) ->
        path_exclude cfg =
          Ok (d_of_items (map (fun mp => (snd mp, [lower (fst mp)])) rs)) /\
        forall pe path methods,
          path_exclude cfg = Ok pe ->
          d_get path pe = Some methods ->
          exists m, methods = [lower m] /\ In (m, path) rs) /\
    (forall rules r,
        cfg_exclude_paths cfg = Some rules ->
        In r rules -> lacks " " r = true ->
        path_exclude cfg = Raise IndexError).
Proof.
  intro cfg. split.
  - intros rs Hcfg Hwf.
    assert (Hrun : path_exclude cfg =
                   Ok (d_of_items (map (fun mp => (snd mp, [lower (fst mp)])) rs))).
    { unfold path_exclude. rewrite Hcfg. now rewrite path_exclude_of_rules. }
    split; [exact Hrun|].
    intros pe path methods Hpe Hget. rewrite Hrun in Hpe. inversion Hpe; subst pe.
    unfold d_of_items in Hget. rewrite DictFacts.d_get_update in Hget.
    destruct (d_get path (rev (map (fun mp => (snd mp, [lower (fst mp)])) rs)))
      as [ms|] eqn:E; [|discriminate].
    inversion Hget; subst ms.
    apply DictFacts.d_get_In in E. apply in_rev in E.
    apply in_map_iff in E. destruct E as [[m p] [Heq Hin]].
    inversion Heq; subst. eauto.
  - intros rules r Hcfg Hin Hr. unfold path_exclude. rewrite Hcfg.
    eapply path_exclude_of_malformed; eauto.
Qed.

Lemma path_exclude_keeps_one_method_per_path_witness :
  path_exclude Fixture.both_methods_excluded =
  Ok (d_of_items [("/identifications/{id}/history/", ["get"]);
                  ("/identifications/{id}/history/", ["post"])]) /\
  path_exclude (mkConfig None None None None (Some ["GET /a"; "POST"]) None)
  = Raise IndexError.
Proof.
  destruct (path_exclude_keeps_one_method_per_path Fixture.both_methods_excluded)
    as [Hok _].
  destruct (path_exclude_keeps_one_method_per_path
              (mkConfig None None None None (Some ["GET /a"; "POST"]) None))
    as [_ Hbad].
  split.
  - apply (Hok [("GET", "/identifications/{id}/history/");
                ("POST", "/identifications/{id}/history/")]).
    + reflexivity.
    + intros m p [H|[H|[]]]; inversion H; split; reflexivity.
  - apply (Hbad ["GET /a"; "POST"] "POST"); [reflexivity|simpl; tauto|reflexivity].
Defined.

(** X9.  Without rules, [exclude_paths] returns a document that has an
    object under ['paths'] as it is; a document without ['paths'] makes
    it raise [KeyError('paths')] all the same, once the rules are read. *)
Theorem exclude_paths_without_rules :
  forall cfg sw,
    (forall paths,
        path_exclude cfg = Ok [] ->
        d_get "paths" sw = Some (JDict paths) ->
        exclude_paths cfg (JDict sw) = Ok (JDict sw)) /\
    (forall pe,
        path_exclude cfg = Ok pe ->
        d_in "paths" sw = false ->
        exclude_paths cfg (JDict sw) = Raise (KeyError "paths")).
Proof.
  intros cfg sw. split.
  - intros paths Hpe Hpaths. unfold exclude_paths. rewrite Hpe.
    cbn [bind py_getitem]. unfold d_getitem. rewrite Hpaths. cbn [bind py_items].
    assert (Hloop : forall items filtered, exclude_loop [] items filtered = Ok filtered).
    { induction items as [|[p ps] items IH]; intro filtered; simpl; auto. }
    rewrite Hloop. cbn [bind py_setitem]. now rewrite d_set_same.
  - intros pe Hpe Hno. unfold exclude_paths. rewrite Hpe.
    cbn [bind py_getitem]. unfold d_getitem.
    rewrite DictFacts.d_in_get in Hno. now destruct (d_get "paths" sw).
Qed.

Lemma exclude_paths_without_rules_witness :
  exclude_paths (mkConfig None None None None None None)
                Fixture.swagger_with_history
  = Ok Fixture.swagger_with_history /\
  exclude_paths Fixture.yaml_file (JDict [("definitions", JDict [])])
  = Raise (KeyError "paths").
Proof.
  split.
  - eapply (proj1 (exclude_paths_without_rules _ _)); reflexivity.
  - eapply (proj2 (exclude_paths_without_rules _ _)); reflexivity.
Defined.

(* ===================================================================== *)
(** * Further properties: merging and looking up                           *)
(* ===================================================================== *)

Module MergePathsFacts.
Import DictFacts MergeFacts Gen.

Lemma d_get_update_absent {V} (k : string) (d o : dict V) :
  d_in k o = false -> d_get k (d_update d o) = d_get k d.
Proof.
  intro H. rewrite d_get_update.
  destruct (d_get k (rev o)) as [v|] eqn:E; [|reflexivity].
  exfalso. apply d_get_In in E. apply in_rev in E.
  apply In_d_in in E. congruence.
Qed.

Lemma d_get_update_present {V} (k : string) (v : V) (d o : dict V) :
  NoDup (d_keys o) -> In (k, v) o -> d_get k (d_update d o) = Some v.
Proof.
  intros Hnd Hin. rewrite d_get_update.
  assert (Hrev : d_get k (rev o) = Some v).
  { apply In_d_get.
    - unfold d_keys. rewrite map_rev. now apply NoDup_rev.
    - now apply in_rev in Hin. }
  now rewrite Hrev.
Qed.

Lemma In_d_set {V} (x : string * V) (k : string) (v : V) (d : dict V) :
  In x (d_set k v d) -> x = (k, v) \/ In x d.
Proof.
  induction d as [|[k' v'] d IH]; simpl.
  - intros [<-|[]]. now left.
  - destruct (String.eqb_spec k k') as [->|Hne]; simpl.
    + intros [<-|H]; auto.
    + intros [<-|H]; auto. destruct (IH H); auto.
Qed.

Lemma In_d_update {V} (x : string * V) (o : dict V) :
  forall d, In x (d_update d o) -> In x d \/ In x o.
Proof.
  unfold d_update. induction o as [|[k v] o IH]; intros d H; simpl in *.
  - now left.
  - destruct (IH _ H) as [H1|H1]; [|auto].
    destruct (In_d_set _ _ _ _ H1) as [->|H2]; auto.
Qed.

(** The rewrite builds its objects with [dict]: their keys differ. *)
Lemma rename_refs_NoDup (api : string) (v : json) (items : dict json) :
  rename_refs api v = JDict items -> NoDup (d_keys items).
Proof.
  destruct v; simpl; intro H; inversion H. apply NoDup_of_items.
Qed.

Lemma member_NoDup (api k : string) (spec : json) :
  NoDup (d_keys (member k (rename_refs api spec))).
Proof.
  unfold member. destruct spec as [| | | | |d]; try constructor.
  cbn [rename_refs].
  match goal with
  | |- context [d_get k ?x] => destruct (d_get k x) as [j|] eqn:E
  end; [|constructor].
  apply d_get_In in E. unfold d_of_items in E.
  apply In_d_update in E. destruct E as [[]|E].
  apply in_map_iff in E. destruct E as [[k' v'] [Heq _]].
  inversion Heq as [[Hk Hj]].
  destruct (rename_refs api v') as [| | | | |items] eqn:Hr; try constructor.
  eapply rename_refs_NoDup; eauto.
Qed.

(** The whole merge and the paths. *)
Lemma merge_apis_paths reparse (apis : list (string * api_entry)) :
  forall sw defs0 paths0,
    forallb rewritable apis = true ->
    forallb well_formed_api apis = true ->
    d_get "definitions" sw = Some (JDict defs0) ->
    d_get "paths" sw = Some (JDict paths0) ->
    exists sw',
      merge_apis reparse apis (JDict sw) = Ok (JDict sw') /\
      d_get "paths" sw' = Some (JDict (d_update paths0 (path_contributions apis))).
Proof.
  induction apis as [|entry apis IH]; intros sw defs0 paths0 Hrw Hwf Hd Hp.
  - exists sw. simpl. auto.
  - simpl in Hwf. apply andb_true_iff in Hwf. destruct Hwf as [Hw Hwf].
    simpl in Hrw. apply andb_true_iff in Hrw. destruct Hrw as [Hr Hrw].
    destruct (merge_api_ok reparse entry sw defs0 paths0 Hr Hw Hd Hp)
      as [sw1 [Hrun [Hd1 Hp1]]].
    destruct (IH sw1 _ _ Hrw Hwf Hd1 Hp1) as [sw' [Hrun' Hp']].
    exists sw'. split.
    + cbn [merge_apis]. rewrite Hrun. exact Hrun'.
    + rewrite Hp'. f_equal. f_equal.
      unfold path_contributions. cbn [flat_map].
      now rewrite d_update_app_r.
Qed.

Lemma path_contributions_absent (p : string) (apis : list (string * api_entry)) :
  (forall api e, In (api, e) apis -> d_in p (spec_paths api e) = false) ->
  d_in p (path_contributions apis) = false.
Proof.
  induction apis as [|[api e] apis IH]; intro H; [reflexivity|].
  unfold path_contributions. cbn [flat_map fst snd].
  destruct (d_in p (spec_paths api e ++ path_contributions apis)) eqn:E;
    [|unfold path_contributions in E; exact E].
  exfalso. apply d_in_keys in E. unfold d_keys in E. rewrite map_app in E.
  apply in_app_or in E. destruct E as [E|E].
  - assert (Hp : d_in p (spec_paths api e) = true) by now apply d_in_keys.
    rewrite (H api e) in Hp by now left. discriminate.
  - assert (Hp : d_in p (path_contributions apis) = true) by now apply d_in_keys.
    rewrite IH in Hp; [discriminate|]. intros a x Hin. apply H. now right.
Qed.

End MergePathsFacts.

Import MergePathsFacts.

(** X10.  For well-formed upstream specifications and upstream names
    the rewrite of the references can paste into the serialised text,
    the merged ['paths'] is the old one updated with the path
    items of every upstream in turn, a whole item at a time: a path that
    several upstreams expose ends up with the item of the last of them,
    and nothing of an earlier upstream's item for that path is left. *)
Theorem merge_takes_path_of_last_upstream :
  forall (reparse : string -> json -> result json)
         (apis : dict api_entry) (sw defs0 paths0 : dict json),
    forallb rewritable apis = true ->
    forallb well_formed_api apis = true ->
    d_get "definitions" sw = Some (JDict defs0) ->
    d_get "paths" sw = Some (JDict paths0) ->
    exists sw' paths',
      merge_apis reparse apis (JDict sw) = Ok (JDict sw') /\
      d_get "paths" sw' = Some (JDict paths') /\
      paths' = d_update paths0 (path_contributions apis) /\
      (forall earlier api e later p item,
          apis = earlier ++ (api, e) :: later ->
          In (p, item) (spec_paths api e) ->
          (forall api' e', In (api', e') later ->
                           d_in p (spec_paths api' e') = false) ->
          d_get p paths' = Some item) /\
      (forall p,
          (forall api e, In (api, e) apis -> d_in p (spec_paths api e) = false) ->
          d_get p paths' = d_get p paths0).
Proof.
  intros reparse apis sw defs0 paths0 Hrw Hwf Hd Hp.
  destruct (merge_apis_paths reparse apis sw defs0 paths0 Hrw Hwf Hd Hp)
    as [sw' [Hrun Hp']].
  exists sw', (d_update paths0 (path_contributions apis)).
  split; [exact Hrun|]. split; [exact Hp'|]. split; [reflexivity|]. split.
  - intros earlier api e later p item -> Hin Hlater.
    replace (path_contributions (earlier ++ (api, e) :: later))
      with ((path_contributions earlier ++ spec_paths api e)
              ++ path_contributions later).
    + rewrite d_update_app_r.
      rewrite d_get_update_absent by (now apply path_contributions_absent).
      rewrite d_update_app_r.
      apply d_get_update_present; [apply member_NoDup|exact Hin].
    + unfold path_contributions. rewrite flat_map_app. cbn [flat_map fst snd].
      now rewrite <- app_assoc.
  - intros p Hno. apply d_get_update_absent.
    now apply path_contributions_absent.
Qed.

Lemma merge_takes_path_of_last_upstream_witness :
  exists sw' paths',
    merge_apis
      (fun _ _ => Raise ValueError)
      [("a", mkApi (JDict [("paths", JDict [("/p", JDict [("get", JDict [])])])])
                   "http://a");
       ("b", mkApi (JDict [("paths", JDict [("/p", JDict [("post", JDict [])])])])
                   "http://b")]
      (Fixture.base_swagger Fixture.yaml_file) = Ok (JDict sw') /\
    d_get "paths" sw' = Some (JDict paths') /\
    d_get "/p" paths' = Some (JDict [("post", JDict [])]).
Proof.
  destruct (merge_takes_path_of_last_upstream
              (fun _ _ => Raise ValueError)
              [("a", mkApi (JDict [("paths", JDict [("/p", JDict [("get", JDict [])])])])
                           "http://a");
               ("b", mkApi (JDict [("paths", JDict [("/p", JDict [("post", JDict [])])])])
                           "http://b")]
              [("swagger", JStr "2.0");
               ("info", JDict [("version", JStr "0.1"); ("title", JStr "API Gateway")]);
               ("basePath", JStr "/v1");
               ("definitions", JDict []);
               ("paths", JDict [])]
              [] [])
    as [sw' [paths' [Hrun [Hp [_ [Hlast _]]]]]]; try reflexivity.
  exists sw', paths'. split; [exact Hrun|]. split; [exact Hp|].
  apply (Hlast
           [("a", mkApi (JDict [("paths", JDict [("/p", JDict [("get", JDict [])])])])
                        "http://a")]
           "b"
           (mkApi (JDict [("paths", JDict [("/p", JDict [("post", JDict [])])])])
                  "http://b")
           []).
  - reflexivity.
  - left. reflexivity.
  - intros api' e' [].
Defined.

(** X11.  For an upstream name without quote, backslash and control
    character, the rewrite turns a reference [#/definitions/name] into
    [#/definitions/] followed by the upstream's name and [name] (for a
    [name] that does not itself contain [#/definitions/]).  That is the
    key the definition is stored under exactly when [name] does not start
    with the upstream's name; a definition whose name starts with the
    name of its upstream keeps its key, and the rewritten references to
    it name a key that is not its own. *)
Theorem rewritten_reference_and_stored_name :
  forall (reparse : string -> json -> result json) api name,
    plain api = true ->
    str_contains definitions_ref name = false ->
    rewrite_refs reparse api (JStr (definitions_ref ++ name)) =
      Ok (JStr (definitions_ref ++ api ++ name)) /\
    (startswith name api = false -> stored_name api name = (api ++ name)%string) /\
    (startswith name api = true -> api <> EmptyString ->
     stored_name api name = name /\ (api ++ name)%string <> name).
Proof.
  intros reparse api name Hapi Hplain. split; [|split].
  - unfold rewrite_refs. rewrite Hapi. cbn [orb rename_refs].
    unfold renamed. do 2 f_equal.
    change (definitions_ref ++ name)%string
      with ("" ++ definitions_ref ++ name)%string.
    rewrite str_replace_first by (discriminate || reflexivity).
    rewrite str_replace_absent by exact Hplain.
    cbn [append]. apply append_assoc.
  - intro H. unfold stored_name. now rewrite H.
  - intros H Hne. unfold stored_name. rewrite H. split; [reflexivity|].
    intro Heq. apply (f_equal String.length) in Heq.
    rewrite length_append in Heq. destruct api; [congruence|simpl in Heq; lia].
Qed.

Lemma rewritten_reference_and_stored_name_witness :
  rewrite_refs (fun _ _ => Raise ValueError) "pet" (JStr "#/definitions/petStore") =
    Ok (JStr "#/definitions/petpetStore") /\
  stored_name "pet" "petStore" = "petStore" /\
  stored_name "pet" "Order" = "petOrder".
Proof.
  destruct (rewritten_reference_and_stored_name
              (fun _ _ => Raise ValueError) "pet" "petStore" eq_refl eq_refl)
    as [Href [_ Hkeep]].
  destruct (rewritten_reference_and_stored_name
              (fun _ _ => Raise ValueError) "pet" "Order" eq_refl eq_refl)
    as [_ [Hprefix _]].
  split; [exact Href|]. split.
  - apply Hkeep; [reflexivity|discriminate].
  - apply Hprefix. reflexivity.
Defined.

Module LookupFacts.
Import DictFacts Gen.

(** The inner loop stops at the first path of that name. *)
Lemma find_path_get (url action : string) (paths : list (string * json))
      (upstream_url : string) :
  find_path url action paths upstream_url =
  match d_get url paths with
  | Some path_spec =>
      operation <- py_getitem action path_spec ;;
      Ok (Some (operation, upstream_url))
  | None => Ok None
  end.
Proof.
  induction paths as [|[path_name path_spec] paths IH]; [reflexivity|].
  cbn [find_path d_get]. rewrite (String.eqb_sym url path_name).
  now destruct (String.eqb path_name url).
Qed.

Lemma raw_paths_items (e : api_entry) (paths : dict json) :
  raw_paths e = Some paths ->
  (paths' <- py_getitem "paths" (api_spec e) ;; py_items paths') = Ok paths.
Proof.
  unfold raw_paths. destruct (api_spec e) as [| | | | |d]; try discriminate.
  cbn [py_getitem]. unfold d_getitem.
  destruct (d_get "paths" d) as [[| | | | |p]|]; try discriminate.
  intro H. inversion H. reflexivity.
Qed.

Lemma get_spec_from_uri_step (name : string) (e : api_entry)
      (apis : dict api_entry) (url action : string) (paths : dict json) :
  raw_paths e = Some paths ->
  get_spec_from_uri ((name, e) :: apis) url action =
  match d_get url paths with
  | Some path_spec =>
      operation <- py_getitem action path_spec ;;
      Ok (Some (operation, api_url e))
  | None => get_spec_from_uri apis url action
  end.
Proof.
  intro Hraw. cbn [get_spec_from_uri].
  pose proof (raw_paths_items e paths Hraw) as Hitems.
  destruct (py_getitem "paths" (api_spec e)) as [p|err]; [|discriminate].
  cbn [bind] in *. rewrite Hitems. cbn [bind]. rewrite find_path_get.
  destruct (d_get url paths) as [path_spec|]; [|reflexivity].
  destruct (py_getitem action path_spec); reflexivity.
Qed.

Lemma get_spec_from_uri_skip (earlier : dict api_entry) (url action : string) :
  forall apis,
    (forall name e, In (name, e) earlier -> lacks_path url e) ->
    get_spec_from_uri (earlier ++ apis) url action =
    get_spec_from_uri apis url action.
Proof.
  induction earlier as [|[name e] earlier IH]; intros apis H; [reflexivity|].
  destruct (H name e) as [paths [Hraw Hno]]; [now left|].
  change (((name, e) :: earlier) ++ apis) with ((name, e) :: (earlier ++ apis)).
  rewrite (get_spec_from_uri_step name e _ url action paths Hraw).
  rewrite d_in_get in Hno. destruct (d_get url paths); [discriminate|].
  apply IH. intros n x Hin. apply (H n x). now right.
Qed.

End LookupFacts.

Import LookupFacts.



(** X13.  The merge and the lookup disagree about a path that two
    upstreams expose (the specifications being well-formed and the
    names such that the rewrite can paste them into the serialised
    text): the merged document shows the path item of the
    last upstream that has the path, while [get_spec_from_uri], which the
    handlers are bound with, answers with the operation and the URL of
    the first one. *)
Theorem shared_path_is_described_by_last_and_served_by_first :
  forall (reparse : string -> json -> result json)
         (earlier middle later : dict api_entry) A eA B eB
         (sw defs0 paths0 : dict json) p action pathsA itemA operation itemB,
    let apis := earlier ++ (A, eA) :: middle ++ (B, eB) :: later in
    forallb rewritable apis = true ->
    forallb well_formed_api apis = true ->
    d_get "definitions" sw = Some (JDict defs0) ->
    d_get "paths" sw = Some (JDict paths0) ->
    (forall name e, In (name, e) earlier -> lacks_path p e) ->
    raw_paths eA = Some pathsA ->
    d_get p pathsA = Some (JDict itemA) ->
    d_get action itemA = Some operation ->
    In (p, itemB) (spec_paths B eB) ->
    (forall name e, In (name, e) later -> d_in p (spec_paths name e) = false) ->
    exists sw' paths',
      merge_apis reparse apis (JDict sw) = Ok (JDict sw') /\
      d_get "paths" sw' = Some (JDict paths') /\
      d_get p paths' = Some itemB /\
      get_spec_from_uri apis p action = Ok (Some (operation, api_url eA)).
Proof.
  intros reparse earlier middle later A eA B eB sw defs0 paths0 p action pathsA
         itemA operation itemB apis Hrw Hwf Hd Hp Hearlier HrawA HpA HopA HinB
         Hlater.
  destruct (merge_apis_paths reparse apis sw defs0 paths0 Hrw Hwf Hd Hp)
    as [sw' [Hrun Hp']].
  exists sw', (d_update paths0 (path_contributions apis)).
  split; [exact Hrun|]. split; [exact Hp'|]. split.
  - subst apis.
    replace (earlier ++ (A, eA) :: middle ++ (B, eB) :: later)
      with ((earlier ++ (A, eA) :: middle) ++ (B, eB) :: later)
      by (rewrite <- app_assoc; reflexivity).
    replace (path_contributions ((earlier ++ (A, eA) :: middle) ++ (B, eB) :: later))
      with ((path_contributions (earlier ++ (A, eA) :: middle) ++ spec_paths B eB)
              ++ path_contributions later).
    + rewrite MergeFacts.d_update_app_r.
      rewrite d_get_update_absent by (now apply path_contributions_absent).
      rewrite MergeFacts.d_update_app_r.
      apply d_get_update_present; [apply member_NoDup|exact HinB].
    + unfold path_contributions. rewrite !flat_map_app. cbn [flat_map fst snd].
      now rewrite <- !app_assoc.
  - subst apis. rewrite get_spec_from_uri_skip by exact Hearlier.
    rewrite (get_spec_from_uri_step A eA _ p action pathsA HrawA), HpA.
    cbn [py_getitem]. unfold d_getitem. now rewrite HopA.
Qed.

Lemma shared_path_is_described_by_last_and_served_by_first_witness :
  let a := mkApi (JDict [("paths", JDict [("/p", JDict [("get", JStr "from a")])])])
                 "http://a" in
  let b := mkApi (JDict [("paths", JDict [("/p", JDict [("get", JStr "from b")])])])
                 "http://b" in
  exists sw' paths',
    merge_apis (fun _ _ => Raise ValueError)
               [("a", a); ("b", b)] (Fixture.base_swagger Fixture.yaml_file)
    = Ok (JDict sw') /\
    d_get "paths" sw' = Some (JDict paths') /\
    d_get "/p" paths' = Some (JDict [("get", JStr "from b")]) /\
    get_spec_from_uri [("a", a); ("b", b)] "/p" "get"
    = Ok (Some (JStr "from a", "http://a")).
Proof.
  intros a b.
  apply (shared_path_is_described_by_last_and_served_by_first
           (fun _ _ => Raise ValueError)
           [] [] [] "a" a "b" b
           [("swagger", JStr "2.0");
            ("info", JDict [("version", JStr "0.1"); ("title", JStr "API Gateway")]);
            ("basePath", JStr "/v1");
            ("definitions", JDict []);
            ("paths", JDict [])]
           [] [] "/p" "get"
           [("/p", JDict [("get", JStr "from a")])]
           [("get", JStr "from a")]
           (JStr "from a")
           (JDict [("get", JStr "from b")])); try reflexivity.
  - intros name e [].
  - left. reflexivity.
  - intros name e [].
Defined.

(* ===================================================================== *)
(** * Further properties: the operation identifiers                        *)
(* ===================================================================== *)

Module IdentifierFacts.
Import DictFacts ExcludePathsFacts Gen.

Section Binding.
Variable swagger_apis : dict api_entry.
Variable uuid : nat -> string.

Lemma record_app (l1 l2 : list (string * string)) :
  forall n tb,
    (forall op, In op l1 -> answered swagger_apis op) ->
    record swagger_apis uuid n (l1 ++ l2) tb =
    record swagger_apis uuid (n + List.length l1) l2
           (record swagger_apis uuid n l1 tb).
Proof.
  induction l1 as [|[path action] l1 IH]; intros n tb H.
  - simpl. now rewrite Nat.add_0_r.
  - destruct (H (path, action)) as [op [u Hop]]; [now left|]. simpl in Hop.
    cbn [app record]. rewrite Hop. rewrite IH.
    + f_equal. simpl. lia.
    + intros o Ho. apply H. now right.
Qed.

(** Binding further operations leaves alone what is bound under a name
    the further calls of [uuid] do not return. *)
Lemma record_frame (ops : list (string * string)) (key : string) :
  forall n tb,
    (forall i, (n <= i < n + List.length ops)%nat -> uuid i <> key) ->
    let tb' := record swagger_apis uuid n ops tb in
    d_get key (t_spec tb') = d_get key (t_spec tb) /\
    d_get key (t_uri tb') = d_get key (t_uri tb) /\
    d_get key (t_path tb') = d_get key (t_path tb) /\
    d_get key (t_action tb') = d_get key (t_action tb).
Proof.
  induction ops as [|[path action] ops IH]; intros n tb H; cbv zeta.
  - simpl. auto.
  - cbn [record].
    destruct (get_spec_from_uri swagger_apis path action) as [[[op u]|]|e]; auto.
    assert (Hn : key <> uuid n).
    { intro Heq. apply (H n); [simpl; lia|auto]. }
    destruct (IH (S n)
                 (mkTables (d_set (uuid n) op (t_spec tb))
                           (d_set (uuid n) u (t_uri tb))
                           (d_set (uuid n) path (t_path tb))
                           (d_set (uuid n) action (t_action tb))))
      as [H1 [H2 [H3 H4]]].
    { intros i Hi. apply H. simpl. lia. }
    cbn [t_spec t_uri t_path t_action] in *.
    rewrite H1, H2, H3, H4.
    rewrite !d_get_set_ne by exact Hn. auto.
Qed.

Lemma stamp_keys (actions : list (string * json)) :
  forall n, d_keys (stamp uuid n actions) = d_keys actions.
Proof.
  induction actions as [|[a sp] actions IH]; intro n; simpl; [reflexivity|].
  f_equal. apply IH.
Qed.

Lemma stamp_app (l1 l2 : list (string * json)) :
  forall n, stamp uuid n (l1 ++ l2) =
            stamp uuid n l1 ++ stamp uuid (n + List.length l1) l2.
Proof.
  induction l1 as [|[a sp] l1 IH]; intro n.
  - simpl. now rewrite Nat.add_0_r.
  - cbn [app stamp]. rewrite IH. simpl. f_equal. f_equal. f_equal. lia.
Qed.

Lemma stamp_paths_keys (paths : list (string * json)) :
  forall n, d_keys (stamp_paths uuid n paths) = d_keys paths.
Proof.
  induction paths as [|[p item] paths IH]; intro n; simpl; [reflexivity|].
  f_equal. apply IH.
Qed.

Lemma stamp_paths_app (l1 l2 : list (string * json)) :
  forall n, stamp_paths uuid n (l1 ++ l2) =
            stamp_paths uuid n l1 ++
            stamp_paths uuid (n + List.length (operations l1)) l2.
Proof.
  induction l1 as [|[p item] l1 IH]; intro n.
  - simpl. now rewrite Nat.add_0_r.
  - cbn [app stamp_paths]. rewrite IH. unfold operations. cbn [flat_map].
    rewrite length_app. simpl. f_equal. f_equal. f_equal. lia.
Qed.

Lemma d_in_same_keys {V W} (k : string) (d : dict V) (d' : dict W) :
  d_keys d = d_keys d' -> d_in k d = d_in k d'.
Proof.
  intro H. apply eq_true_iff_eq. rewrite !d_in_keys. now rewrite H.
Qed.

(** The loop over the operations of a path. *)
Lemma bind_actions_stamps (path : string) (actions : list (string * json)) :
  forall sdone n tb,
    NoDup (d_keys (sdone ++ actions)) ->
    (forall action action_spec,
        In (action, action_spec) actions ->
        is_object action_spec = true /\ answered swagger_apis (path, action)) ->
    bind_actions swagger_apis uuid path actions n tb (JDict (sdone ++ actions)) =
    Ok ((n + List.length actions)%nat,
        record swagger_apis uuid n (map (fun a => (path, fst a)) actions) tb,
        JDict (sdone ++ stamp uuid n actions)).
Proof.
  induction actions as [|[action action_spec] actions IH]; intros sdone n tb Hnd H.
  - simpl. now rewrite Nat.add_0_r.
  - destruct (H action action_spec) as [Hobj [op [u Hop]]]; [now left|].
    simpl in Hop. destruct action_spec as [| | | | |sp]; try discriminate.
    cbn [bind_actions map record fst]. rewrite Hop.
    cbn [bind py_setitem].
    rewrite d_set_middle by (eapply d_in_front; eauto).
    replace (sdone ++ (action, JDict (d_set "operationId"
                                            (JStr (operation_id (uuid n))) sp))
                   :: actions)
      with ((sdone ++ [(action, JDict (d_set "operationId"
                                             (JStr (operation_id (uuid n))) sp))])
              ++ actions)
      by (now rewrite <- app_assoc).
    rewrite IH.
    + cbn [stamp set_operation_id List.length]. rewrite <- app_assoc.
      simpl. repeat f_equal. lia.
    + unfold d_keys in *. rewrite !map_app in *. simpl in *.
      now rewrite <- app_assoc.
    + intros a s Hin. apply H. now right.
Qed.

(** The loop over the paths. *)
Lemma bind_paths_stamps (items : list (string * json)) :
  forall pdone n tb,
    NoDup (d_keys (pdone ++ items)) ->
    (forall path item,
        In (path, item) items ->
        exists actions,
          item = JDict actions /\ NoDup (d_keys actions) /\
          forall action action_spec,
            In (action, action_spec) actions ->
            is_object action_spec = true /\ answered swagger_apis (path, action)) ->
    bind_paths swagger_apis uuid items n tb (JDict (pdone ++ items)) =
    Ok ((n + List.length (operations items))%nat,
        record swagger_apis uuid n (operations items) tb,
        JDict (pdone ++ stamp_paths uuid n items)).
Proof.
  induction items as [|[path item] items IH]; intros pdone n tb Hnd H.
  - simpl. now rewrite Nat.add_0_r.
  - destruct (H path item) as [actions [-> [Hnd' Hact]]]; [now left|].
    cbn [bind_paths py_items bind].
    change (bind_actions swagger_apis uuid path actions n tb (JDict actions))
      with (bind_actions swagger_apis uuid path actions n tb
                         (JDict ([] ++ actions))).
    rewrite (bind_actions_stamps path actions [] n tb Hnd' Hact).
    cbn [bind py_setitem app].
    rewrite d_set_middle by (eapply d_in_front; eauto).
    replace (pdone ++ (path, JDict (stamp uuid n actions)) :: items)
      with ((pdone ++ [(path, JDict (stamp uuid n actions))]) ++ items)
      by (now rewrite <- app_assoc).
    rewrite IH.
    + unfold operations. cbn [flat_map item_operations fst snd stamp_paths].
      rewrite record_app.
      * rewrite length_app, !length_map, <- app_assoc. simpl.
        now rewrite Nat.add_assoc.
      * intros [p a] Hin. apply in_map_iff in Hin.
        destruct Hin as [[a' s'] [Heq Hin]]. inversion Heq; subst.
        apply (Hact _ _ Hin).
    + unfold d_keys in *. rewrite !map_app in *. simpl in *.
      now rewrite <- app_assoc.
    + intros p i Hin. apply H. now right.
Qed.

Lemma bindable_answered (paths : dict json) :
  bindable swagger_apis paths ->
  forall op, In op (operations paths) -> answered swagger_apis op.
Proof.
  intros [_ H] [p a] Hin. unfold operations in Hin.
  apply in_flat_map in Hin. destruct Hin as [[p' item] [Hin Hop]].
  destruct (H p' item Hin) as [actions [-> [_ Hact]]].
  unfold item_operations in Hop. simpl in Hop.
  apply in_map_iff in Hop. destruct Hop as [[a' s'] [Heq Ha]].
  inversion Heq; subst. apply (Hact _ _ Ha).
Qed.

(** What [assign_operation_ids] returns on such a document. *)
Lemma assign_operation_ids_stamps (sw paths : dict json) :
  d_get "paths" sw = Some (JDict paths) ->
  bindable swagger_apis paths ->
  assign_operation_ids swagger_apis uuid (JDict sw) =
  Ok (record swagger_apis uuid 0 (operations paths) no_tables,
      JDict (d_set "paths" (JDict (stamp_paths uuid 0 paths)) sw)).
Proof.
  intros Hp [Hnd H]. unfold assign_operation_ids.
  cbn [py_getitem]. unfold d_getitem. rewrite Hp. cbn [bind py_items].
  change (bind_paths swagger_apis uuid paths 0 no_tables (JDict paths))
    with (bind_paths swagger_apis uuid paths 0 no_tables (JDict ([] ++ paths))).
  rewrite (bind_paths_stamps paths [] 0 no_tables Hnd).
  - reflexivity.
  - intros path item Hin. destruct (H path item Hin) as [acts [-> [Hn Ha]]].
    exists acts. split; [reflexivity|]. split; [exact Hn|].
    intros a s Hs. destruct (Ha a s Hs) as [Ho [op [u Hop]]].
    split; [exact Ho|]. exists op, u. exact Hop.
Qed.

End Binding.

End IdentifierFacts.

Import IdentifierFacts.

(** X14.  On a document whose operations are objects that some upstream
    answers for, and with names from [uuid()] that do not repeat, the
    loop of [generate_swagger_json] gives every operation an identifier
    that leads back to it: the [operationId] written into the operation
    is [swagger_aggregator.] followed by a name under which the four
    tables of the handlers hold this operation's path, its method, and
    the operation and URL that [get_spec_from_uri] returned for it.  The
    paths of the document stay as they were. *)
Theorem operation_ids_lead_back_to_operations :
  forall (swagger_apis : dict api_entry) (uuid : nat -> string)
         (sw paths : dict json),
    d_get "paths" sw = Some (JDict paths) ->
    bindable swagger_apis paths ->
    (forall i j, (i < List.length (operations paths))%nat ->
                 (j < List.length (operations paths))%nat ->
                 uuid i = uuid j -> i = j) ->
    exists tb sw' paths',
      assign_operation_ids swagger_apis uuid (JDict sw) = Ok (tb, JDict sw') /\
      d_get "paths" sw' = Some (JDict paths') /\
      d_keys paths' = d_keys paths /\
      forall path actions action action_spec operation upstream_url,
        In (path, JDict actions) paths ->
        In (action, action_spec) actions ->
        get_spec_from_uri swagger_apis path action =
          Ok (Some (operation, upstream_url)) ->
        exists k item' spec',
          (k < List.length (operations paths))%nat /\
          d_get path paths' = Some (JDict item') /\
          d_get action item' = Some (JDict spec') /\
          d_get "operationId" spec' = Some (JStr (operation_id (uuid k))) /\
          d_get (uuid k) (t_path tb) = Some path /\
          d_get (uuid k) (t_action tb) = Some action /\
          d_get (uuid k) (t_spec tb) = Some operation /\
          d_get (uuid k) (t_uri tb) = Some upstream_url.
Proof.
  intros swagger_apis uuid sw paths Hp Hb Hinj.
  rewrite (assign_operation_ids_stamps swagger_apis uuid sw paths Hp Hb).
  eexists _, _, (stamp_paths uuid 0 paths).
  split; [reflexivity|]. split; [apply DictFacts.d_get_set_eq|].
  split; [apply stamp_paths_keys|].
  intros path actions action action_spec operation upstream_url Hpath Hact Hop.
  pose proof (bindable_answered swagger_apis paths Hb) as Hans.
  destruct Hb as [Hnd Hshape].
  destruct (Hshape path (JDict actions) Hpath) as [acts [Heq [Hnd' Hobj]]].
  inversion Heq; subst acts.
  destruct (Hobj action action_spec Hact) as [Hisobj _].
  destruct action_spec as [| | | | |sp]; try discriminate.
  destruct (in_split _ _ Hpath) as [pre [post Hsplit]].
  destruct (in_split _ _ Hact) as [apre [apost Hasplit]].
  set (k0 := List.length (operations pre)).
  set (k := (k0 + List.length apre)%nat).
  set (ops1 := operations pre ++ map (fun a => (path, fst a)) apre).
  set (ops2 := map (fun a : string * json => (path, fst a)) apost ++ operations post).
  assert (Hops : operations paths = ops1 ++ (path, action) :: ops2).
  { subst ops1 ops2. rewrite Hsplit. unfold operations.
    rewrite flat_map_app. cbn [flat_map item_operations fst snd].
    rewrite Hasplit, map_app. cbn [map fst]. now rewrite <- !app_assoc. }
  assert (Hk1 : List.length ops1 = k).
  { subst ops1 k k0. now rewrite length_app, length_map. }
  assert (HN : List.length (operations paths) = (S k + List.length ops2)%nat).
  { rewrite Hops, length_app. simpl. lia. }
  exists k, (stamp uuid k0 actions),
         (d_set "operationId" (JStr (operation_id (uuid k))) sp).
  split; [lia|]. split; [|split; [|split]].
  - rewrite Hsplit, stamp_paths_app. cbn [stamp_paths Nat.add].
    apply ExcludePathsFacts.d_get_middle.
    rewrite (d_in_same_keys path _ pre) by apply stamp_paths_keys.
    rewrite Hsplit in Hnd. eapply ExcludePathsFacts.d_in_front; eauto.
  - rewrite Hasplit, stamp_app. cbn [stamp set_operation_id]. fold k.
    apply ExcludePathsFacts.d_get_middle.
    rewrite (d_in_same_keys action _ apre) by apply stamp_keys.
    rewrite Hasplit in Hnd'. eapply ExcludePathsFacts.d_in_front; eauto.
  - apply DictFacts.d_get_set_eq.
  - rewrite Hops, record_app.
    + cbn [record Nat.add]. rewrite Hop, Hk1.
      pose proof (record_frame swagger_apis uuid ops2 (uuid k) (S k)
                    (mkTables
                       (d_set (uuid k) operation
                              (t_spec (record swagger_apis uuid 0 ops1 no_tables)))
                       (d_set (uuid k) upstream_url
                              (t_uri (record swagger_apis uuid 0 ops1 no_tables)))
                       (d_set (uuid k) path
                              (t_path (record swagger_apis uuid 0 ops1 no_tables)))
                       (d_set (uuid k) action
                              (t_action (record swagger_apis uuid 0 ops1 no_tables)))))
        as Hframe.
      cbv zeta in Hframe. cbn [t_spec t_uri t_path t_action] in Hframe.
      destruct Hframe as [H1 [H2 [H3 H4]]].
      { intros i Hi Heq'.
        assert (i = k) by (apply Hinj; [lia|lia|exact Heq']). lia. }
      rewrite H1, H2, H3, H4, !DictFacts.d_get_set_eq. auto.
    + intros op Hin. apply Hans. rewrite Hops. apply in_or_app. now left.
Qed.

Lemma operation_ids_lead_back_to_operations_witness :
  let apis := [("ingestion",
                mkApi (JDict [("paths",
                               JDict [("/items", JDict [("get", JDict []);
                                                         ("post", JDict [])])])])
                      "http://air/v1")] in
  let uuid := fun n => match n with O => "f0" | _ => "f1" end in
  exists tb sw' paths' item' spec',
    assign_operation_ids apis uuid
      (JDict [("paths", JDict [("/items", JDict [("get", JDict []);
                                                  ("post", JDict [])])])])
    = Ok (tb, JDict sw') /\
    d_get "paths" sw' = Some (JDict paths') /\
    d_get "/items" paths' = Some (JDict item') /\
    d_get "post" item' = Some (JDict spec') /\
    d_get "operationId" spec' = Some (JStr "swagger_aggregator.f1") /\
    d_get "f1" (t_path tb) = Some "/items" /\
    d_get "f1" (t_action tb) = Some "post" /\
    d_get "f1" (t_uri tb) = Some "http://air/v1".
Proof.
  intros apis uuid.
  destruct (operation_ids_lead_back_to_operations
              apis uuid
              [("paths", JDict [("/items", JDict [("get", JDict []);
                                                   ("post", JDict [])])])]
              [("/items", JDict [("get", JDict []); ("post", JDict [])])])
    as [tb [sw' [paths' [Hrun [Hp [_ Hall]]]]]].
  - reflexivity.
  - split; [repeat constructor; simpl; tauto|].
    intros path item [H|[]]. inversion H; subst.
    eexists. split; [reflexivity|]. split.
    + repeat constructor; simpl; intuition discriminate.
    + intros action action_spec [Ha|[Ha|[]]]; inversion Ha; subst;
        (split; [reflexivity|]); eexists; eexists; reflexivity.
  - intros [|[|i]] [|[|j]] Hi Hj Heq; simpl in *; try lia; try discriminate.
  - destruct (Hall "/items" [("get", JDict []); ("post", JDict [])]
                   "post" (JDict []) (JDict []) "http://air/v1")
      as [k [item' [spec' [Hk [H1 [H2 [H3 [H4 [H5 [_ H7]]]]]]]]]].
    + now left.
    + right. now left.
    + reflexivity.
    + assert (Hk1 : k = 1%nat).
      { destruct k as [|[|k]]; [|reflexivity|simpl in Hk; lia].
        exfalso.
        assert (H0 : d_get "f0" (t_action tb) = Some "get").
        { vm_compute in Hrun. inversion Hrun; subst. reflexivity. }
        simpl in H5. rewrite H0 in H5. discriminate. }
      subst k. exists tb, sw', paths', item', spec'. simpl in *. tauto.
Defined.

Module GenerateFacts.
Import DictFacts Gen.

Section Raising.
Variable swagger_apis : dict api_entry.
Variable uuid : nat -> string.

Lemma bind_actions_raises (path : string) (actions : list (string * json))
      action action_spec :
  In (action, action_spec) actions ->
  unbindable swagger_apis path action action_spec ->
  forall n tb path_spec,
  exists e, bind_actions swagger_apis uuid path actions n tb path_spec = Raise e.
Proof.
  intros Hin Hbad.
  induction actions as [|[a0 sp0] actions IH]; intros n tb path_spec;
    [destruct Hin|].
  cbn [bind_actions].
  destruct (get_spec_from_uri swagger_apis path a0) as [[[op u]|]|e] eqn:Hop;
    cbn [bind]; eauto.
  destruct (py_setitem "operationId" (JStr (operation_id (uuid n))) sp0)
    as [sp'|e] eqn:Hset; cbn [bind]; eauto.
  destruct (py_setitem a0 sp' path_spec) as [ps'|e]; cbn [bind]; eauto.
  destruct Hin as [Heq|Hin].
  - exfalso. inversion Heq as [[Ha0 Hs0]]. subst a0 sp0.
    destruct Hbad as [Hobj|Hnone].
    + destruct action_spec; simpl in Hobj, Hset; discriminate.
    + congruence.
  - now apply IH.
Qed.

Lemma bind_paths_raises (items : list (string * json)) path actions
      action action_spec :
  In (path, JDict actions) items ->
  In (action, action_spec) actions ->
  unbindable swagger_apis path action action_spec ->
  forall n tb paths,
  exists e, bind_paths swagger_apis uuid items n tb paths = Raise e.
Proof.
  intros Hin Hact Hbad.
  induction items as [|[p0 item0] items IH]; intros n tb paths; [destruct Hin|].
  cbn [bind_paths].
  destruct (py_items item0) as [acts0|e] eqn:Hitems; cbn [bind]; eauto.
  destruct (bind_actions swagger_apis uuid p0 acts0 n tb item0)
    as [[[n' tb'] ps']|e] eqn:Hrun; cbn [bind]; eauto.
  destruct (py_setitem p0 ps' paths) as [paths'|e]; cbn [bind]; eauto.
  destruct Hin as [Heq|Hin].
  - exfalso. inversion Heq as [[Hp0 Hi0]]. subst p0 item0.
    simpl in Hitems. inversion Hitems as [Ha]. subst acts0.
    destruct (bind_actions_raises path actions action action_spec Hact Hbad
                                  n tb (JDict actions)) as [e He].
    congruence.
  - now apply IH.
Qed.

End Raising.

Lemma remove_exclude_fields_keys (ef : dict (list string))
      (definitions items : list (string * json)) :
  remove_exclude_fields ef definitions = Ok items ->
  d_keys items = d_keys definitions.
Proof.
  revert items. induction definitions as [|[name spec] rest IH]; intros items H.
  - simpl in H. inversion H. reflexivity.
  - cbn [remove_exclude_fields] in H.
    destruct (treated ef (name, spec)) as [spec'|e]; [|discriminate].
    cbn [bind] in H.
    destruct (remove_exclude_fields ef rest) as [rest'|e]; [|discriminate].
    cbn [bind] in H. inversion H; subst. simpl. f_equal. now apply IH.
Qed.

Section Refused.
Variable args_dict : dict string.
Variable net : network.
Hypothesis refused : unreachable net.

Lemma fetch_api_refused (name url : string) (st : registry) :
  exists st',
    fetch_api args_dict net (name, url) st = (Ok tt, st') /\
    swagger_apis st' = swagger_apis st /\
    (forall u, In u (errors st) -> In u (errors st')) /\
    (d_in name (swagger_apis st) = false -> In url (errors st')).
Proof.
  unfold fetch_api, get_swagger_from_url.
  destruct (d_in name (swagger_apis st)) eqn:Hin.
  { exists st. repeat split; auto. discriminate. }
  destruct (refused (List.length (log st)) (swagger_json_url args_dict url))
    as [msg ->].
  cbn [errors swagger_apis log].
  destruct (existsb (String.eqb url) (errors st)) eqn:Hex;
    eexists; (split; [reflexivity|]); cbn [errors swagger_apis];
    (split; [reflexivity|]); split; auto.
  - intros _. now apply PassFacts.existsb_eqb_In.
  - intros u Hu. apply in_or_app. now left.
  - intros _. apply in_or_app. right. now left.
Qed.

Lemma fetch_apis_refused (apis : list (string * string)) :
  forall st,
  exists st',
    fetch_apis args_dict net apis st = (Ok tt, st') /\
    swagger_apis st' = swagger_apis st /\
    (forall u, In u (errors st) -> In u (errors st')) /\
    (forall name url, In (name, url) apis ->
                      d_in name (swagger_apis st) = false -> In url (errors st')).
Proof.
  induction apis as [|[name url] apis IH]; intro st.
  - exists st. repeat split; auto. intros ? ? [].
  - destruct (fetch_api_refused name url st) as [st1 [Hone [Hc [Hkeep Hnote]]]].
    destruct (IH st1) as [st' [Hrest [Hc' [Hkeep' Hnote']]]].
    exists st'. split; [|split; [|split]].
    + cbn [fetch_apis]. rewrite Hone. exact Hrest.
    + congruence.
    + auto.
    + intros n u [Heq|Hin] Hno.
      * inversion Heq; subst. auto.
      * apply (Hnote' n u Hin). now rewrite Hc.
Qed.

End Refused.

End GenerateFacts.

Import GenerateFacts.

(** X15.  The loop that assigns the identifiers treats every member of
    a path item as an operation.  If one of them is not an object (a
    [parameters] list shared by the operations of the path, say), or if
    no upstream exposes its path, [assign_operation_ids] raises instead
    of returning a document. *)
Theorem operation_ids_need_object_operations :
  forall (swagger_apis : dict api_entry) (uuid : nat -> string)
         (sw paths : dict json) path actions action action_spec,
    d_get "paths" sw = Some (JDict paths) ->
    In (path, JDict actions) paths ->
    In (action, action_spec) actions ->
    unbindable swagger_apis path action action_spec ->
    exists e, assign_operation_ids swagger_apis uuid (JDict sw) = Raise e.
Proof.
  intros swagger_apis uuid sw paths path actions action action_spec
         Hp Hin Hact Hbad.
  unfold assign_operation_ids. cbn [py_getitem]. unfold d_getitem.
  rewrite Hp. cbn [bind py_items].
  destruct (bind_paths_raises swagger_apis uuid paths path actions action
                              action_spec Hin Hact Hbad 0 no_tables (JDict paths))
    as [e ->].
  simpl. eauto.
Qed.

Lemma operation_ids_need_object_operations_witness :
  exists e,
    assign_operation_ids
      [("ingestion",
        mkApi (JDict [("paths",
                       JDict [("/items/{id}",
                               JDict [("parameters", JList [JDict []]);
                                      ("get", JDict [])])])])
              "http://air/v1")]
      (fun _ => "f")
      (JDict [("paths",
               JDict [("/items/{id}",
                       JDict [("parameters", JList [JDict []]);
                              ("get", JDict [])])])])
    = Raise e.
Proof.
  apply (operation_ids_need_object_operations
           _ _ _
           [("/items/{id}", JDict [("parameters", JList [JDict []]);
                                   ("get", JDict [])])]
           "/items/{id}"
           [("parameters", JList [JDict []]); ("get", JDict [])]
           "parameters" (JList [JDict []])).
  - reflexivity.
  - now left.
  - now left.
  - left. reflexivity.
Defined.

(** X16.  When every upstream refuses the connection, and the exclusion
    rules can be read, [generate_swagger_json] started with an empty
    cache has nothing to merge, to exclude or to bind: it hands the base
    document, with empty ['definitions'] and ['paths'], to
    [SwaggerParser] and writes it to [swagger.yaml], and it completes
    exactly when the parser accepts that document and the file can be
    written.  In every case the cache stays empty and the URL of every
    configured upstream is in [errors]. *)
Theorem unreachable_upstreams_give_empty_aggregate :
  forall reparse swagger_parser write_yaml cfg args_dict net uuid errs requests pe,
    unreachable net ->
    path_exclude cfg = Ok pe ->
    exists st',
      generate_swagger_json reparse swagger_parser write_yaml
                            cfg args_dict net uuid (mkRegistry [] errs requests) =
      (_ <- swagger_parser (Fixture.base_swagger cfg) ;;
       _ <- write_yaml (Fixture.base_swagger cfg) ;;
       Ok (mkGenerated no_tables (Fixture.base_swagger cfg)
                       (Fixture.base_swagger cfg)), st') /\
      swagger_apis st' = [] /\
      forall apis name url,
        cfg_apis cfg = Some apis -> In (name, url) apis -> In url (errors st').
Proof.
  intros reparse swagger_parser write_yaml cfg args_dict net uuid errs requests pe
         Hnet Hpe.
  set (st := mkRegistry [] errs requests).
  assert (Hfetch : exists st',
             get_aggregate_swagger cfg args_dict net st = (Ok [], st') /\
             swagger_apis st' = [] /\
             forall apis name url,
               cfg_apis cfg = Some apis -> In (name, url) apis ->
               In url (errors st')).
  { unfold get_aggregate_swagger. destruct (cfg_apis cfg) as [apis|] eqn:Hcfg.
    - destruct (fetch_apis_refused args_dict net Hnet apis st)
        as [st' [Hrun [Hc [_ Hnote]]]].
      exists st'. rewrite Hrun, Hc. repeat split; auto.
      intros apis' name url Heq Hin. inversion Heq; subst.
      apply (Hnote name url Hin). reflexivity.
    - exists st. repeat split; auto. intros ? ? ? Heq. discriminate. }
  destruct Hfetch as [st' [Hrun [Hc Hnote]]].
  exists st'. split; [|split; [exact Hc|exact Hnote]].
  unfold generate_swagger_json, merge_aggregates. rewrite Hrun.
  cbn [merge_apis]. rewrite Hc.
  unfold exclude_paths. rewrite Hpe. reflexivity.
Qed.

Lemma unreachable_upstreams_give_empty_aggregate_witness :
  exists st',
    generate_swagger_json
      (fun _ _ => Raise ValueError) (fun _ => Ok tt) (fun _ => Ok tt)
      Fixture.yaml_file Fixture.args_dict
      (fun _ _ => Raise (ConnectionError "refused")) (fun _ => "f")
      (mkRegistry [] [] []) =
    (Ok (mkGenerated no_tables (Fixture.base_swagger Fixture.yaml_file)
                     (Fixture.base_swagger Fixture.yaml_file)), st') /\
    In "http://ingestion_url/v1" (errors st').
Proof.
  destruct (unreachable_upstreams_give_empty_aggregate
              (fun _ _ => Raise ValueError) (fun _ => Ok tt) (fun _ => Ok tt)
              Fixture.yaml_file Fixture.args_dict
              (fun _ _ => Raise (ConnectionError "refused")) (fun _ => "f")
              [] []
              [("/identifications/{id}/history/", ["post"]);
               ("/identifications/", ["get"]);
               ("/ingestions/{id}/resources", ["delete"]);
               ("/ingestions/{id}", ["put"]);
               ("/ingestions", ["get"]);
               ("/identifications/{id}/source/audio_url", ["put"])])
    as [st' [Hrun [_ Hnote]]].
  - intros n url. eexists. reflexivity.
  - reflexivity.
  - exists st'. split; [exact Hrun|].
    apply (Hnote [("identifications", "http://identifications_url/v1");
                  ("ingestion", "http://ingestion_url/v1")] "ingestion").
    + reflexivity.
    + right. now left.
Defined.

(** X17.  Whenever [generate_swagger_json] completes (on well-formed
    upstream specifications under names the rewrite of the references
    can paste into the serialised text), the parser has accepted the
    document it was built from, and the document written to
    [swagger.yaml] is what the field exclusion makes of that one: it
    differs from it under ['definitions'] only, and there it has the
    same definition names in the same order, each definition being what
    the rule of its name leaves of it.  The field exclusion comes after
    the parser was built and touches nothing else, so the parser goes on
    knowing the excluded fields. *)
Theorem published_document_differs_in_definitions_only :
  forall reparse swagger_parser write_yaml cfg args_dict net uuid st g st',
    generate_swagger_json reparse swagger_parser write_yaml
                          cfg args_dict net uuid st = (Ok g, st') ->
    forallb rewritable (swagger_apis st') = true ->
    forallb well_formed_api (swagger_apis st') = true ->
    exists parsed written defs defs',
      g_parser g = JDict parsed /\
      g_yaml g = JDict written /\
      swagger_parser (g_parser g) = Ok tt /\
      exclude_fields_step cfg (g_parser g) = Ok (g_yaml g) /\
      (forall k, k <> "definitions" -> d_get k written = d_get k parsed) /\
      d_get "definitions" parsed = Some (JDict defs) /\
      d_get "definitions" written = Some (JDict defs') /\
      d_keys defs' = d_keys defs /\
      remove_exclude_fields (exclude_fields_of_config cfg) defs = Ok defs'.
Proof.
  intros reparse swagger_parser write_yaml cfg args_dict net uuid st g st' H _ _.
  unfold generate_swagger_json in H.
  destruct (merge_aggregates reparse cfg args_dict net st (Fixture.base_swagger cfg))
    as [[merged|e] st1]; [|discriminate].
  destruct (exclude_paths cfg merged) as [excluded|e]; [|discriminate].
  cbn [bind] in H.
  destruct (assign_operation_ids (swagger_apis st1) uuid excluded)
    as [[tb doc]|e]; [|discriminate].
  cbn [bind] in H.
  destruct (swagger_parser doc) as [[]|e] eqn:Hparser; [|discriminate].
  cbn [bind] in H.
  destruct (exclude_fields_step cfg doc) as [final|e] eqn:Hstep; [|discriminate].
  cbn [bind] in H.
  destruct (write_yaml final) as [[]|e]; [|discriminate].
  cbn [bind] in H. inversion H; subst g st1. cbn [g_parser g_yaml].
  pose proof Hstep as Hstep'.
  unfold exclude_fields_step in Hstep.
  destruct doc as [| | | | |parsed]; try discriminate.
  cbn [py_getitem] in Hstep. unfold d_getitem in Hstep.
  destruct (d_get "definitions" parsed) as [definitions|] eqn:Hd; [|discriminate].
  cbn [bind] in Hstep.
  destruct definitions as [| | | | |defs]; try discriminate.
  cbn [py_items bind] in Hstep.
  destruct (remove_exclude_fields (exclude_fields_of_config cfg) defs)
    as [items|e] eqn:Hrem; [|discriminate].
  cbn [bind py_setitem] in Hstep. inversion Hstep; subst final.
  exists parsed, (d_set "definitions" (JDict items) parsed), defs, items.
  split; [reflexivity|]. split; [reflexivity|]. split; [exact Hparser|].
  split; [exact Hstep'|]. split; [|split; [|split; [|split]]].
  - intros k Hk. now apply d_get_set_ne.
  - exact Hd.
  - apply d_get_set_eq.
  - eapply remove_exclude_fields_keys; eauto.
  - exact Hrem.
Qed.

Lemma published_document_differs_in_definitions_only_witness :
  generate_swagger_json
    (fun _ _ => Raise ValueError) (fun _ => Ok tt) (fun _ => Ok tt)
    Fixture.yaml_file Fixture.args_dict
    (fun _ _ => Raise (ConnectionError "refused")) (fun _ => "f0") cached_test
  = (Ok published_test, cached_test) /\
  g_yaml published_test <> g_parser published_test /\
  exists parsed written defs defs',
    g_parser published_test = JDict parsed /\
    g_yaml published_test = JDict written /\
    d_get "paths" written = d_get "paths" parsed /\
    d_get "definitions" parsed = Some (JDict defs) /\
    d_get "definitions" written = Some (JDict defs') /\
    d_keys defs' = d_keys defs.
Proof.
  split; [reflexivity|]. split; [discriminate|].
  destruct (published_document_differs_in_definitions_only
              (fun _ _ => Raise ValueError) (fun _ => Ok tt) (fun _ => Ok tt)
              Fixture.yaml_file Fixture.args_dict
              (fun _ _ => Raise (ConnectionError "refused")) (fun _ => "f0")
              cached_test published_test cached_test
              eq_refl eq_refl eq_refl)
    as [parsed [written [defs [defs' [Hp [Hw [_ [_ [Hsame [Hd [Hd' [Hk _]]]]]]]]]]]].
  exists parsed, written, defs, defs'.
  split; [exact Hp|]. split; [exact Hw|]. split; [apply Hsame; discriminate|].
  split; [exact Hd|]. split; [exact Hd'|exact Hk].
Defined.


(* ===================================================================== *)
(** * Further properties: [filter_definition]                              *)
(* ===================================================================== *)

Module RedactFacts.
Import DictFacts FilterFacts Gen.

Lemma mapM_fuel_ext {A B} (f g : A -> option (result B)) (l : list A) :
  (forall x, In x l -> f x = g x) -> mapM_fuel f l = mapM_fuel g l.
Proof.
  induction l as [|x l IH]; intro H; [reflexivity|].
  cbn [mapM_fuel]. rewrite (H x) by now left.
  rewrite IH; [reflexivity|]. intros y Hy. apply H. now right.
Qed.

Lemma mapM_fuel_same {A} (f : A -> option (result A)) (l : list A) :
  (forall x, In x l -> f x = Some (Ok x)) -> mapM_fuel f l = Some (Ok l).
Proof.
  induction l as [|x l IH]; intro H; [reflexivity|].
  cbn [mapM_fuel]. rewrite (H x) by now left.
  rewrite IH; [reflexivity|]. intros y Hy. apply H. now right.
Qed.

Lemma mapM_fuel_Forall2 {A B} (f : A -> option (result B)) (l : list A) :
  forall l', mapM_fuel f l = Some (Ok l') ->
             Forall2 (fun x y => f x = Some (Ok y)) l l'.
Proof.
  induction l as [|x l IH]; intros l' H.
  - simpl in H. inversion H. constructor.
  - cbn [mapM_fuel] in H. destruct (f x) as [[y|e]|] eqn:Hx; try discriminate.
    destruct (mapM_fuel f l) as [[r|e]|]; try discriminate.
    inversion H; subst. constructor; auto.
Qed.

Lemma Forall2_weaken_In {A B} (R R' : A -> B -> Prop) (l : list A) (l' : list B) :
  Forall2 R l l' ->
  (forall x y, In x l -> R x y -> R' x y) ->
  Forall2 R' l l'.
Proof.
  induction 1 as [|x y l l' Hxy HF IH]; intro H; constructor.
  - apply H; [now left|exact Hxy].
  - apply IH. intros a b Ha. apply H. now right.
Qed.

Section Redact.
Variable cfg : config.
Variable get_dict_definition : json -> option string.

#[local] Abbreviation filter_fuel := (filter_definition_fuel cfg get_dict_definition).
#[local] Abbreviation redact := (filter_definition cfg get_dict_definition).
#[local] Abbreviation listed := (keys_to_remove cfg get_dict_definition).

(** The entry of an object, with its value redacted. *)
#[local] Abbreviation on_entry f :=
  (fun kv : string * json =>
     match kv with
     | (k, v) => match f v with
                 | None => None
                 | Some (Raise e) => Some (Raise e)
                 | Some (Ok v') => Some (Ok (k, v'))
                 end
     end).

(** More fuel than the depth of the document changes nothing. *)
Lemma filter_fuel_stable (n : nat) :
  forall m doc, (depth doc < n)%nat -> (depth doc < m)%nat ->
                filter_fuel n doc = filter_fuel m doc.
Proof.
  induction n as [|n IH]; intros m doc Hn Hm; [lia|].
  destruct m as [|m]; [lia|].
  destruct doc as [| | | |l|d]; try reflexivity.
  - cbn [filter_definition_fuel].
    rewrite (mapM_fuel_ext (filter_fuel n) (filter_fuel m)); [reflexivity|].
    intros x Hx. pose proof (depth_element l x Hx). apply IH; lia.
  - cbn [filter_definition_fuel].
    destruct (del_keys (listed (JDict d)) d) as [d1|e] eqn:E; [|reflexivity].
    rewrite (mapM_fuel_ext (on_entry (filter_fuel n)) (on_entry (filter_fuel m)));
      [reflexivity|].
    intros [k v] Hx. pose proof (del_keys_In _ _ _ E _ Hx) as Hin.
    pose proof (depth_item d k v Hin). rewrite (IH m v); [reflexivity|lia|lia].
Qed.

Lemma filter_fuel_element (l : list json) (x : json) :
  In x l -> filter_fuel (depth (JList l)) x = redact x.
Proof.
  intro H. unfold filter_definition. pose proof (depth_element l x H).
  apply filter_fuel_stable; lia.
Qed.

Lemma filter_fuel_value (d : dict json) (k : string) (v : json) :
  In (k, v) d -> filter_fuel (depth (JDict d)) v = redact v.
Proof.
  intro H. unfold filter_definition. pose proof (depth_item d k v H).
  apply filter_fuel_stable; lia.
Qed.




Lemma filter_all (P : string * json -> bool) (d : dict json) :
  (forall x, In x d -> P x = true) -> filter P d = d.
Proof.
  induction d as [|x d IH]; intro H; [reflexivity|].
  simpl. rewrite (H x) by now left. f_equal. apply IH.
  intros y Hy. apply H. now right.
Qed.

(** [del d[k]] on an object with keys that differ. *)
Lemma d_del_filter (k : string) (d : dict json) :
  forall d',
    NoDup (d_keys d) -> d_del k d = Ok d' ->
    d' = filter (fun kv => negb (String.eqb (fst kv) k)) d /\ d_in k d = true.
Proof.
  induction d as [|[k2 v2] d IH]; intros d' Hnd H; [discriminate|].
  inversion Hnd as [|? ? Hni Hnd']; subst.
  cbn [d_del] in H. cbn [filter d_in fst].
  rewrite (String.eqb_sym k2 k).
  destruct (String.eqb_spec k k2) as [->|Hne].
  - inversion H; subst. split; [|reflexivity]. simpl. symmetry.
    apply filter_all. intros [k3 v3] Hin. simpl.
    apply negb_true_iff, String.eqb_neq. intros ->. apply Hni.
    apply in_map_iff. exists (k2, v3). auto.
  - destruct (d_del k d) as [r|e] eqn:E; [|discriminate].
    cbn [bind] in H. inversion H; subst.
    destruct (IH r Hnd' eq_refl) as [-> Hin]. simpl. auto.
Qed.

Lemma filter_twice (P Q : string * json -> bool) (d : dict json) :
  filter Q (filter P d) = filter (fun x => P x && Q x) d.
Proof.
  induction d as [|x d IH]; [reflexivity|].
  simpl. destruct (P x); simpl; [destruct (Q x)|]; now rewrite IH.
Qed.

(** The loop [for key in keys_to_remove: del doc[key]] succeeds exactly
    on keys that are there, each listed once. *)
Lemma del_keys_filter (keys : list string) :
  forall d d1,
    NoDup (d_keys d) -> del_keys keys d = Ok d1 ->
    d1 = filter (fun kv => negb (existsb (String.eqb (fst kv)) keys)) d /\
    NoDup keys /\
    forall k, In k keys -> d_in k d = true.
Proof.
  induction keys as [|key keys IH]; intros d d1 Hnd H.
  - simpl in H. inversion H; subst. split; [|split].
    + symmetry. now apply filter_all.
    + constructor.
    + intros k [].
  - cbn [del_keys] in H. destruct (d_del key d) as [d0|e] eqn:E; [|discriminate].
    cbn [bind] in H. destruct (d_del_filter key d d0 Hnd E) as [-> Hin].
    destruct (IH _ d1 (NoDup_filter _ d Hnd) H) as [-> [Hnd' Hall]].
    assert (Hsub : forall k, d_in k (filter (fun kv => negb (String.eqb (fst kv) key)) d)
                             = true -> d_in k d = true /\ k <> key).
    { intros k Hk. apply d_in_keys in Hk. unfold d_keys in Hk.
      apply in_map_iff in Hk. destruct Hk as [[k' v'] [Heq Hk]]. simpl in Heq.
      subst k'. apply filter_In in Hk. destruct Hk as [Hk Hne]. simpl in Hne.
      apply negb_true_iff, String.eqb_neq in Hne. split; [|exact Hne].
      apply d_in_keys. apply in_map_iff. exists (k, v'). auto. }
    split; [|split].
    + rewrite filter_twice. apply filter_ext. intros [k v]. simpl.
      now rewrite negb_orb.
    + constructor; [|exact Hnd'].
      intro Hk. destruct (Hsub key (Hall key Hk)) as [_ Hne]. congruence.
    + intros k [<-|Hk]; [exact Hin|]. apply (Hsub k (Hall k Hk)).
Qed.

End Redact.

End RedactFacts.

Import RedactFacts.



(** X19.  On a sequence [filter_definition] either raises or returns a
    sequence of the same length whose element at each position is the
    redaction of the element at that position. *)
Theorem filter_definition_list_elementwise :
  forall cfg get_dict_definition (l : list json) (r : json),
    filter_definition cfg get_dict_definition (JList l) = Some (Ok r) ->
    exists l',
      r = JList l' /\
      List.length l' = List.length l /\
      Forall2 (fun x x' =>
                 filter_definition cfg get_dict_definition x = Some (Ok x')) l l'.
Proof.
  intros cfg resolve l r H. unfold filter_definition in H.
  cbn [filter_definition_fuel] in H.
  destruct (mapM_fuel (filter_definition_fuel cfg resolve (depth (JList l))) l)
    as [[l'|e]|] eqn:E; try discriminate.
  inversion H; subst r. exists l'. split; [reflexivity|].
  apply mapM_fuel_Forall2 in E.
  assert (HF : Forall2 (fun x x' => filter_definition cfg resolve x = Some (Ok x'))
                       l l').
  { apply (Forall2_weaken_In _ _ _ _ E). intros x x' Hin Hx.
    now rewrite <- (filter_fuel_element cfg resolve l x Hin). }
  split; [|exact HF]. symmetry. eapply Forall2_length; eauto.
Qed.

Lemma filter_definition_list_elementwise_witness :
  exists l',
    JList [JDict [("test", JStr "456"); ("sub", JDict [("test", JStr "147")])]]
    = JList l' /\
    List.length l' = 1%nat.
Proof.
  destruct (filter_definition_list_elementwise
              Fixture.yaml_file Fixture.resolve_test
              [JDict [("id", JStr "123");
                      ("test", JStr "456");
                      ("sub", JDict [("id", JStr "789"); ("test", JStr "147")])]]
              (JList [JDict [("test", JStr "456");
                             ("sub", JDict [("test", JStr "147")])]])
              eq_refl) as [l' [Heq [Hlen _]]].
  exists l'. split; [exact Heq|exact Hlen].
Defined.

(** X20.  When [filter_definition] returns from an object (with keys
    that differ, as every JSON object has), every field listed for its
    schema was there and was listed once, and the result is an object
    that holds, in the same order, exactly the fields that are not
    listed, each with its value redacted. *)
Theorem filter_definition_object_fields :
  forall cfg get_dict_definition (d : dict json) (r : json),
    NoDup (d_keys d) ->
    filter_definition cfg get_dict_definition (JDict d) = Some (Ok r) ->
    let keys := keys_to_remove cfg get_dict_definition (JDict d) in
    let kept := filter (fun kv => negb (existsb (String.eqb (fst kv)) keys)) d in
    exists d',
      r = JDict d' /\
      NoDup keys /\
      (forall k, In k keys -> d_in k d = true) /\
      d_keys d' = d_keys kept /\
      Forall2 (fun kv kv' =>
                 fst kv' = fst kv /\
                 filter_definition cfg get_dict_definition (snd kv) =
                 Some (Ok (snd kv'))) kept d'.
Proof.
  intros cfg resolve d r Hnd H keys kept. unfold filter_definition in H.
  cbn [filter_definition_fuel] in H. fold keys in H.
  destruct (del_keys keys d) as [d1|e] eqn:E; [|discriminate].
  destruct (del_keys_filter keys d d1 Hnd E) as [Hd1 [Hk Hall]].
  fold kept in Hd1. subst d1.
  match type of H with
  | context [mapM_fuel ?f kept] => destruct (mapM_fuel f kept) as [[d'|e]|] eqn:M
  end; try discriminate.
  inversion H; subst r. exists d'. split; [reflexivity|].
  split; [exact Hk|]. split; [exact Hall|].
  apply mapM_fuel_Forall2 in M.
  assert (HF : Forall2 (fun kv kv' =>
                          fst kv' = fst kv /\
                          filter_definition cfg resolve (snd kv) = Some (Ok (snd kv')))
                       kept d').
  { apply (Forall2_weaken_In _ _ _ _ M). intros [k v] [k' v'] Hin Hx.
    apply filter_In in Hin. destruct Hin as [Hin _]. simpl.
    destruct (filter_definition_fuel cfg resolve (depth (JDict d)) v)
      as [[w|e]|] eqn:Hv; try discriminate.
    inversion Hx; subst. split; [reflexivity|].
    now rewrite <- (filter_fuel_value cfg resolve d k' v Hin). }
  split; [|exact HF].
  clear -HF. induction HF as [|[k v] [k' v'] l l' [Hk _] HF IH]; [reflexivity|].
  simpl in *. now rewrite Hk, IH.
Qed.

Lemma filter_definition_object_fields_witness :
  exists d',
    JDict [("sub", JDict [("test", JStr "147")]); ("test", JStr "456")] = JDict d' /\
    d_keys d' = ["sub"; "test"].
Proof.
  destruct (filter_definition_object_fields
              Fixture.yaml_file Fixture.resolve_test
              [("sub", JDict [("id", JStr "789"); ("test", JStr "147")]);
               ("id", JStr "123");
               ("test", JStr "456")]
              (JDict [("sub", JDict [("test", JStr "147")]); ("test", JStr "456")]))
    as [d' [Heq [_ [_ [Hkeys _]]]]].
  - repeat constructor; simpl; intuition discriminate.
  - reflexivity.
  - exists d'. split; [exact Heq|]. rewrite Hkeys. reflexivity.
Defined.

(* ===================================================================== *)
(** * Further properties: the URL a handler requests                       *)
(* ===================================================================== *)

Module UrlFacts.
Import DictFacts Gen.

Lemma occurs_append (c : ascii) (a b : string) :
  occurs c (a ++ b)%string = occurs c a || occurs c b.
Proof.
  induction a as [|x a IH]; [reflexivity|].
  simpl. now rewrite IH, orb_assoc.
Qed.

Lemma after_first_append (c : ascii) (a r : string) :
  occurs c a = false -> after_first c (a ++ String c r)%string = Some r.
Proof.
  induction a as [|x a IH]; simpl; intro H.
  - now rewrite Ascii.eqb_refl.
  - apply orb_false_iff in H. destruct H as [Hx Ha]. rewrite Hx. now apply IH.
Qed.

Lemma before_last_absent (c : ascii) (b : string) :
  occurs c b = false -> before_last c b = None.
Proof.
  induction b as [|x b IH]; simpl; intro H; [reflexivity|].
  apply orb_false_iff in H. destruct H as [Hx Hb].
  now rewrite (IH Hb), Hx.
Qed.

Lemma before_last_append (c : ascii) (k b : string) :
  occurs c b = false -> before_last c (k ++ String c b)%string = Some k.
Proof.
  intro H. induction k as [|x k IH]; simpl.
  - now rewrite (before_last_absent c b H), Ascii.eqb_refl.
  - now rewrite IH.
Qed.

Lemma split_one_line (s : string) :
  occurs newline s = false -> split newline s = [s].
Proof.
  induction s as [|x s IH]; simpl; intro H; [reflexivity|].
  apply orb_false_iff in H. destruct H as [Hx Hs].
  now rewrite Hx, (IH Hs).
Qed.

(** The group [findall] finds around a single placeholder. *)
Lemma brace_group_single (a k b : string) :
  k <> EmptyString ->
  occurs "{" a = false -> occurs "}" b = false ->
  brace_group (a ++ "{" ++ k ++ "}" ++ b)%string = Some k.
Proof.
  intros Hk Ha Hb. unfold brace_group.
  change ("{" ++ k ++ "}" ++ b)%string with (String "{" (k ++ String "}" b)).
  rewrite (after_first_append _ a _ Ha), (before_last_append _ k b Hb).
  destruct k; [congruence|reflexivity].
Qed.

Lemma first_at_fresh (c : ascii) (k a b : string) :
  occurs c a = false -> first_at (String c k) a b = true.
Proof.
  induction a as [|x a IH]; intro H; [reflexivity|].
  simpl in H. apply orb_false_iff in H. destruct H as [Hx Ha].
  cbn [first_at]. rewrite (IH Ha), andb_true_r.
  change (String x a ++ String c k ++ b)%string
    with (String x (a ++ String c k ++ b)).
  cbn [prefix]. destruct (ascii_dec c x) as [->|]; [|reflexivity].
  now rewrite Ascii.eqb_refl in Hx.
Qed.

(** A string without [c] holds no occurrence of a string with [c]. *)
Lemma str_contains_fresh (c : ascii) (old b : string) :
  occurs c old = true -> occurs c b = false -> str_contains old b = false.
Proof.
  intros Ho Hb. destruct (str_contains old b) eqn:E; [|reflexivity].
  destruct (str_contains_first _ _ E) as [x [y [-> _]]].
  rewrite !occurs_append, Ho, orb_true_r in Hb. discriminate.
Qed.

Section Inner.
Variable kwargs : dict string.
Variable path_param : string.

(** The inner loop [for k, v in kwargs.items()] for one group. *)
#[local] Abbreviation inner :=
  (fold_left (fun (url : string) (kv : string * string) =>
                if String.eqb (fst kv) path_param
                then str_replace url ("{" ++ fst kv ++ "}") (snd kv)
                else url)).

Lemma inner_absent :
  forall url, d_in path_param kwargs = false -> inner kwargs url = url.
Proof.
  induction kwargs as [|[k v] kw IH]; intros url H; [reflexivity|].
  simpl in H. apply orb_false_iff in H. destruct H as [Hk Hkw].
  cbn [fold_left fst snd]. rewrite String.eqb_sym, Hk. now apply IH.
Qed.

End Inner.

Lemma inner_present (kwargs : dict string) (path_param : string) :
  forall url,
    NoDup (d_keys kwargs) ->
    fold_left (fun (url : string) (kv : string * string) =>
                 if String.eqb (fst kv) path_param
                 then str_replace url ("{" ++ fst kv ++ "}") (snd kv)
                 else url) kwargs url =
    match d_get path_param kwargs with
    | Some v => str_replace url ("{" ++ path_param ++ "}") v
    | None => url
    end.
Proof.
  induction kwargs as [|[k v] kw IH]; intros url Hnd; [reflexivity|].
  inversion Hnd as [|? ? Hni Hnd']; subst.
  cbn [fold_left fst snd d_get]. rewrite (String.eqb_sym path_param k).
  destruct (String.eqb_spec k path_param) as [->|Hne].
  - apply inner_absent.
    destruct (d_in path_param kw) eqn:E; [|reflexivity].
    apply d_in_keys in E. contradiction.
  - now apply IH.
Qed.

End UrlFacts.

Import UrlFacts.

(** X21.  A URL with one placeholder.  When the URL [func] puts together
    is one line [a{k}b] with no opening brace before the placeholder and
    no closing brace behind it, [build_url] puts the keyword argument
    named [k] in the place of [{k}] and changes nothing else; without
    such an argument the URL stays as it is.  A closing brace in the
    query string takes the URL out of this case. *)
Theorem build_url_single_placeholder :
  forall (uri path query_string : string) (kwargs : dict string) (a k b : string),
    (uri ++ path ++ "?" ++ query_string)%string = (a ++ "{" ++ k ++ "}" ++ b)%string ->
    k <> EmptyString ->
    occurs "{" a = false ->
    occurs "}" b = false ->
    occurs newline (a ++ "{" ++ k ++ "}" ++ b) = false ->
    NoDup (d_keys kwargs) ->
    build_url uri path query_string kwargs =
    match d_get k kwargs with
    | Some v => (a ++ v ++ b)%string
    | None => (a ++ "{" ++ k ++ "}" ++ b)%string
    end.
Proof.
  intros uri path qs kwargs a k b Hurl Hk Ha Hb Hnl Hnd.
  unfold build_url. rewrite Hurl. unfold substitute_params, findall_braces.
  rewrite (split_one_line _ Hnl). cbn [flat_map].
  rewrite (brace_group_single a k b Hk Ha Hb). cbn [app fold_left].
  rewrite (inner_present kwargs k _ Hnd).
  destruct (d_get k kwargs) as [v|]; [|reflexivity].
  replace (a ++ "{" ++ k ++ "}" ++ b)%string
    with (a ++ ("{" ++ k ++ "}") ++ b)%string
    by (simpl; now rewrite append_assoc).
  rewrite str_replace_first.
  - rewrite str_replace_absent; [reflexivity|].
    apply (str_contains_fresh "}"); [|exact Hb].
    change ("{" ++ k ++ "}")%string with (String "{" (k ++ "}")).
    simpl. rewrite occurs_append. simpl. now rewrite orb_true_r.
  - discriminate.
  - change ("{" ++ k ++ "}")%string with (String "{" (k ++ "}")).
    now apply first_at_fresh.
Qed.

Lemma build_url_single_placeholder_witness :
  build_url "http://air/v1" "/ingestions/{id}/resources" "full=1" [("id", "42")]
  = "http://air/v1/ingestions/42/resources?full=1".
Proof.
  apply (build_url_single_placeholder
           "http://air/v1" "/ingestions/{id}/resources" "full=1" [("id", "42")]
           "http://air/v1/ingestions/" "id" "/resources?full=1").
  - reflexivity.
  - discriminate.
  - reflexivity.
  - reflexivity.
  - reflexivity.
  - repeat constructor; simpl; intuition discriminate.
Defined.

(** X22.  [build_url] changes the URL only through a keyword argument
    that is named exactly like a group [findall] found: when no group is
    the name of an argument (no braces in the URL, or a group that runs
    over several placeholders), the handler requests the URL as it was
    put together. *)
Theorem build_url_changes_named_groups_only :
  forall (uri path query_string : string) (kwargs : dict string),
    (forall g, In g (findall_braces (uri ++ path ++ "?" ++ query_string)) ->
               d_in g kwargs = false) ->
    build_url uri path query_string kwargs =
    (uri ++ path ++ "?" ++ query_string)%string.
Proof.
  intros uri path qs kwargs. unfold build_url, substitute_params.
  generalize (findall_braces (uri ++ path ++ "?" ++ qs)).
  generalize (uri ++ path ++ "?" ++ qs)%string.
  intros url gs. induction gs as [|g gs IH]; intro H; [reflexivity|].
  cbn [fold_left]. rewrite (inner_absent kwargs g url) by (apply H; now left).
  apply IH. intros g' Hg'. apply H. now right.
Qed.

Lemma build_url_changes_named_groups_only_witness :
  build_url "http://air/v1" "/ingestions/{id}/resources/{rid}" "full=1"
            [("id", "42"); ("rid", "7")]
  = "http://air/v1/ingestions/{id}/resources/{rid}?full=1".
Proof.
  apply (build_url_changes_named_groups_only
           "http://air/v1" "/ingestions/{id}/resources/{rid}" "full=1"
           [("id", "42"); ("rid", "7")]).
  intros g [<-|[]]. reflexivity.
Defined.

(* ===================================================================== *)
(** * Further properties: the handler under [retry_http]                   *)
(* ===================================================================== *)

Module HandlerFacts.
Import DictFacts FilterFacts RedactFacts Gen Handler.

Section Run.
Variable cfg : config.
Variable get_dict_definition : json -> option string.
Variable tb : tables.
Variable func_name : string.
Variable request : inbound.
Variable kwargs : dict string.
Variable http : nat -> outgoing -> result response.
Variable draw : nat -> Z.
Variable n : nat.
Variable out : outgoing.
Variable resp : response.

Hypothesis draw_ok : draws_in_range draw.
Hypothesis built : sent tb func_name request kwargs = Ok out.
Hypothesis refused :
  forall i, (i < n)%nat -> exists msg, http i out = Raise (ConnectionError msg).
Hypothesis answers : http n out = Ok resp.
Hypothesis in_time : slept_before draw n < max_sleep_time.

(** The handler ends as the reading of the first answer does. *)
Lemma handler_after_refusals (res : result (body * nat)) :
  read_response cfg get_dict_definition resp = res ->
  match res with
  | Ok _ => True
  | Raise e => is_ConnectionError e = false
  end ->
  exists st,
    handler cfg get_dict_definition tb func_name request kwargs http draw =
    Some (res, st) /\
    calls (trace st) = S n.
Proof.
  intros Hres Hno.
  set (call := func cfg get_dict_definition tb func_name request kwargs http).
  assert (Hcall : call n = res).
  { unfold call, func. rewrite built. cbn [bind]. rewrite answers. exact Hres. }
  destruct (retry_http_after_refusals call draw n draw_ok) as [st [Hrun Htr]].
  - intros i Hi. destruct (refused i Hi) as [msg Hm]. exists msg.
    unfold call, func. rewrite built. cbn [bind]. now rewrite Hm.
  - now rewrite Hcall.
  - exact in_time.
  - exists st. split.
    + unfold handler. fold call. now rewrite Hrun, Hcall.
    + rewrite Htr, calls_app, calls_failed_attempts. simpl. lia.
Qed.

End Run.

End HandlerFacts.

Import HandlerFacts Handler.

(** X23.  An answer that is not JSON.  When the upstream, after [n]
    refused connections and less than ten seconds of waiting, answers
    with a body that [req.json()] cannot decode, the handler returns the
    text and the status code of that answer as they are, after [n + 1]
    requests. *)
Theorem handler_returns_text_of_undecodable_answer :
  forall cfg get_dict_definition tb func_name request kwargs http draw n out resp,
    draws_in_range draw ->
    sent tb func_name request kwargs = Ok out ->
    (forall i, (i < n)%nat -> exists msg, http i out = Raise (ConnectionError msg)) ->
    http n out = Ok resp ->
    slept_before draw n < max_sleep_time ->
    resp_json resp = Raise JSONDecodeError ->
    exists st,
      handler cfg get_dict_definition tb func_name request kwargs http draw =
      Some (Ok (Text (resp_text resp), resp_status resp), st) /\
      calls (trace st) = S n.
Proof.
  intros cfg resolve tb name request kwargs http draw n out resp
         Hd Hb Hr Ha Ht Hj.
  apply (handler_after_refusals cfg resolve tb name request kwargs http draw n
                                out resp Hd Hb Hr Ha Ht).
  - unfold read_response. now rewrite Hj.
  - exact I.
Qed.

Lemma handler_returns_text_of_undecodable_answer_witness :
  exists st,
    handler Fixture.yaml_file Fixture.resolve_test
            (mkTables [("f", JDict [])] [("f", "http://air/v1")]
                      [("f", "/ingestions")] [("f", "get")])
            "f" (mkInbound "" []) []
            (flaky 2 (mkResponse (Raise JSONDecodeError) "Bad Gateway" 502))
            no_jitter =
    Some (Ok (Text "Bad Gateway", 502%nat), st) /\
    calls (trace st) = 3%nat.
Proof.
  apply (handler_returns_text_of_undecodable_answer
           Fixture.yaml_file Fixture.resolve_test
           (mkTables [("f", JDict [])] [("f", "http://air/v1")]
                     [("f", "/ingestions")] [("f", "get")])
           "f" (mkInbound "" []) []
           (flaky 2 (mkResponse (Raise JSONDecodeError) "Bad Gateway" 502))
           no_jitter 2
           (mkOutgoing "get" "http://air/v1/ingestions?" [] false)
           (mkResponse (Raise JSONDecodeError) "Bad Gateway" 502)).
  - intro i. unfold no_jitter, randint_hi. lia.
  - reflexivity.
  - intros i Hi. exists "Connection refused". unfold flaky.
    apply Nat.ltb_lt in Hi. now rewrite Hi.
  - reflexivity.
  - vm_compute. reflexivity.
  - reflexivity.
Defined.

(** X24.  An answer that is JSON.  When the upstream, after [n] refused
    connections and less than ten seconds of waiting, answers with a
    document that [filter_definition] turns into [doc'], the handler
    returns [doc'] with the status code of that answer, after [n + 1]
    requests. *)
Theorem handler_returns_filtered_document :
  forall cfg get_dict_definition tb func_name request kwargs http draw n out resp
         doc doc',
    draws_in_range draw ->
    sent tb func_name request kwargs = Ok out ->
    (forall i, (i < n)%nat -> exists msg, http i out = Raise (ConnectionError msg)) ->
    http n out = Ok resp ->
    slept_before draw n < max_sleep_time ->
    resp_json resp = Ok doc ->
    filter_definition cfg get_dict_definition doc = Some (Ok doc') ->
    exists st,
      handler cfg get_dict_definition tb func_name request kwargs http draw =
      Some (Ok (Document doc', resp_status resp), st) /\
      calls (trace st) = S n.
Proof.
  intros cfg resolve tb name request kwargs http draw n out resp doc doc'
         Hd Hb Hr Ha Ht Hj Hf.
  apply (handler_after_refusals cfg resolve tb name request kwargs http draw n
                                out resp Hd Hb Hr Ha Ht).
  - unfold read_response. now rewrite Hj, Hf.
  - exact I.
Qed.

Lemma handler_returns_filtered_document_witness :
  exists st,
    handler Fixture.yaml_file Fixture.resolve_test
            (mkTables [("f", JDict [])] [("f", "http://trax/v1")]
                      [("f", "/identifications/")] [("f", "get")])
            "f" (mkInbound "" []) []
            (flaky 1 (mkResponse (Ok Fixture.doc_test) "" 200))
            no_jitter =
    Some (Ok (Document
                (JList [JDict [("test", JStr "456");
                               ("sub", JDict [("test", JStr "147")])]]),
              200%nat), st) /\
    calls (trace st) = 2%nat.
Proof.
  apply (handler_returns_filtered_document
           Fixture.yaml_file Fixture.resolve_test
           (mkTables [("f", JDict [])] [("f", "http://trax/v1")]
                     [("f", "/identifications/")] [("f", "get")])
           "f" (mkInbound "" []) []
           (flaky 1 (mkResponse (Ok Fixture.doc_test) "" 200))
           no_jitter 1
           (mkOutgoing "get" "http://trax/v1/identifications/?" [] false)
           (mkResponse (Ok Fixture.doc_test) "" 200)
           Fixture.doc_test).
  - intro i. unfold no_jitter, randint_hi. lia.
  - reflexivity.
  - intros i Hi. exists "Connection refused". unfold flaky.
    apply Nat.ltb_lt in Hi. now rewrite Hi.
  - reflexivity.
  - vm_compute. reflexivity.
  - reflexivity.
  - reflexivity.
Defined.

(** X25.  A failure of the filter is not a failure of the connection.
    When the answer is a document on which [filter_definition] raises
    [KeyError] (a field listed for its schema is absent), the handler
    raises that error at once: the request is not sent again, nothing
    is slept after it, and the answer of the upstream is lost. *)
Theorem handler_filter_error_is_not_retried :
  forall cfg get_dict_definition tb func_name request kwargs http draw n out resp
         doc key,
    draws_in_range draw ->
    sent tb func_name request kwargs = Ok out ->
    (forall i, (i < n)%nat -> exists msg, http i out = Raise (ConnectionError msg)) ->
    http n out = Ok resp ->
    slept_before draw n < max_sleep_time ->
    resp_json resp = Ok doc ->
    filter_definition cfg get_dict_definition doc = Some (Raise (KeyError key)) ->
    exists st,
      handler cfg get_dict_definition tb func_name request kwargs http draw =
      Some (Raise (KeyError key), st) /\
      calls (trace st) = S n.
Proof.
  intros cfg resolve tb name request kwargs http draw n out resp doc key
         Hd Hb Hr Ha Ht Hj Hf.
  apply (handler_after_refusals cfg resolve tb name request kwargs http draw n
                                out resp Hd Hb Hr Ha Ht (Raise (KeyError key))).
  - unfold read_response. now rewrite Hj, Hf.
  - reflexivity.
Qed.

Lemma handler_filter_error_is_not_retried_witness :
  exists st,
    handler Fixture.yaml_file Fixture.resolve_test
            (mkTables [("f", JDict [])] [("f", "http://trax/v1")]
                      [("f", "/identifications/")] [("f", "get")])
            "f" (mkInbound "" []) []
            (flaky 1 (mkResponse
                        (Ok (JDict [("test", JStr "456"); ("sub", JDict [])]))
                        "" 200))
            no_jitter =
    Some (Raise (KeyError "id"), st) /\
    calls (trace st) = 2%nat.
Proof.
  apply (handler_filter_error_is_not_retried
           Fixture.yaml_file Fixture.resolve_test
           (mkTables [("f", JDict [])] [("f", "http://trax/v1")]
                     [("f", "/identifications/")] [("f", "get")])
           "f" (mkInbound "" []) []
           (flaky 1 (mkResponse
                       (Ok (JDict [("test", JStr "456"); ("sub", JDict [])]))
                       "" 200))
           no_jitter 1
           (mkOutgoing "get" "http://trax/v1/identifications/?" [] false)
           (mkResponse (Ok (JDict [("test", JStr "456"); ("sub", JDict [])]))
                       "" 200)
           (JDict [("test", JStr "456"); ("sub", JDict [])])).
  - intro i. unfold no_jitter, randint_hi. lia.
  - reflexivity.
  - intros i Hi. exists "Connection refused". unfold flaky.
    apply Nat.ltb_lt in Hi. now rewrite Hi.
  - reflexivity.
  - vm_compute. reflexivity.
  - reflexivity.
  - reflexivity.
Defined.
